(** * VoiceForge: deterministic cleaning engine and chunked processing pipeline

    Shallow embedding of [src/gradio_app/text_cleaner.py],
    [src/gradio_app/text_processor.py], [src/gradio_app/llm_service.py],
    [src/gradio_app/models.py] and the entry points of [src/gradio_app/app.py].

    A Python [str] is a sequence of code points: it is modelled as [list Z].
    Python [int] is [Z], Python [float] is the primitive IEEE double [float]. *)

From Stdlib Require Import ZArith Bool String Ascii Lia Floats List.
Import ListNotations.

(** ** Python strings *)

Definition pystr := list Z.

(** ASCII literal to code points (used for constants of the source). *)
Definition of_ascii (s : string) : pystr :=
  map (fun a => Z.of_nat (nat_of_ascii a)) (list_ascii_of_string s).

Definition pystr_eqb (a b : pystr) : bool :=
  if list_eq_dec Z.eq_dec a b then true else false.

Definition in_range (lo hi c : Z) : bool := (lo <=? c)%Z && (c <=? hi)%Z.

(** [str.isspace], which is also the class [\s] of a [str] pattern. *)
Definition is_py_space (c : Z) : bool :=
  in_range 9 13 c || in_range 28 32 c || (c =? 133)%Z || (c =? 160)%Z
  || (c =? 5760)%Z || in_range 8192 8202 c || (c =? 8232)%Z || (c =? 8233)%Z
  || (c =? 8239)%Z || (c =? 8287)%Z || (c =? 12288)%Z.

Definition is_ascii_lower (c : Z) : bool := in_range 97 122 c.
Definition is_ascii_upper (c : Z) : bool := in_range 65 90 c.
Definition is_ascii_letter (c : Z) : bool := is_ascii_lower c || is_ascii_upper c.
Definition is_ascii_digit (c : Z) : bool := in_range 48 57 c.
(** [[ \t]] *)
Definition is_hspace (c : Z) : bool := (c =? 32)%Z || (c =? 9)%Z.
Definition is_nl (c : Z) : bool := (c =? 10)%Z.

Definition opt_test (p : Z -> bool) (o : option Z) : bool :=
  match o with Some c => p c | None => false end.

Definition head_test (p : Z -> bool) (s : pystr) : bool :=
  match s with c :: _ => p c | [] => false end.

Fixpoint take_while (p : Z -> bool) (s : pystr) : pystr :=
  match s with c :: r => if p c then c :: take_while p r else [] | [] => [] end.

Fixpoint drop_while (p : Z -> bool) (s : pystr) : pystr :=
  match s with c :: r => if p c then drop_while p r else s | [] => [] end.

(** [str.strip()] with no argument. *)
Definition py_lstrip (s : pystr) : pystr := drop_while is_py_space s.
Definition py_strip (s : pystr) : pystr := rev (py_lstrip (rev (py_lstrip s))).

(** [sep.join(parts)] *)
Fixpoint py_join (sep : pystr) (parts : list pystr) : pystr :=
  match parts with
  | [] => []
  | [p] => p
  | p :: ps => p ++ sep ++ py_join sep ps
  end.

(** [str.lower()] on the ASCII letters the merged-word splitter passes it. *)
Definition py_lower (s : pystr) : pystr :=
  map (fun c => if is_ascii_upper c then (c + 32)%Z else c) s.

(** ** [re.sub] for the patterns of the source

    A pattern is given by its matcher: at a position it sees the previous
    code point of the subject (for look-behinds and [\b]) and the rest of
    the subject, and returns the length of the leftmost-greedy match there
    (with backtracking resolved) and its replacement.  [re.sub] scans left
    to right; after a match it resumes behind it (matches never overlap). *)

Definition matcher := option Z -> pystr -> option (nat * pystr).

Fixpoint sub_go (m : matcher) (skip : nat) (prev : option Z) (s : pystr) : pystr :=
  match s with
  | [] => []
  | c :: r =>
      match skip with
      | S k => sub_go m k (Some c) r
      | O =>
          match m prev s with
          | Some (S n, rep) => rep ++ sub_go m n (Some c) r
          | _ => c :: sub_go m 0 (Some c) r
          end
      end
  end.

Definition re_sub (m : matcher) (s : pystr) : pystr := sub_go m 0 None s.

(** Fixed-length prefix test, one predicate per code point. *)
Fixpoint match_preds (ps : list (Z -> bool)) (s : pystr) : option pystr :=
  match ps, s with
  | [], _ => Some s
  | p :: ps', c :: s' => if p c then match_preds ps' s' else None
  | _ :: _, [] => None
  end.

Definition is_char (k : Z) (c : Z) : bool := (c =? k)%Z.
Definition mem (c : Z) (l : pystr) : bool := existsb (Z.eqb c) l.

(** ** [text_cleaner.py] *)

Module CleaningOptions.
Record t := mk {
  replace_smart_quotes : bool;
  fix_ocr_errors : bool;
  correct_spelling : bool;
  remove_urls : bool;
  remove_footnotes : bool;
  add_punctuation : bool;
  fix_hyphenation : bool
}.
(** The dataclass defaults. *)
Definition default : t := mk true true false true true true false.
End CleaningOptions.

Module DeterministicCleaningResult.
Record t := mk { text : pystr; applied : list string }.
End DeterministicCleaningResult.

(** [SMART_REPLACEMENTS] looked up by [SMART_PUNCTUATION_RE]'s character class. *)
Definition smart_replacement (c : Z) : option pystr :=
  if mem c [8220; 8221; 8222; 171; 187; 8249; 8250]%Z then Some [34%Z]
  else if mem c [8216; 8217; 8218; 8219]%Z then Some [39%Z]
  else if mem c [8211; 8212; 8722; 8208; 8209; 8210]%Z then Some [45%Z]
  else if (c =? 8230)%Z then Some [46; 46; 46]%Z
  else if mem c [8226; 183]%Z then Some [45%Z]
  else None.

(** [SMART_PUNCTUATION_RE] with [repl] *)
Definition m_smart_punctuation : matcher := fun _ s =>
  match s with
  | c :: _ => match smart_replacement c with Some rep => Some (1%nat, rep) | None => None end
  | [] => None
  end.

(** [NBSP_RE] with [" "] *)
Definition m_nbsp : matcher := fun _ s =>
  match s with
  | c :: _ => if (c =? 160)%Z then Some (1%nat, [32%Z]) else None
  | [] => None
  end.

Definition _replace_smart_punctuation (text : pystr) : pystr :=
  re_sub m_nbsp (re_sub m_smart_punctuation text).

(** [[^\s<>()]] *)
Definition is_url_char (c : Z) : bool :=
  negb (is_py_space c || mem c [60; 62; 40; 41]%Z).

(** Letters of [https?://|www\.] under [re.IGNORECASE]: the long s (U+017F)
    folds to [s]. *)
Definition ci_h (c : Z) : bool := mem c [104; 72]%Z.
Definition ci_t (c : Z) : bool := mem c [116; 84]%Z.
Definition ci_p (c : Z) : bool := mem c [112; 80]%Z.
Definition ci_s (c : Z) : bool := mem c [115; 83; 383]%Z.
Definition ci_w (c : Z) : bool := mem c [119; 87]%Z.

(** [(?:https?://|www\.)[^\s<>()]+] matches at this position. *)
Definition url_prefix_ok (s : pystr) : bool :=
  let tail_ok ps :=
    match match_preds ps s with Some r => head_test is_url_char r | None => false end in
  tail_ok [ci_h; ci_t; ci_t; ci_p; ci_s; is_char 58; is_char 47; is_char 47]
  || tail_ok [ci_h; ci_t; ci_t; ci_p; is_char 58; is_char 47; is_char 47]
  || tail_ok [ci_w; ci_w; ci_w; is_char 46].

Section Cleaning.

(** [\w] of a [str] pattern is [str.isalnum()] or [_]; on code points from 128
    on it is Unicode data, left as a parameter [uword]. *)
Variable uword : Z -> bool.
(** The lexicon of [_load_lexicon] (lowercase words), as a membership test. *)
Variable lexicon : pystr -> bool.

Definition is_word (c : Z) : bool :=
  if (c <? 128)%Z then is_ascii_letter c || is_ascii_digit c || (c =? 95)%Z
  else uword c.

(** [\b] between the previous code point and [c]. *)
Definition boundary (prev : option Z) (c : Z) : bool :=
  xorb (opt_test is_word prev) (is_word c).

(** [URL_RE]: the match is the whole run of [[^\s<>()]] from here, because
    every code point of the prefix is in that class. *)
Definition m_url : matcher := fun prev s =>
  match s with
  | c :: _ =>
      if boundary prev c && url_prefix_ok s
      then Some (length (take_while is_url_char s), [32%Z])
      else None
  | [] => None
  end.

Definition _remove_urls (text : pystr) : pystr := re_sub m_url text.

Definition is_roman (c : Z) : bool := mem c (of_ascii "ivxlcdmIVXLCDM").
Definition is_numeral (c : Z) : bool := is_ascii_digit c || is_roman c.
(** [[\s,.;:-]] *)
Definition is_ref_sep (c : Z) : bool := is_py_space c || mem c [44; 46; 59; 58; 45]%Z.

(** The interior [\s*(?:N)(?:[\s,.;:-]*(?:N))*\s*] with [N] one of
    [[0-9]+], [[ivxlcdmIVXLCDM]+]: after the surrounding [\s*] a non-empty
    run of numerals and separators that begins and ends with a numeral. *)
Definition ref_interior_ok (x : pystr) : bool :=
  let core := py_strip x in
  match core with
  | [] => false
  | h :: _ =>
      is_numeral h && is_numeral (last core 0%Z)
      && forallb (fun c => is_numeral c || is_ref_sep c) core
  end.

(** [BRACKET_REFERENCE_RE] ([op], [cl] = [[], []]) and [PAREN_FOOTNOTE_RE]
    ([(], [)]): no code point of the interior is the closing delimiter, so
    a match ends at the first one. *)
Definition m_reference (op cl : Z) : matcher := fun _ s =>
  match s with
  | c :: r =>
      if (c =? op)%Z then
        let interior := take_while (fun x => negb (x =? cl)%Z) r in
        match drop_while (fun x => negb (x =? cl)%Z) r with
        | _ :: _ =>
            if ref_interior_ok interior
            then Some (S (S (length interior)), [32%Z]) else None
        | [] => None
        end
      else None
  | [] => None
  end.

Definition _remove_references (text : pystr) : pystr :=
  re_sub (m_reference 40 41) (re_sub (m_reference 91 93) text).

(** [(?<=[A-Za-z])-\s*\n\s*(?=[A-Za-z])]: the greedy [\s*] take the whole
    whitespace run after the hyphen, which must hold a newline and be
    followed by a letter. *)
Definition m_hyphen_break : matcher := fun prev s =>
  match s with
  | c :: r =>
      if (c =? 45)%Z && opt_test is_ascii_letter prev then
        let w := take_while is_py_space r in
        if existsb is_nl w && head_test is_ascii_letter (drop_while is_py_space r)
        then Some (S (length w), []) else None
      else None
  | [] => None
  end.

(** [(?<=[A-Za-z])\n(?=[A-Za-z])] *)
Definition m_letter_newline : matcher := fun prev s =>
  match s with
  | c :: r =>
      if is_nl c && opt_test is_ascii_letter prev && head_test is_ascii_letter r
      then Some (1%nat, [32%Z]) else None
  | [] => None
  end.

Definition _fix_hyphenation_artifacts (text : pystr) : pystr :=
  re_sub m_letter_newline (re_sub m_hyphen_break text).

(** [CAMEL_CASE_SPLIT_RE] with [r"\1 \2"] *)
Definition m_camel : matcher := fun _ s =>
  match s with
  | a :: b :: c :: r =>
      if is_ascii_lower a && is_ascii_upper b && is_ascii_lower c then
        let run := take_while is_ascii_lower r in
        Some (3 + length run, a :: 32%Z :: b :: c :: run)%nat
      else None
  | _ => None
  end.

Definition _split_camel_case (text : pystr) : pystr := re_sub m_camel text.

(** [range(len(lower) - 3, 2, -1)] *)
Definition split_points (n : nat) : list nat := rev (seq 3 (n - 5)).

(** [_find_lexicon_split]; [fuel] only makes the recursion structural: the
    [depth > 3] test stops it first when called with [fuel = 5]. *)
Fixpoint find_lexicon_split_aux (fuel depth : nat) (original : pystr)
  : option (list pystr) :=
  let lower := py_lower original in
  if lexicon lower || (3 <? depth)%nat || (length lower <? 6)%nat then None
  else
    match fuel with
    | O => None
    | S fuel' =>
        let fix loop (is : list nat) : option (list pystr) :=
          match is with
          | [] => None
          | i :: is' =>
              if negb (lexicon (firstn i lower)) then loop is'
              else
                let right_original := skipn i original in
                if lexicon (skipn i lower) then Some [firstn i original; right_original]
                else
                  match find_lexicon_split_aux fuel' (S depth) right_original with
                  | Some (d :: ds) => Some (firstn i original :: d :: ds)
                  | _ => loop is'
                  end
          end in
        loop (split_points (length lower))
    end.

Definition _find_lexicon_split (original : pystr) : option (list pystr) :=
  find_lexicon_split_aux 5 0 original.

(** [repl] of [_split_merged_words] *)
Definition merged_repl (word : pystr) : pystr :=
  if (30 <? length word)%nat then word
  else if lexicon (py_lower word) then word
  else match _find_lexicon_split word with
       | Some (p :: ps) => py_join [32%Z] (p :: ps)
       | _ => word
       end.

(** [MERGED_WORD_RE = \b[a-zA-Z]{6,}\b]: the letters run is maximal, since a
    shorter one is followed by a letter and has no [\b] behind it. *)
Definition m_merged_word : matcher := fun prev s =>
  match s with
  | c :: _ =>
      let run := take_while is_ascii_letter s in
      let after := drop_while is_ascii_letter s in
      if boundary prev c && is_ascii_letter c && (6 <=? length run)%nat
         && negb (head_test is_word after)
      then Some (length run, merged_repl run) else None
  | [] => None
  end.

Definition _split_merged_words (text : pystr) : pystr := re_sub m_merged_word text.

(** [LEADING_SPACE_NEWLINE_RE = [ \t]+\n] *)
Definition m_space_newline : matcher := fun _ s =>
  match s with
  | c :: _ =>
      if is_hspace c && head_test is_nl (drop_while is_hspace s)
      then Some (S (length (take_while is_hspace s)), [10%Z]) else None
  | [] => None
  end.

(** [TRAILING_SPACE_NEWLINE_RE = \n[ \t]+] *)
Definition m_newline_space : matcher := fun _ s =>
  match s with
  | c :: r =>
      if is_nl c && head_test is_hspace r
      then Some (S (length (take_while is_hspace r)), [10%Z]) else None
  | [] => None
  end.

(** [MULTI_SPACE_RE = [ \t]{2,}] *)
Definition m_multi_space : matcher := fun _ s =>
  let run := take_while is_hspace s in
  if (2 <=? length run)%nat then Some (length run, [32%Z]) else None.

(** [EXCESS_NEWLINES_RE = \n{3,}] *)
Definition m_excess_newlines : matcher := fun _ s =>
  let run := take_while is_nl s in
  if (3 <=? length run)%nat then Some (length run, [10%Z; 10%Z]) else None.

Definition _normalize_spacing (text : pystr) : pystr :=
  py_strip (re_sub m_excess_newlines (re_sub m_multi_space
    (re_sub m_newline_space (re_sub m_space_newline text)))).

(** One guarded step: run [f] when [enabled], record [name] when it changed
    the text. *)
Definition cleaning_step (enabled : bool) (name : string) (f : pystr -> pystr)
  (st : pystr * list string) : pystr * list string :=
  if enabled then
    let t' := f (fst st) in
    if pystr_eqb t' (fst st) then st else (t', snd st ++ [name])
  else st.

Definition stage_smart (o : CleaningOptions.t) :=
  cleaning_step (CleaningOptions.replace_smart_quotes o) "replaceSmartQuotes"
    _replace_smart_punctuation.
Definition stage_urls (o : CleaningOptions.t) :=
  cleaning_step (CleaningOptions.remove_urls o) "removeUrls" _remove_urls.
Definition stage_footnotes (o : CleaningOptions.t) (phase : string) :=
  cleaning_step (CleaningOptions.remove_footnotes o && String.eqb phase "pre")
    "removeFootnotes" _remove_references.
Definition stage_hyphenation (o : CleaningOptions.t) :=
  cleaning_step (CleaningOptions.fix_hyphenation o) "fixHyphenation"
    _fix_hyphenation_artifacts.
Definition stage_ocr (o : CleaningOptions.t) (st : pystr * list string) :=
  cleaning_step (CleaningOptions.fix_ocr_errors o) "splitMergedWords" _split_merged_words
    (cleaning_step (CleaningOptions.fix_ocr_errors o) "splitCamelCase" _split_camel_case st).

Definition apply_deterministic_cleaning (input_text : pystr) (options : CleaningOptions.t)
  (phase : string) : DeterministicCleaningResult.t :=
  let st := stage_ocr options (stage_hyphenation options (stage_footnotes options phase
              (stage_urls options (stage_smart options (input_text, []))))) in
  DeterministicCleaningResult.mk (_normalize_spacing (fst st)) (snd st).

End Cleaning.

Local Open Scope string_scope.

(** [FALLBACK_WORDS] *)
Definition FALLBACK_WORDS : list string := [
  "a"; "able"; "about"; "above"; "after"; "again"; "against"; "air"; "all";
  "along"; "also"; "always"; "among"; "an"; "and"; "another"; "any";
  "anything"; "are"; "around"; "as"; "ask"; "at"; "away"; "back"; "be";
  "because"; "become"; "been"; "before"; "began"; "behind"; "being"; "below";
  "between"; "both"; "brought"; "but"; "by"; "call"; "called"; "can";
  "cannot"; "come"; "could"; "day"; "did"; "didn"; "do"; "does"; "done";
  "down"; "each"; "end"; "enough"; "even"; "ever"; "every"; "face"; "fact";
  "far"; "feel"; "felt"; "few"; "find"; "first"; "for"; "form"; "found";
  "from"; "gave"; "get"; "give"; "given"; "go"; "good"; "got"; "great";
  "had"; "half"; "hand"; "has"; "have"; "having"; "he"; "head"; "hear";
  "heard"; "help"; "her"; "here"; "high"; "him"; "his"; "home"; "house";
  "how"; "however"; "if"; "in"; "into"; "is"; "it"; "its"; "just"; "keep";
  "knew"; "know"; "known"; "land"; "large"; "last"; "later"; "least";
  "leave"; "left"; "let"; "life"; "like"; "little"; "long"; "look"; "looked";
  "made"; "make"; "man"; "many"; "may"; "mean"; "men"; "might"; "mind";
  "moment"; "more"; "most"; "mother"; "much"; "must"; "near"; "need";
  "never"; "new"; "night"; "no"; "not"; "nothing"; "now"; "of"; "off"; "old";
  "on"; "once"; "one"; "only"; "open"; "or"; "other"; "our"; "out"; "over";
  "own"; "part"; "people"; "place"; "point"; "put"; "right"; "room"; "said";
  "same"; "saw"; "say"; "says"; "see"; "seem"; "seemed"; "shall"; "she";
  "should"; "side"; "since"; "small"; "so"; "some"; "someone"; "something";
  "soon"; "still"; "such"; "take"; "taken"; "tell"; "than"; "that"; "the";
  "their"; "them"; "then"; "there"; "these"; "they"; "thing"; "think";
  "this"; "those"; "though"; "thought"; "three"; "through"; "time"; "to";
  "told"; "too"; "took"; "toward"; "turn"; "two"; "under"; "up"; "upon";
  "us"; "use"; "very"; "want"; "was"; "way"; "we"; "well"; "went"; "were";
  "what"; "when"; "where"; "which"; "while"; "who"; "whole"; "why"; "will";
  "with"; "within"; "without"; "word"; "words"; "work"; "would"; "year";
  "years"; "yes"; "you"; "young"; "your"].

Local Close Scope string_scope.

(** The lexicon [_load_lexicon] returns when none of [DICT_CANDIDATE_PATHS]
    exists: the lowercased fallback words. *)
Definition fallback_lexicon (w : pystr) : bool :=
  existsb (pystr_eqb w) (map (fun x => py_lower (of_ascii x)) FALLBACK_WORDS).

(** [str.isalnum()] or [_] on Latin-1 code points 128..255; code points above
    are taken as non-word.  Only used to evaluate the engine on concrete
    inputs, which are ASCII. *)
Definition latin1_word (c : Z) : bool :=
  mem c [170; 178; 179; 181; 185; 186; 188; 189; 190]%Z
  || (in_range 192 255 c && negb (mem c [215; 247]%Z)).

(** ** [models.py] *)

Inductive SpeakerMode := NONE | FORMAT | INTELLIGENT.
Inductive LabelFormat := SPEAKER | BRACKET.
Inductive NarratorAttribution := REMOVE | VERBATIM | CONTEXTUAL.
Inductive ModelSource := API | OLLAMA.

Module CharacterMapping.
Record t := mk { name : pystr; speaker_number : Z }.
End CharacterMapping.

Module SpeakerConfig.
Record t := mk {
  mode : SpeakerMode;
  speaker_count : Z;
  label_format : LabelFormat;
  speaker_mapping : list (pystr * pystr);
  extract_characters : bool;
  sample_size : Z;
  include_narrator : bool;
  narrator_attribution : NarratorAttribution;
  character_mapping : list CharacterMapping.t;
  narrator_character_name : option pystr
}.
Definition is_enabled (c : t) : bool :=
  match mode c with NONE => false | _ => true end.
End SpeakerConfig.

Module ProcessingConfig.
Record t := mk {
  batch_size : Z;
  cleaning_options : CleaningOptions.t;
  speaker_config : option SpeakerConfig.t;
  model_source : ModelSource;
  model_name : pystr;
  ollama_model_name : option pystr;
  temperature : float;
  llm_cleaning_disabled : bool;
  custom_instructions : option pystr;
  single_pass : bool;
  extended_examples : bool
}.
End ProcessingConfig.

Module ProcessChunkResult.
Record t := mk {
  text : pystr;
  input_tokens : Z;
  output_tokens : Z;
  input_cost : float;
  output_cost : float;
  applied_steps : list string
}.
End ProcessChunkResult.

(** A log line of [process_text]:
    [f"Chunk {idx + 1}: {type(exc).__name__}: {exc}"] and
    [f"Chunk {idx + 1}: falling back to original text after errors."]. *)
Inductive LogLine :=
| ChunkError (chunk_no : Z) (exc_type exc_message : string)
| ChunkFallback (chunk_no : Z).

Module ProcessingProgress.
(** The timing fields [last_chunk_ms], [avg_chunk_ms], [eta_ms] are read
    from [time.perf_counter] and are not modelled. *)
Record t := mk {
  chunk_index : Z;
  processed_text : pystr;
  status : string;
  retry_count : Z;
  input_tokens : Z;
  output_tokens : Z;
  total_input_tokens : Z;
  total_output_tokens : Z;
  total_cost : float
}.
End ProcessingProgress.

Module ProcessingSummary.
Record t := mk {
  text : pystr;
  total_chunks : Z;
  total_input_tokens : Z;
  total_output_tokens : Z;
  total_cost : float;
  applied_cleaning_steps : list string;
  logs : list LogLine
}.
End ProcessingSummary.

(** ** [llm_service.py] *)

Definition estimate_tokens (text : pystr) : Z :=
  match text with
  | [] => 0%Z
  | _ => Z.max 1 (Z.of_nat (length (py_strip text)) / 4)
  end.

Module ProcessOptions.
Record t := mk {
  text : pystr;
  cleaning_options : CleaningOptions.t;
  speaker_config : option SpeakerConfig.t;
  model_source : ModelSource;
  model_name : pystr;
  ollama_model_name : option pystr;
  temperature : float;
  custom_instructions : option pystr;
  single_pass : bool;
  llm_cleaning_disabled : bool;
  extended_examples : bool
}.
End ProcessOptions.

(** A prompt, as the builder call that renders it:
    [_build_cleaning_prompt(text, options, custom_instructions)] or
    [_build_speaker_prompt(text, config, custom_instructions, extended_examples)]. *)
Inductive Prompt :=
| CleaningPrompt (text : pystr) (options : CleaningOptions.t) (custom : option pystr)
| SpeakerPrompt (text : pystr) (config : SpeakerConfig.t) (custom : option pystr)
    (extended : bool).

Module Usage.
Record t := mk { input_tokens : Z; output_tokens : Z; input_cost : float; output_cost : float }.
Definition add (u v : t) : t :=
  mk (input_tokens u + input_tokens v) (output_tokens u + output_tokens v)
     (input_cost u + input_cost v)%float (output_cost u + output_cost v)%float.
End Usage.

(** What [_generate_text] (the HuggingFace or Ollama call, an external
    collaborator) gives back: the generated text and its usage, or an
    exception (type name, message). *)
Inductive GenOutcome :=
| GenRaise (exc_type exc_message : string)
| GenOk (text : pystr) (usage : Usage.t).

(** What a call of [process_chunk] gives back. *)
Inductive ChunkOutcome :=
| Raise (exc_type exc_message : string)
| Return (result : ProcessChunkResult.t).

Definition speaker_active (c : option SpeakerConfig.t) : option SpeakerConfig.t :=
  match c with
  | Some cfg => if SpeakerConfig.is_enabled cfg then Some cfg else None
  | None => None
  end.

Definition token_missing_message : string :=
  "HuggingFace API token not configured. Set HUGGINGFACE_API_TOKEN or provide a token in the UI."%string.

Section Service.
Variable uword : Z -> bool.
Variable lexicon : pystr -> bool.
(** [self._client] after [_update_client_from_env]: whether a non-empty
    [HUGGINGFACE_API_TOKEN] or [HF_TOKEN] is set. *)
Variable client_configured : bool.
(** [_generate_text(prompt, options)] *)
Variable generate : ProcessOptions.t -> Prompt -> GenOutcome.

Definition clean := apply_deterministic_cleaning uword lexicon.

Definition finish_chunk (options : ProcessOptions.t) (generated : pystr) (usage : Usage.t)
  (applied_steps : list string) : ChunkOutcome :=
  let clean_post := clean generated (ProcessOptions.cleaning_options options) "post" in
  Return (ProcessChunkResult.mk
    (py_strip (DeterministicCleaningResult.text clean_post))
    (Usage.input_tokens usage) (Usage.output_tokens usage)
    (Usage.input_cost usage) (Usage.output_cost usage)
    (applied_steps ++ DeterministicCleaningResult.applied clean_post)).

(** [LLMService.process_chunk]; also returns the prompts sent to the
    generation client, in order. *)
Definition process_chunk (options : ProcessOptions.t) : list Prompt * ChunkOutcome :=
  match ProcessOptions.model_source options, client_configured with
  | API, false => ([], Raise "RuntimeError"%string token_missing_message)
  | _, _ =>
    let '(text, applied_steps) :=
      if negb (ProcessOptions.llm_cleaning_disabled options) then
        let clean_result := clean (ProcessOptions.text options)
                              (ProcessOptions.cleaning_options options) "pre" in
        (DeterministicCleaningResult.text clean_result,
         DeterministicCleaningResult.applied clean_result)
      else (ProcessOptions.text options, []) in
    let speaker := speaker_active (ProcessOptions.speaker_config options) in
    let single := ProcessOptions.single_pass options in
    let custom := ProcessOptions.custom_instructions options in
    let ext := ProcessOptions.extended_examples options in
    let prompt :=
      match speaker with
      | Some cfg => if single then SpeakerPrompt text cfg custom ext
                    else CleaningPrompt text (ProcessOptions.cleaning_options options) custom
      | None => CleaningPrompt text (ProcessOptions.cleaning_options options) custom
      end in
    match generate options prompt with
    | GenRaise k m => ([prompt], Raise k m)
    | GenOk generated usage =>
      let step_name : string :=
        match speaker with
        | Some _ => if single then "llmSpeakerSinglePass" else "llmCleaning"
        | None => "llmCleaning"
        end%string in
      let applied_steps := applied_steps ++ [step_name] in
      match speaker with
      | Some cfg =>
        if negb single then
          let speaker_prompt := SpeakerPrompt generated cfg custom ext in
          match generate options speaker_prompt with
          | GenRaise k m => ([prompt; speaker_prompt], Raise k m)
          | GenOk generated2 usage_stage2 =>
            ([prompt; speaker_prompt],
             finish_chunk options generated2 (Usage.add usage usage_stage2)
               (applied_steps ++ ["llmSpeakerFormatting"%string]))
          end
        else ([prompt], finish_chunk options generated usage applied_steps)
      | None => ([prompt], finish_chunk options generated usage applied_steps)
      end
    end
  end.

End Service.

(** [LLMService.validate_output] *)
Definition validate_output (original generated : pystr) : bool :=
  match py_strip generated with
  | [] => false
  | _ => if pystr_eqb (py_strip generated) (py_strip original) then true else true
  end.

(** ** [text_processor.py] *)

Definition is_terminal (c : Z) : bool := mem c [46; 33; 63]%Z.

(** [re.findall(r"[^.!?]+(?:[.!?]+|$)", text)]: each match is a maximal run
    of non-terminal code points with the run of terminal ones after it;
    terminal code points before the first non-terminal one are skipped.
    [cur] is the match being read ([[]] between matches), [in_term] tells
    whether its terminal run has begun. *)
Fixpoint sentence_matches (cur : pystr) (in_term : bool) (s : pystr) : list pystr :=
  match s with
  | [] => match cur with [] => [] | _ => [cur] end
  | c :: r =>
      if is_terminal c then
        match cur with
        | [] => sentence_matches [] false r
        | _ => sentence_matches (cur ++ [c]) true r
        end
      else if in_term then cur :: sentence_matches [c] false r
      else sentence_matches (cur ++ [c]) false r
  end.

Definition nonblank (s : pystr) : bool :=
  match py_strip s with [] => false | _ => true end.

(** The loop of [split_into_chunks] over the sentences. *)
Fixpoint chunk_loop (batch_size : Z) (current : list pystr) (sentences : list pystr)
  : list pystr :=
  match sentences with
  | [] => match current with [] => [] | _ => [py_join [32%Z] current] end
  | sentence :: rest =>
      let current := current ++ [sentence] in
      if (batch_size <=? Z.of_nat (length current))%Z
      then py_join [32%Z] current :: chunk_loop batch_size [] rest
      else chunk_loop batch_size current rest
  end.

Definition split_sentences (text : pystr) : list pystr :=
  let found := match sentence_matches [] false text with [] => [text] | l => l end in
  map py_strip (filter nonblank found).

(** [TextProcessor.split_into_chunks] *)
Definition split_into_chunks (text : pystr) (batch_size : Z) : list pystr :=
  filter (fun chunk => match chunk with [] => false | _ => true end)
    (chunk_loop batch_size [] (split_sentences text)).

Module Acc.
(** The locals of [process_text] threaded through the chunk loop, with the
    number of [process_chunk] calls made so far. *)
Record t := mk {
  processed : list pystr;
  applied_steps : list string;
  logs : list LogLine;
  total_input_tokens : Z;
  total_output_tokens : Z;
  total_cost : float;
  calls : nat
}.
Definition init : t := mk [] [] [] 0 0 0%float 0.
End Acc.

Module Attempt.
(** The locals of the retry loop of one chunk. *)
Record t := mk {
  retry_count : nat;
  success : bool;
  processed_chunk : pystr;
  acc : Acc.t
}.
End Attempt.

Definition chunk_options (config : ProcessingConfig.t) (chunk : pystr) : ProcessOptions.t :=
  ProcessOptions.mk chunk
    (ProcessingConfig.cleaning_options config)
    (ProcessingConfig.speaker_config config)
    (ProcessingConfig.model_source config)
    (ProcessingConfig.model_name config)
    (ProcessingConfig.ollama_model_name config)
    (ProcessingConfig.temperature config)
    (ProcessingConfig.custom_instructions config)
    (ProcessingConfig.single_pass config)
    (ProcessingConfig.llm_cleaning_disabled config)
    (ProcessingConfig.extended_examples config).

Section Processor.

(** [self.service.process_chunk]: the [n]-th call of the document (counted
    from 0) with these options.  Any service, the [LLMService] above or a
    test double; a stateful one answers by its call number. *)
Variable service : nat -> ProcessOptions.t -> ChunkOutcome.
Variable config : ProcessingConfig.t.

(** One iteration of [while retry_count < 2 and not success]. *)
Definition attempt_step (idx : nat) (chunk : pystr) (st : Attempt.t) : Attempt.t * bool :=
  let a := Attempt.acc st in
  let chunk_no := Z.of_nat (S idx) in
  match service (Acc.calls a) (chunk_options config chunk) with
  | Raise k m =>
      let retry_count := S (Attempt.retry_count st) in
      let a := Acc.mk (Acc.processed a) (Acc.applied_steps a)
                 (Acc.logs a ++ [ChunkError chunk_no k m])
                 (Acc.total_input_tokens a) (Acc.total_output_tokens a)
                 (Acc.total_cost a) (S (Acc.calls a)) in
      if (2 <=? retry_count)%nat then
        (Attempt.mk retry_count (Attempt.success st) chunk
           (Acc.mk (Acc.processed a) (Acc.applied_steps a)
              (Acc.logs a ++ [ChunkFallback chunk_no])
              (Acc.total_input_tokens a) (Acc.total_output_tokens a)
              (Acc.total_cost a) (Acc.calls a)), true)
      else (Attempt.mk retry_count (Attempt.success st) (Attempt.processed_chunk st) a, false)
  | Return result =>
      let processed_chunk := ProcessChunkResult.text result in
      let a := Acc.mk (Acc.processed a)
                 (Acc.applied_steps a ++ ProcessChunkResult.applied_steps result)
                 (Acc.logs a)
                 (Acc.total_input_tokens a + ProcessChunkResult.input_tokens result)
                 (Acc.total_output_tokens a + ProcessChunkResult.output_tokens result)
                 (Acc.total_cost a + (ProcessChunkResult.input_cost result
                                      + ProcessChunkResult.output_cost result))%float
                 (S (Acc.calls a)) in
      let success := validate_output chunk processed_chunk in
      let retry_count := if success then Attempt.retry_count st
                         else S (Attempt.retry_count st) in
      (Attempt.mk retry_count success processed_chunk a, false)
  end.

(** The retry loop; the second component of [attempt_step] is [break].
    Every iteration raises [retry_count] or sets [success], so two
    iterations of fuel run it to its end ([attempt_loop_fuel] below). *)
Fixpoint attempt_loop (fuel : nat) (idx : nat) (chunk : pystr) (st : Attempt.t) : Attempt.t :=
  match fuel with
  | O => st
  | S fuel' =>
      if (Attempt.retry_count st <? 2)%nat && negb (Attempt.success st) then
        let '(st', brk) := attempt_step idx chunk st in
        if brk then st' else attempt_loop fuel' idx chunk st'
      else st
  end.

Definition run_chunk (idx : nat) (chunk : pystr) (a : Acc.t) : Attempt.t :=
  attempt_loop 2 idx chunk (Attempt.mk 0 false chunk a).

Definition progress_of (idx : nat) (st : Attempt.t) : ProcessingProgress.t :=
  let a := Attempt.acc st in
  ProcessingProgress.mk (Z.of_nat idx) (Attempt.processed_chunk st)
    (if Attempt.success st then "success" else "failed")%string
    (Z.of_nat (Attempt.retry_count st))
    (Acc.total_input_tokens a) (Acc.total_output_tokens a)
    (Acc.total_input_tokens a) (Acc.total_output_tokens a) (Acc.total_cost a).

(** The progress callback acts on a state of its own, of type [W]. *)
Variable W : Type.
Variable on_progress : option (W -> ProcessingProgress.t -> W).

(** [for idx, chunk in enumerate(chunks)] *)
Fixpoint chunks_loop (idx : nat) (chunks : list pystr) (a : Acc.t) (w : W) : Acc.t * W :=
  match chunks with
  | [] => (a, w)
  | chunk :: rest =>
      let st := run_chunk idx chunk a in
      let a' := Attempt.acc st in
      let a' := Acc.mk (Acc.processed a' ++ [Attempt.processed_chunk st])
                  (Acc.applied_steps a') (Acc.logs a') (Acc.total_input_tokens a')
                  (Acc.total_output_tokens a') (Acc.total_cost a') (Acc.calls a') in
      let w' := match on_progress with
                | Some f => f w (progress_of idx st)
                | None => w
                end in
      chunks_loop (S idx) rest a' w'
  end.

(** [TextProcessor.process_text] *)
Definition process_text (text : pystr) (w : W) : ProcessingSummary.t * W :=
  let chunks := split_into_chunks text (ProcessingConfig.batch_size config) in
  let '(a, w') := chunks_loop 0 chunks Acc.init w in
  (ProcessingSummary.mk (py_join [10; 10]%Z (Acc.processed a))
     (Z.of_nat (length chunks)) (Acc.total_input_tokens a) (Acc.total_output_tokens a)
     (Acc.total_cost a) (Acc.applied_steps a) (Acc.logs a), w').

End Processor.

Arguments process_text service config {W} on_progress text w.
Arguments chunks_loop service config {W} on_progress idx chunks a w.

(** [TextProcessor.deterministic_clean]: [phase] takes its default ["pre"]. *)
Definition deterministic_clean (uword : Z -> bool) (lexicon : pystr -> bool)
  (text : pystr) (options : CleaningOptions.t) : ProcessingSummary.t :=
  let result := apply_deterministic_cleaning uword lexicon text options "pre" in
  ProcessingSummary.mk (DeterministicCleaningResult.text result) 1 0 0 0%float
    (DeterministicCleaningResult.applied result) [].

(** ** [app.py] *)

(** The exceptions the entry points raise: [gr.Error(message)], and the
    [ValueError] of [int()] or of an enum constructor, with its argument. *)
Inductive PyError :=
| GrError (message : string)
| ValueError (argument : pystr).

Inductive Result (A : Type) :=
| Ok (a : A)
| Err (e : PyError).
Arguments Ok {A} a.
Arguments Err {A} e.

(** Line boundaries of [str.splitlines()]. *)
Definition is_line_break (c : Z) : bool :=
  mem c [10; 11; 12; 13; 28; 29; 30; 133; 8232; 8233]%Z.

(** [str.splitlines()]: [after_cr] swallows the [\n] of a [\r\n]. *)
Fixpoint splitlines_go (cur : pystr) (after_cr : bool) (s : pystr) : list pystr :=
  match s with
  | [] => match cur with [] => [] | _ => [cur] end
  | c :: r =>
      if after_cr && is_nl c then splitlines_go cur false r
      else if is_line_break c then cur :: splitlines_go [] (c =? 13)%Z r
      else splitlines_go (cur ++ [c]) false r
  end.

Definition splitlines (s : pystr) : list pystr := splitlines_go [] false s.

(** Code points of value 0 of the Unicode decimal digits (category Nd, Python
    3.11); each is followed by the digits 1 to 9. *)
Definition DECIMAL_ZEROS : list Z := [
  48; 1632; 1776; 1984; 2406; 2534; 2662; 2790; 2918; 3046; 3174; 3302; 3430;
  3558; 3664; 3792; 3872; 4160; 4240; 6112; 6160; 6470; 6608; 6784; 6800; 6992;
  7088; 7232; 7248; 42528; 43216; 43264; 43472; 43504; 43600; 44016; 65296;
  66720; 68912; 69734; 69872; 69942; 70096; 70384; 70736; 70864; 71248; 71360;
  71472; 71904; 72016; 72784; 73040; 73120; 92768; 92864; 93008; 120782;
  120792; 120802; 120812; 120822; 123200; 123632; 125264; 130032]%Z.

Definition decimal_value (c : Z) : option Z :=
  match find (fun z => in_range z (z + 9) c) DECIMAL_ZEROS with
  | Some z => Some (c - z)%Z
  | None => None
  end.

(** Digits, with single underscores between digits. *)
Fixpoint digits_go (acc : Z) (after_underscore : bool) (s : pystr) : option Z :=
  match s with
  | [] => if after_underscore then None else Some acc
  | c :: r =>
      match decimal_value c with
      | Some d => digits_go (acc * 10 + d)%Z false r
      | None => if (c =? 95)%Z && negb after_underscore then digits_go acc true r else None
      end
  end.

Definition parse_digits (s : pystr) : option Z :=
  match s with
  | c :: r => match decimal_value c with Some d => digits_go d false r | None => None end
  | [] => None
  end.

(** [int(s)] for a [str] in base 10; [None] where it raises [ValueError]. *)
Definition py_int (s : pystr) : option Z :=
  match py_strip s with
  | c :: r =>
      if (c =? 43)%Z then parse_digits r
      else if (c =? 45)%Z then option_map Z.opp (parse_digits r)
      else parse_digits (c :: r)
  | [] => None
  end.

Definition mapping_format_message : string :=
  "Invalid character mapping format. Use `Name = SpeakerNumber` per line."%string.

(** The body of the loop of [_parse_character_mapping] over the lines. *)
Fixpoint parse_mapping_lines (lines : list pystr) : Result (list CharacterMapping.t) :=
  match lines with
  | [] => Ok []
  | line :: rest =>
      if negb (nonblank line) then parse_mapping_lines rest
      else if negb (mem 61 line) then Err (GrError mapping_format_message)
      else
        (* [name, number = line.split("=", 1)] *)
        let name := take_while (fun c => negb (c =? 61)%Z) line in
        let number := tl (drop_while (fun c => negb (c =? 61)%Z) line) in
        match py_int (py_strip number) with
        | None => Err (ValueError (py_strip number))
        | Some n =>
            match parse_mapping_lines rest with
            | Ok l => Ok (CharacterMapping.mk (py_strip name) n :: l)
            | Err e => Err e
            end
        end
  end.

Definition _parse_character_mapping (raw : pystr) : Result (list CharacterMapping.t) :=
  parse_mapping_lines (splitlines raw).

Definition parse_speaker_mode (s : pystr) : Result SpeakerMode :=
  if pystr_eqb s (of_ascii "none") then Ok NONE
  else if pystr_eqb s (of_ascii "format") then Ok FORMAT
  else if pystr_eqb s (of_ascii "intelligent") then Ok INTELLIGENT
  else Err (ValueError s).

Definition parse_label_format (s : pystr) : Result LabelFormat :=
  if pystr_eqb s (of_ascii "speaker") then Ok SPEAKER
  else if pystr_eqb s (of_ascii "bracket") then Ok BRACKET
  else Err (ValueError s).

Definition parse_narrator_attribution (s : pystr) : Result NarratorAttribution :=
  if pystr_eqb s (of_ascii "remove") then Ok REMOVE
  else if pystr_eqb s (of_ascii "verbatim") then Ok VERBATIM
  else if pystr_eqb s (of_ascii "contextual") then Ok CONTEXTUAL
  else Err (ValueError s).

Definition parse_model_source (s : pystr) : Result ModelSource :=
  if pystr_eqb s (of_ascii "api") then Ok API
  else if pystr_eqb s (of_ascii "ollama") then Ok OLLAMA
  else Err (ValueError s).

(** [x or None] for a [str] *)
Definition or_none (s : pystr) : option pystr :=
  match s with [] => None | _ => Some s end.

Definition _build_speaker_config (mode : pystr) (speaker_count : Z) (label_format : pystr)
  (include_narrator : bool) (narrator_attribution : pystr) (sample_size : Z)
  (narrator_name : pystr) (mapping_text : pystr) : Result (option SpeakerConfig.t) :=
  match parse_speaker_mode mode with
  | Err e => Err e
  | Ok NONE => Ok None
  | Ok selected_mode =>
      match parse_label_format label_format with
      | Err e => Err e
      | Ok lf =>
          match parse_narrator_attribution narrator_attribution with
          | Err e => Err e
          | Ok na =>
              let mk := SpeakerConfig.mk selected_mode speaker_count lf [] false sample_size
                          include_narrator na in
              if nonblank mapping_text then
                match _parse_character_mapping mapping_text with
                | Err e => Err e
                | Ok m => Ok (Some (mk m (or_none narrator_name)))
                end
              else Ok (Some (mk [] (or_none narrator_name)))
          end
      end
  end.

Definition _build_processing_config (text : pystr) (options : CleaningOptions.t)
  (batch_size : Z) (model_source model_name ollama_model_name : pystr) (temperature : float)
  (llm_cleaning_disabled : bool) (custom_instructions : pystr) (single_pass : bool)
  (extended_examples : bool) (speaker_config : option SpeakerConfig.t)
  : Result ProcessingConfig.t :=
  if negb (nonblank text) then Err (GrError "Please provide text to process"%string)
  else
    match parse_model_source model_source with
    | Err e => Err e
    | Ok src =>
        Ok (ProcessingConfig.mk batch_size options speaker_config src model_name
              (or_none ollama_model_name) temperature llm_cleaning_disabled
              (or_none custom_instructions) single_pass extended_examples)
    end.

(** [run_processing], up to the formatting of the summary it returns; the
    seven cleaning toggles come already gathered by [_build_cleaning_options]. *)
Definition run_processing (service : nat -> ProcessOptions.t -> ChunkOutcome)
  (text : pystr) (options : CleaningOptions.t) (batch_size : Z)
  (model_source model_name ollama_model_name : pystr) (temperature : float)
  (llm_cleaning_disabled : bool) (custom_instructions : pystr) (single_pass : bool)
  (extended_examples : bool) (speaker_mode : pystr) (speaker_count : Z)
  (label_format : pystr) (include_narrator : bool) (narrator_attribution : pystr)
  (sample_size : Z) (narrator_name mapping_text : pystr) : Result ProcessingSummary.t :=
  match _build_speaker_config speaker_mode speaker_count label_format include_narrator
          narrator_attribution sample_size narrator_name mapping_text with
  | Err e => Err e
  | Ok speaker_config =>
      match _build_processing_config text options batch_size model_source model_name
              ollama_model_name temperature llm_cleaning_disabled custom_instructions
              single_pass extended_examples speaker_config with
      | Err e => Err e
      | Ok config => Ok (fst (process_text service config (W := unit) None text tt))
      end
  end.

(** [run_deterministic], up to the formatting of the summary. *)
Definition run_deterministic (uword : Z -> bool) (lexicon : pystr -> bool)
  (text : pystr) (options : CleaningOptions.t) : Result ProcessingSummary.t :=
  if negb (nonblank text) then Err (GrError "Please provide text to clean"%string)
  else Ok (deterministic_clean uword lexicon text options).

(** ** Generation backends and the API token *)

(** Python's [min(a, b)] and [max(a, b)] on two floats: the first argument
    is kept unless the second compares below (above) it. *)
Definition py_min (a b : float) : float := if (b <? a)%float then b else a.
Definition py_max (a b : float) : float := if (a <? b)%float then b else a.

Module HFRequest.
(** The arguments of [self._client.text_generation(...)]. *)
Record t := mk {
  model : pystr;
  prompt : pystr;
  max_new_tokens : Z;
  temperature : float;
  top_p : float;
  repetition_penalty : float;
  return_full_text : bool
}.
End HFRequest.

(** What [text_generation] gives back: a [str], another object (by its
    [str()]), or an exception (type name, message). *)
Inductive HFResponse :=
| HFText (s : pystr)
| HFObject (repr : pystr)
| HFRaise (exc_type exc_message : string).

(** [LLMService._generate_with_hf]: [client] is [self._client], as the call
    of its [text_generation]; the request it received, if any, is returned
    beside the outcome.  [top_p = 0.95] and [repetition_penalty = 1.05] are
    their binary64 values. *)
Definition _generate_with_hf (client : option (HFRequest.t -> HFResponse))
  (prompt model_name : pystr) (temperature : float) : option HFRequest.t * GenOutcome :=
  match client with
  | None => (None, GenRaise "RuntimeError"%string "HuggingFace client not configured"%string)
  | Some text_generation =>
      let request := HFRequest.mk model_name prompt 512
                       (py_max 0%float (py_min temperature 1.5%float))
                       0x1.e666666666666p-1%float 0x1.0cccccccccccdp+0%float false in
      match text_generation request with
      | HFRaise k m => (Some request, GenRaise k m)
      | HFText response =>
          let text := py_strip response in
          (Some request, GenOk text (Usage.mk (estimate_tokens prompt) (estimate_tokens text)
                                       0%float 0%float))
      | HFObject repr =>
          (Some request, GenOk repr (Usage.mk (estimate_tokens prompt) (estimate_tokens repr)
                                       0%float 0%float))
      end
  end.

(** [s or None] for an optional [str]. *)
Definition truthy_str (o : option pystr) : option pystr :=
  match o with Some (_ :: _) => o | _ => None end.

(** [s.rstrip(ch)] for one character. *)
Definition py_rstrip_char (ch : Z) (s : pystr) : pystr :=
  rev (drop_while (fun c => (c =? ch)%Z) (rev s)).

Module OllamaRequest.
(** The URL and the JSON payload of the first [requests.post] of
    [_generate_with_ollama]. *)
Record t := mk {
  url : pystr;
  model : pystr;
  prompt : pystr;
  stream : bool;
  keep_alive : pystr;
  temperature : float;
  num_predict : Z;
  num_ctx : Z
}.
End OllamaRequest.

(** The request [LLMService._generate_with_ollama] posts to [/api/generate]
    (its lines before the HTTP call), given the environment variables
    [OLLAMA_BASE_URL] and [OLLAMA_MODEL] ([None] when unset).  The
    [options.temperature is not None] test always holds: the temperature
    of a [ProcessOptions] is a float. *)
Definition ollama_generate_request (OLLAMA_BASE_URL OLLAMA_MODEL : option pystr)
  (prompt : pystr) (options : ProcessOptions.t) : OllamaRequest.t :=
  let base_url := py_rstrip_char 47
        (match OLLAMA_BASE_URL with Some u => u | None => of_ascii "http://localhost:11434" end) in
  let model :=
    match truthy_str (ProcessOptions.ollama_model_name options) with
    | Some m => m
    | None =>
        match truthy_str (Some (match OLLAMA_MODEL with
                                | Some m => m
                                | None => of_ascii "llama3.1:8b" end)) with
        | Some m => m
        | None => ProcessOptions.model_name options
        end
    end in
  let temperature := py_max 0%float (py_min (ProcessOptions.temperature options) 2%float) in
  OllamaRequest.mk (base_url ++ of_ascii "/api/generate") model prompt false (of_ascii "15m")
    temperature 2000 8192.

Module Env.
(** The two environment variables the token handling reads. *)
Record t := mk { HUGGINGFACE_API_TOKEN : option pystr; HF_TOKEN : option pystr }.
End Env.

Module LLMState.
(** The process environment with [self._token] and [self._client] of the
    [LLMService]; the client is given by the token it was built with. *)
Record t := mk { env : Env.t; token : option pystr; client : option pystr }.
End LLMState.

Definition opt_pystr_eqb (a b : option pystr) : bool :=
  match a, b with
  | Some x, Some y => pystr_eqb x y
  | None, None => true
  | _, _ => false
  end.

(** [os.getenv("HUGGINGFACE_API_TOKEN") or os.getenv("HF_TOKEN") or None] *)
Definition env_token (e : Env.t) : option pystr :=
  match truthy_str (Env.HUGGINGFACE_API_TOKEN e) with
  | Some t => Some t
  | None => truthy_str (Env.HF_TOKEN e)
  end.

(** [LLMService._update_client_from_env] *)
Definition _update_client_from_env (st : LLMState.t) : LLMState.t :=
  let token := env_token (LLMState.env st) in
  if negb (opt_pystr_eqb token (LLMState.token st)) then
    LLMState.mk (LLMState.env st) token (truthy_str token)
  else st.

(** [LLMService.__init__] in the environment [e]. *)
Definition llm_service_init (e : Env.t) : LLMState.t :=
  _update_client_from_env (LLMState.mk e None None).

(** [LLMService.set_api_token]: a truthy token is written to
    [HUGGINGFACE_API_TOKEN], otherwise that variable is deleted. *)
Definition set_api_token (token : option pystr) (st : LLMState.t) : LLMState.t :=
  let e := LLMState.env st in
  let e' := match truthy_str token with
            | Some t => Env.mk (Some t) (Env.HF_TOKEN e)
            | None => Env.mk None (Env.HF_TOKEN e)
            end in
  _update_client_from_env (LLMState.mk e' (LLMState.token st) (LLMState.client st)).

(** [configure_token] of [app.py]: the new state and the status it returns. *)
Definition configure_token (token : pystr) (st : LLMState.t) : LLMState.t * string :=
  let st' := set_api_token (or_none (py_strip token)) st in
  (st', if nonblank token then "HuggingFace token configured"%string
        else "Token cleared"%string).

(** ** Concrete configurations and services *)

(** [ProcessingConfig()] with its defaults; the temperature 0.3 is the
    binary64 value 0x1.3333333333333p-2. *)
Definition default_config : ProcessingConfig.t :=
  ProcessingConfig.mk 10 CleaningOptions.default None API
    (of_ascii "meta-llama/Meta-Llama-3.1-8B-Instruct") None 0x1.3333333333333p-2%float false None false false.

(** The [LLMService] as the service of a [TextProcessor]. *)
Definition llm_service (uword : Z -> bool) (lexicon : pystr -> bool) (client_configured : bool)
  (generate : ProcessOptions.t -> Prompt -> GenOutcome) : nat -> ProcessOptions.t -> ChunkOutcome :=
  fun _ options => snd (process_chunk uword lexicon client_configured generate options).

(** A generation backend whose answer is blank. *)
Definition blank_generation : ProcessOptions.t -> Prompt -> GenOutcome :=
  fun _ _ => GenOk [] (Usage.mk 12 0 0%float 0%float).

Definition prompt_text (p : Prompt) : pystr :=
  match p with CleaningPrompt t _ _ => t | SpeakerPrompt t _ _ _ => t end.

(** A generation backend that answers with the text it was given. *)
Definition echo_generation : ProcessOptions.t -> Prompt -> GenOutcome :=
  fun _ p => GenOk (prompt_text p) (Usage.mk 10 5 0%float 0%float).

(** A service whose every call raises. *)
Definition raising_service : nat -> ProcessOptions.t -> ChunkOutcome :=
  fun _ _ => Raise "RuntimeError"%string "Failed to reach Ollama"%string.

(** [CleaningOptions] with every toggle off but [fix_hyphenation]. *)
Definition only_fix_hyphenation : CleaningOptions.t :=
  CleaningOptions.mk false false false false false false true.

Definition all_off : CleaningOptions.t :=
  CleaningOptions.mk false false false false false false false.

Definition without_footnotes (o : CleaningOptions.t) : CleaningOptions.t :=
  CleaningOptions.mk (CleaningOptions.replace_smart_quotes o) (CleaningOptions.fix_ocr_errors o)
    (CleaningOptions.correct_spelling o) (CleaningOptions.remove_urls o) false
    (CleaningOptions.add_punctuation o) (CleaningOptions.fix_hyphenation o).

(** ** Vocabulary of the properties *)

(** The two sides of [line.split("=", 1)], stripped, as
    [_parse_character_mapping] reads them. *)
Definition mapping_name (line : pystr) : pystr :=
  py_strip (take_while (fun c => negb (c =? 61)%Z) line).

Definition mapping_number (line : pystr) : pystr :=
  py_strip (tl (drop_while (fun c => negb (c =? 61)%Z) line)).

(** A line [_parse_character_mapping] accepts: blank, or [Name = Number]. *)
Definition mapping_line_ok (line : pystr) : Prop :=
  nonblank line = false \/ (mem 61 line = true /\ py_int (mapping_number line) <> None).

(** Matchers that ignore the code point before the position. *)
Definition prev_free (m : matcher) : Prop := forall p q s, m p s = m q s.

(** Matchers whose replacement is shorter than the match. *)
Definition shrinking (m : matcher) : Prop :=
  forall p s n rep, m p s = Some (n, rep) -> (length rep < n)%nat /\ (n <= length s)%nat.

(** The text has a match of [BRACKET_REFERENCE_RE] or of [PAREN_FOOTNOTE_RE]
    at some position. *)
Definition has_reference (s : pystr) : Prop :=
  exists pre post, s = pre ++ post
  /\ (m_reference 91 93 None post <> None \/ m_reference 40 41 None post <> None).

(** No code point satisfying [p] is directly followed by one satisfying [q]. *)
Fixpoint no_pair (p q : Z -> bool) (s : pystr) : Prop :=
  match s with
  | [] => True
  | a :: r => (p a && head_test q r) = false /\ no_pair p q r
  end.

(** No run of three newlines. *)
Fixpoint no_newline3 (s : pystr) : Prop :=
  match s with
  | [] => True
  | a :: r => (is_nl a && head_test is_nl r && head_test is_nl (tl r)) = false /\ no_newline3 r
  end.

(** [URL_RE] finds no match in the text, scanning from the position after [prev]. *)
Fixpoint url_free (uword : Z -> bool) (prev : option Z) (s : pystr) : bool :=
  match s with
  | [] => true
  | c :: r =>
      match m_url uword prev s with
      | Some _ => false
      | None => url_free uword (Some c) r
      end
  end.

(** Python's [\w] matches no whitespace code point. *)
Definition space_not_word (uword : Z -> bool) : Prop :=
  forall c, is_py_space c = true -> uword c = false.

(** Options under which neither hyphenation repair, OCR repair nor footnote
    removal runs. *)
Definition no_rewriting_steps (o : CleaningOptions.t) (phase : string) : Prop :=
  CleaningOptions.fix_hyphenation o = false
  /\ CleaningOptions.fix_ocr_errors o = false
  /\ (CleaningOptions.remove_footnotes o && String.eqb phase "pre") = false.

(** [s'] comes from [s] by replacing runs of whitespace with non-empty runs of
    whitespace and by dropping trailing whitespace. *)
Inductive wsrel : pystr -> pystr -> Prop :=
| wsrel_nil : wsrel [] []
| wsrel_cons c s s' : wsrel s s' -> wsrel (c :: s) (c :: s')
| wsrel_block m r s s' :
    m <> [] -> r <> [] -> forallb is_py_space m = true -> forallb is_py_space r = true ->
    wsrel s s' -> wsrel (m ++ s) (r ++ s')
| wsrel_tail m : forallb is_py_space m = true -> wsrel m [].

(** A code point neither of [SMART_PUNCTUATION_RE] nor a no-break space. *)
Definition plain (x : Z) : Prop := smart_replacement x = None /\ x <> 160%Z.

(** [l1] is a subsequence of [l2]. *)
Inductive subseq {A : Type} : list A -> list A -> Prop :=
| subseq_nil : subseq [] []
| subseq_keep x l1 l2 : subseq l1 l2 -> subseq (x :: l1) (x :: l2)
| subseq_skip x l1 l2 : subseq l1 l2 -> subseq l1 (x :: l2).

Definition step_if (enabled : bool) (name : string) : list string :=
  if enabled then [name] else [].

(** The steps [apply_deterministic_cleaning] may record under these options,
    in the order of the pipeline. *)
Definition enabled_steps (o : CleaningOptions.t) (phase : string) : list string :=
  step_if (CleaningOptions.replace_smart_quotes o) "replaceSmartQuotes"
  ++ step_if (CleaningOptions.remove_urls o) "removeUrls"
  ++ step_if (CleaningOptions.remove_footnotes o && String.eqb phase "pre") "removeFootnotes"
  ++ step_if (CleaningOptions.fix_hyphenation o) "fixHyphenation"
  ++ step_if (CleaningOptions.fix_ocr_errors o) "splitCamelCase"
  ++ step_if (CleaningOptions.fix_ocr_errors o) "splitMergedWords".

(** The text with its spaces (U+0020) taken out. *)
Definition remove_spaces (s : pystr) : pystr := filter (fun c => negb (c =? 32)%Z) s.

(** Substitutions whose replacement is never longer than the match. *)
Definition nongrowing (m : matcher) : Prop :=
  forall p s n rep, m p s = Some (n, rep) -> (length rep <= n)%nat /\ (n <= length s)%nat.

(** The number of [process_chunk] calls [process_text] makes. *)
Definition service_calls (service : nat -> ProcessOptions.t -> ChunkOutcome)
  (config : ProcessingConfig.t) (text : pystr) : nat :=
  Acc.calls (fst (chunks_loop service config (W := unit) None 0
    (split_into_chunks text (ProcessingConfig.batch_size config)) Acc.init tt)).

(** The log of [process_text] when every call raises [k: m]: two error lines
    and the fallback line for each of the [n] chunks. *)
Definition raise_logs (k m : string) (n : nat) : list LogLine :=
  flat_map (fun i => let c := Z.of_nat i in [ChunkError c k m; ChunkError c k m; ChunkFallback c])
    (seq 1 n).

(** The client of the service is the one built from its recorded token. *)
Definition client_matches_token (st : LLMState.t) : Prop :=
  LLMState.client st = truthy_str (LLMState.token st).

(** [parts] is a split of [original] into lexicon words of three letters
    or more, at least two of them. *)
Definition split_ok (lexicon : pystr -> bool) (original : pystr) (parts : list pystr) : Prop :=
  concat parts = original
  /\ Forall (fun p => lexicon (py_lower p) = true /\ (3 <= length p)%nat) parts
  /\ (2 <= length parts)%nat.

(** * Properties *)

(** ** Orchestration: [process_text] and its chunk loop *)

Lemma chunks_loop_summary_independent :
  forall service config W (on_progress : option (W -> ProcessingProgress.t -> W))
    idx chunks a w,
  fst (chunks_loop service config on_progress idx chunks a w)
  = fst (chunks_loop service config (W := unit) None idx chunks a tt).
Proof.
  intros service config W on_progress idx chunks.
  revert idx; induction chunks as [|chunk rest IH]; intros idx a w; simpl.
  - reflexivity.
  - apply IH.
Qed.

(** C7: the progress callback only threads its own state: the summary
    [process_text] returns is the one it returns without a callback. *)
Theorem progress_callback_observational :
  forall service config text W (on_progress : option (W -> ProcessingProgress.t -> W)) w,
  fst (process_text service config on_progress text w)
  = fst (process_text service config (W := unit) None text tt).
Proof.
  intros service config text W on_progress w.
  unfold process_text.
  pose proof (chunks_loop_summary_independent service config W on_progress 0
    (split_into_chunks text (ProcessingConfig.batch_size config)) Acc.init w) as H.
  destruct (chunks_loop service config on_progress 0 _ Acc.init w) as [a w'] eqn:E1.
  destruct (chunks_loop service config None 0 _ Acc.init tt) as [a' u] eqn:E2.
  simpl in H |- *. subst a'. reflexivity.
Qed.

(** C10: when the first attempt on a chunk returns a result that fails
    validation, the chunk is retried and the running totals keep the first
    result: its tokens, its cost and its applied steps come before those of
    the second attempt (if that one returns). *)
Theorem failed_attempt_usage_kept :
  forall service config idx chunk a r1,
  service (Acc.calls a) (chunk_options config chunk) = Return r1 ->
  validate_output chunk (ProcessChunkResult.text r1) = false ->
  let a' := Attempt.acc (run_chunk service config idx chunk a) in
  let second := service (S (Acc.calls a)) (chunk_options config chunk) in
  Acc.total_input_tokens a'
  = (Acc.total_input_tokens a + ProcessChunkResult.input_tokens r1
     + match second with Return r2 => ProcessChunkResult.input_tokens r2 | Raise _ _ => 0 end)%Z
  /\ Acc.total_output_tokens a'
  = (Acc.total_output_tokens a + ProcessChunkResult.output_tokens r1
     + match second with Return r2 => ProcessChunkResult.output_tokens r2 | Raise _ _ => 0 end)%Z
  /\ Acc.total_cost a'
  = (let c1 := (Acc.total_cost a + (ProcessChunkResult.input_cost r1
                                    + ProcessChunkResult.output_cost r1))%float in
     match second with
     | Return r2 => (c1 + (ProcessChunkResult.input_cost r2 + ProcessChunkResult.output_cost r2))%float
     | Raise _ _ => c1
     end)
  /\ Acc.applied_steps a'
  = Acc.applied_steps a ++ ProcessChunkResult.applied_steps r1
    ++ match second with Return r2 => ProcessChunkResult.applied_steps r2 | Raise _ _ => [] end.
Proof.
  intros service config idx chunk a r1 H1 Hv a' second.
  subst a' second.
  unfold run_chunk, attempt_loop, attempt_step; simpl.
  rewrite H1; simpl. rewrite Hv; simpl.
  destruct (service (S (Acc.calls a)) (chunk_options config chunk)) as [k m|r2]; simpl.
  - repeat split; try lia; rewrite ?app_nil_r, ?app_assoc; reflexivity.
  - destruct (validate_output chunk (ProcessChunkResult.text r2)); simpl;
      repeat split; try lia; rewrite ?app_nil_r, ?app_assoc; reflexivity.
Qed.

(** C2: when both attempts on a chunk return output that fails validation,
    the chunk's text is the second (blank) output, not the original chunk,
    and no fallback line is logged; the fallback is reached only through
    exceptions. *)
Theorem validation_failures_do_not_fall_back :
  forall service config idx chunk a r1 r2,
  service (Acc.calls a) (chunk_options config chunk) = Return r1 ->
  validate_output chunk (ProcessChunkResult.text r1) = false ->
  service (S (Acc.calls a)) (chunk_options config chunk) = Return r2 ->
  validate_output chunk (ProcessChunkResult.text r2) = false ->
  let st := run_chunk service config idx chunk a in
  Attempt.processed_chunk st = ProcessChunkResult.text r2
  /\ py_strip (Attempt.processed_chunk st) = []
  /\ Acc.logs (Attempt.acc st) = Acc.logs a
  /\ (nonblank chunk = true -> Attempt.processed_chunk st <> chunk).
Proof.
  intros service config idx chunk a r1 r2 H1 Hv1 H2 Hv2 st. subst st.
  assert (Hs : py_strip (ProcessChunkResult.text r2) = []).
  { unfold validate_output in Hv2.
    destruct (py_strip (ProcessChunkResult.text r2)); [reflexivity|].
    destruct (pystr_eqb _ _); discriminate. }
  unfold run_chunk, attempt_loop, attempt_step; simpl.
  rewrite H1; simpl. rewrite Hv1; simpl. rewrite H2; simpl. rewrite ?Hv2; simpl.
  split; [reflexivity|]. split; [exact Hs|]. split; [reflexivity|].
  intros Hn Heq. unfold nonblank in Hn. rewrite <- Heq, Hs in Hn. discriminate.
Qed.

(** C6 (counterexample): [process_text] on the empty text completes and
    returns a summary, with no chunk. *)
Lemma empty_text_summary_counterexample :
  fst (process_text raising_service default_config (W := unit) None [] tt)
  = ProcessingSummary.mk [] 0 0 0 0%float [] [].
Proof. vm_compute. reflexivity. Qed.

(** C6: blank input is rejected by the entry points of [app.py], before
    any chunking: [run_processing] raises "Please provide text to process"
    (after the speaker settings, which it reads first, are accepted) and
    [run_deterministic] raises "Please provide text to clean".
    [process_text] itself does not reject the empty text: it returns an
    empty summary. *)
Theorem blank_text_rejected_at_entry :
  (forall service config W (on_progress : option (W -> ProcessingProgress.t -> W)) w,
     process_text service config on_progress [] w
     = (ProcessingSummary.mk [] 0 0 0 0%float [] [], w))
  /\ (forall service text options batch_size model_source model_name ollama_model_name
        temperature llm_cleaning_disabled custom_instructions single_pass extended_examples
        speaker_mode speaker_count label_format include_narrator narrator_attribution
        sample_size narrator_name mapping_text,
      nonblank text = false ->
      run_processing service text options batch_size model_source model_name
        ollama_model_name temperature llm_cleaning_disabled custom_instructions single_pass
        extended_examples speaker_mode speaker_count label_format include_narrator
        narrator_attribution sample_size narrator_name mapping_text
      = match _build_speaker_config speaker_mode speaker_count label_format include_narrator
                narrator_attribution sample_size narrator_name mapping_text with
        | Err e => Err e
        | Ok _ => Err (GrError "Please provide text to process"%string)
        end)
  /\ (forall uword lexicon text options,
      nonblank text = false ->
      run_deterministic uword lexicon text options
      = Err (GrError "Please provide text to clean"%string)).
Proof.
  split; [|split].
  - intros. reflexivity.
  - intros. unfold run_processing.
    destruct (_build_speaker_config _ _ _ _ _ _ _ _); [|reflexivity].
    unfold _build_processing_config. rewrite H. reflexivity.
  - intros. unfold run_deterministic. rewrite H. reflexivity.
Qed.

(** ** Token estimate *)

(** C5 (counterexample): the empty string is estimated at 0 tokens, not at
    [max(1, 0 / 4) = 1]. *)
Lemma estimate_tokens_empty_counterexample :
  estimate_tokens [] = 0%Z /\ Z.max 1 (Z.of_nat (length (py_strip [])) / 4) = 1%Z.
Proof. split; reflexivity. Qed.

(** C5: the estimate is 0 for the empty string and
    [max(1, len(s.strip()) // 4)] for every other string (a string of
    whitespace only included). *)
Theorem estimate_tokens_spec :
  forall s,
  (s = [] /\ estimate_tokens s = 0%Z)
  \/ (s <> [] /\ estimate_tokens s = Z.max 1 (Z.of_nat (length (py_strip s)) / 4)).
Proof.
  intros [|c r].
  - left; split; reflexivity.
  - right; split; [discriminate|reflexivity].
Qed.

(** ** [process_chunk] and the cleaning flag *)

(** C3: with [llm_cleaning_disabled] set and no active speaker settings,
    [process_chunk] still sends the cleaning prompt, built from the raw
    chunk, to the generation client, and when that call answers it records
    the ["llmCleaning"] step: the flag only skips the deterministic
    pre-cleaning. *)
Theorem cleaning_disabled_still_generates :
  forall uword lexicon client_configured generate options,
  ProcessOptions.llm_cleaning_disabled options = true ->
  speaker_active (ProcessOptions.speaker_config options) = None ->
  (ProcessOptions.model_source options = OLLAMA \/ client_configured = true) ->
  let prompt := CleaningPrompt (ProcessOptions.text options)
                  (ProcessOptions.cleaning_options options)
                  (ProcessOptions.custom_instructions options) in
  fst (process_chunk uword lexicon client_configured generate options) = [prompt]
  /\ (forall generated usage, generate options prompt = GenOk generated usage ->
      exists result,
        snd (process_chunk uword lexicon client_configured generate options) = Return result
        /\ In "llmCleaning"%string (ProcessChunkResult.applied_steps result)).
Proof.
  intros uword lexicon client_configured generate options Hd Hs Hc prompt.
  assert (Hm : match ProcessOptions.model_source options, client_configured with
               | API, false => False | _, _ => True end).
  { destruct Hc as [E|E]; rewrite E; [trivial|].
    destruct (ProcessOptions.model_source options); trivial. }
  unfold process_chunk. rewrite Hd, Hs. simpl.
  destruct (ProcessOptions.model_source options), client_configured;
    try contradiction; fold prompt;
    (split;
     [ destruct (generate options prompt); reflexivity
     | intros g u Hg; rewrite Hg; eexists; split; [reflexivity|];
       unfold finish_chunk; simpl; left; reflexivity ]).
Qed.

(** ** Character mapping *)

(** C9 (counterexample): a line without ['='] raises the same fixed
    message whatever the line is, so the error cannot name it. *)
Lemma mapping_error_does_not_name_line_counterexample :
  _parse_character_mapping (of_ascii "Alice") = Err (GrError mapping_format_message)
  /\ _parse_character_mapping (of_ascii "Bob") = Err (GrError mapping_format_message).
Proof. split; vm_compute; reflexivity. Qed.

Lemma parse_mapping_lines_error :
  forall pre line post,
  Forall mapping_line_ok pre -> nonblank line = true ->
  (mem 61 line = false ->
   parse_mapping_lines (pre ++ line :: post) = Err (GrError mapping_format_message))
  /\ (mem 61 line = true -> py_int (mapping_number line) = None ->
      parse_mapping_lines (pre ++ line :: post) = Err (ValueError (mapping_number line))).
Proof.
  induction pre as [|l pre IH]; intros line post Hpre Hn; simpl.
  - rewrite Hn; simpl. split.
    + intros Hm; rewrite Hm; reflexivity.
    + intros Hm Hi; rewrite Hm; simpl. unfold mapping_number in Hi. rewrite Hi. reflexivity.
  - inversion Hpre as [|? ? Hl Hpre']; subst.
    destruct (IH line post Hpre' Hn) as [IH1 IH2].
    destruct Hl as [Hb|[Hm Hi]].
    + rewrite Hb; simpl. split; assumption.
    + destruct (nonblank l); simpl.
      * rewrite Hm; simpl. unfold mapping_number in Hi.
        destruct (py_int _) as [n|]; [|contradiction].
        split; intros; [rewrite IH1 | rewrite IH2]; auto.
      * split; assumption.
Qed.

Lemma parse_mapping_lines_ok :
  forall lines,
  Forall mapping_line_ok lines ->
  exists ms, parse_mapping_lines lines = Ok ms
  /\ Forall2 (fun line m => CharacterMapping.name m = mapping_name line
                            /\ py_int (mapping_number line) = Some (CharacterMapping.speaker_number m))
       (filter nonblank lines) ms.
Proof.
  induction lines as [|l lines IH]; intros H; simpl.
  - exists []; split; constructor.
  - inversion H as [|? ? Hl H']; subst.
    destruct (IH H') as [ms [E F]].
    destruct Hl as [Hb|[Hm Hi]].
    + rewrite Hb; simpl. exists ms; split; assumption.
    + destruct (nonblank l) eqn:Hn; simpl.
      * rewrite Hm; simpl. unfold mapping_number in Hi.
        destruct (py_int _) as [n|] eqn:En; [|contradiction].
        rewrite E. eexists; split; [reflexivity|].
        constructor; [|exact F]. simpl. split; [reflexivity|exact En].
      * exists ms; split; assumption.
Qed.

(** C9: [_parse_character_mapping] skips blank lines and reads the others
    in order.  The first non-blank line without ['='] raises [gr.Error]
    with a fixed message, which does not name the line; a line whose number
    part is not an integer lets the bare [ValueError] of [int()] on that
    number part escape, not a [gr.Error]; when every line is blank or
    [Name = Number], each non-blank line yields one mapping, with the
    stripped name and the integer. *)
Theorem character_mapping_parse :
  forall raw,
  (forall pre line post,
     splitlines raw = pre ++ line :: post ->
     Forall mapping_line_ok pre -> nonblank line = true ->
     (mem 61 line = false -> _parse_character_mapping raw = Err (GrError mapping_format_message))
     /\ (mem 61 line = true -> py_int (mapping_number line) = None ->
         _parse_character_mapping raw = Err (ValueError (mapping_number line))))
  /\ (Forall mapping_line_ok (splitlines raw) ->
      exists ms, _parse_character_mapping raw = Ok ms
      /\ Forall2 (fun line m => CharacterMapping.name m = mapping_name line
                   /\ py_int (mapping_number line) = Some (CharacterMapping.speaker_number m))
           (filter nonblank (splitlines raw)) ms).
Proof.
  intros raw; split.
  - intros pre line post E Hpre Hn. unfold _parse_character_mapping. rewrite E.
    apply parse_mapping_lines_error; assumption.
  - intros H. unfold _parse_character_mapping. apply parse_mapping_lines_ok; assumption.
Qed.

(** ** Deterministic cleaning: counterexamples *)

(** C1 (counterexample): with only [fix_hyphenation] on, ["a \nb"] cleans to
    ["a\nb"] with no step applied, and cleaning that output again joins the
    lines and records ["fixHyphenation"]. *)
Lemma cleaning_not_idempotent_counterexample :
  apply_deterministic_cleaning latin1_word fallback_lexicon [97; 32; 10; 98]%Z
    only_fix_hyphenation "pre"
  = DeterministicCleaningResult.mk [97; 10; 98]%Z []
  /\ apply_deterministic_cleaning latin1_word fallback_lexicon [97; 10; 98]%Z
       only_fix_hyphenation "pre"
     = DeterministicCleaningResult.mk (of_ascii "a b") ["fixHyphenation"%string].
Proof. split; vm_compute; reflexivity. Qed.

(** C4 (counterexample): a non-empty text of whitespace only has no chunk. *)
Lemma whitespace_text_no_chunk_counterexample :
  split_into_chunks (of_ascii " ") 1 = [].
Proof. vm_compute. reflexivity. Qed.

(** ** Stripping *)

Lemma drop_while_in :
  forall p c s, In c s -> p c = false -> In c (drop_while p s).
Proof.
  intros p c s; induction s as [|d r IH]; simpl; intros Hin Hp; [contradiction|].
  destruct (p d) eqn:Hd.
  - destruct Hin as [<-|Hin]; [congruence|auto].
  - exact Hin.
Qed.

Lemma py_strip_in :
  forall c s, In c s -> is_py_space c = false -> In c (py_strip s).
Proof.
  intros c s Hin Hc. unfold py_strip, py_lstrip.
  apply in_rev. rewrite rev_involutive.
  apply drop_while_in; [|exact Hc].
  apply in_rev. rewrite rev_involutive.
  apply drop_while_in; assumption.
Qed.

Lemma nonblank_in :
  forall c s, In c s -> is_py_space c = false -> nonblank s = true.
Proof.
  intros c s Hin Hc. unfold nonblank.
  pose proof (py_strip_in c s Hin Hc) as H.
  destruct (py_strip s); [contradiction|reflexivity].
Qed.

(** ** Chunking *)

Lemma py_join_nonempty :
  forall sep parts p, In p parts -> p <> [] -> py_join sep parts <> [].
Proof.
  intros sep parts; induction parts as [|q ps IH]; intros p Hin Hp; [contradiction|].
  destruct Hin as [->|Hin].
  - destruct ps; simpl; [exact Hp|].
    intros E. apply app_eq_nil in E. tauto.
  - destruct ps as [|q' ps']; [contradiction|].
    simpl. intros E. apply app_eq_nil in E. destruct E as [_ E].
    apply app_eq_nil in E. destruct E as [_ E].
    apply (IH p Hin Hp). exact E.
Qed.

Lemma chunk_loop_groups :
  forall b sentences current,
  (1 <= b)%Z -> (Z.of_nat (length current) < b)%Z ->
  exists groups,
    chunk_loop b current sentences = map (py_join [32%Z]) groups
    /\ concat groups = current ++ sentences
    /\ Forall (fun g => Z.of_nat (length g) = b) (removelast groups)
    /\ (groups <> [] -> (1 <= length (last groups []))%nat
                        /\ (Z.of_nat (length (last groups [])) <= b)%Z)
    /\ Forall (fun g => g <> []) groups.
Proof.
  intros b sentences; induction sentences as [|s rest IH]; intros current Hb Hc; simpl.
  - destruct current as [|x xs].
    + exists []. simpl. split; [reflexivity|]. split; [reflexivity|].
      split; [constructor|]. split; [intros Hne; congruence|constructor].
    + exists [x :: xs]. simpl. rewrite app_nil_r.
      split; [reflexivity|]. split; [reflexivity|]. split; [constructor|].
      split; [intros _; simpl in Hc |- *; lia|].
      constructor; [discriminate|constructor].
  - rewrite length_app. simpl.
    destruct (b <=? Z.of_nat (length current + 1))%Z eqn:E.
    + apply Z.leb_le in E.
      destruct (IH [] Hb ltac:(simpl; lia)) as [gs [E1 [E2 [E3 [E4 E5]]]]].
      exists ((current ++ [s]) :: gs). rewrite E1.
      split; [reflexivity|].
      split; [simpl; rewrite E2, <- app_assoc; reflexivity|].
      assert (Hlen : Z.of_nat (length (current ++ [s])) = b)
        by (rewrite length_app; simpl; lia).
      split; [|split].
      * destruct gs as [|g gs']; simpl; [constructor|].
        constructor; [exact Hlen|]. exact E3.
      * intros _. destruct gs as [|g gs'].
        -- simpl. rewrite length_app; simpl. lia.
        -- apply E4. discriminate.
      * constructor; [|exact E5].
        intros H. apply app_eq_nil in H. destruct H as [_ H]; discriminate.
    + apply Z.leb_gt in E.
      destruct (IH (current ++ [s]) Hb ltac:(rewrite length_app; simpl; lia))
        as [gs [E1 [E2 [E3 [E4 E5]]]]].
      exists gs. rewrite E1, E2, <- app_assoc. simpl. tauto.
Qed.

Lemma sentence_matches_no_terminal :
  forall s cur,
  forallb (fun c => negb (is_terminal c)) s = true ->
  sentence_matches cur false s = match cur ++ s with [] => [] | l => [l] end.
Proof.
  induction s as [|c r IH]; intros cur H; simpl.
  - rewrite app_nil_r. destruct cur; reflexivity.
  - simpl in H. apply andb_true_iff in H. destruct H as [Hc Hr].
    destruct (is_terminal c); [discriminate|].
    rewrite IH by exact Hr. rewrite <- app_assoc. simpl.
    destruct cur; reflexivity.
Qed.

Lemma sentence_matches_cover :
  forall c s cur in_term,
  is_terminal c = false -> In c cur \/ In c s ->
  exists m, In m (sentence_matches cur in_term s) /\ In c m.
Proof.
  intros c s; induction s as [|d r IH]; intros cur in_term Hc Hin; simpl.
  - destruct Hin as [Hin|[]].
    destruct cur as [|x xs]; [contradiction|].
    exists (x :: xs). split; [left; reflexivity|exact Hin].
  - destruct (is_terminal d) eqn:Hd.
    + destruct cur as [|x xs].
      * apply IH; [exact Hc|]. right.
        destruct Hin as [[]|[->|Hin]]; [congruence|exact Hin].
      * apply IH; [exact Hc|].
        destruct Hin as [Hin|[->|Hin]].
        -- left. apply in_or_app; left; exact Hin.
        -- congruence.
        -- right; exact Hin.
    + destruct in_term.
      * destruct Hin as [Hin|[->|Hin]].
        -- exists cur. split; [left; reflexivity|exact Hin].
        -- destruct (IH [c] false Hc (or_introl (or_introl eq_refl))) as [m [Hm Hcm]].
           exists m. split; [right; exact Hm|exact Hcm].
        -- destruct (IH [d] false Hc (or_intror Hin)) as [m [Hm Hcm]].
           exists m. split; [right; exact Hm|exact Hcm].
      * apply IH; [exact Hc|].
        destruct Hin as [Hin|[->|Hin]].
        -- left. apply in_or_app; left; exact Hin.
        -- left. apply in_or_app; right; left; reflexivity.
        -- right; exact Hin.
Qed.

Lemma split_sentences_nonempty :
  forall text, Forall (fun s => s <> []) (split_sentences text).
Proof.
  intros text. unfold split_sentences.
  apply Forall_forall. intros s Hs.
  apply in_map_iff in Hs. destruct Hs as [x [<- Hx]].
  apply filter_In in Hx. destruct Hx as [_ Hx].
  unfold nonblank in Hx. destruct (py_strip x); [discriminate|discriminate].
Qed.

Lemma filter_nonempty_id :
  forall (l : list pystr), Forall (fun s => s <> []) l ->
  filter (fun chunk => match chunk with [] => false | _ => true end) l = l.
Proof.
  induction l as [|x l IH]; intros H; simpl; [reflexivity|].
  inversion H as [|? ? Hx Hl]; subst.
  destruct x; [contradiction|]. rewrite IH by exact Hl. reflexivity.
Qed.

Lemma sentence_matches_cur_kept :
  forall s x cur in_term, In x cur ->
  exists m, In m (sentence_matches cur in_term s) /\ In x m.
Proof.
  induction s as [|c r IH]; intros x cur in_term Hx; simpl.
  - destruct cur as [|y ys]; [contradiction|].
    exists (y :: ys). split; [left; reflexivity|exact Hx].
  - destruct (is_terminal c).
    + destruct cur as [|y ys]; [contradiction|].
      apply IH. apply in_or_app. left. exact Hx.
    + destruct in_term.
      * exists cur. split; [left; reflexivity|exact Hx].
      * apply IH. apply in_or_app. left. exact Hx.
Qed.

Lemma sentence_matches_pair :
  forall pre c d post cur in_term,
  is_terminal c = false -> is_terminal d = true ->
  exists m, In m (sentence_matches cur in_term (pre ++ c :: d :: post)) /\ In d m.
Proof.
  induction pre as [|e pre IH]; intros c d post cur in_term Hc Hd; simpl.
  - rewrite Hc. destruct in_term.
    + simpl. rewrite Hd.
      destruct (sentence_matches_cur_kept post d ([c] ++ [d]) true
                  ltac:(apply in_or_app; right; left; reflexivity)) as [m [Hm Hdm]].
      exists m. split; [right; exact Hm|exact Hdm].
    + simpl. rewrite Hd.
      destruct (cur ++ [c]) as [|y ys] eqn:E; [destruct cur; discriminate|].
      apply sentence_matches_cur_kept. apply in_or_app. right. left. reflexivity.
  - destruct (is_terminal e).
    + destruct cur; apply IH; assumption.
    + destruct in_term.
      * destruct (IH c d post [e] false Hc Hd) as [m [Hm Hdm]].
        exists m. split; [right; exact Hm|exact Hdm].
      * apply IH; assumption.
Qed.

Lemma sentence_matches_terminals :
  forall T s, forallb is_terminal T = true ->
  sentence_matches [] false (T ++ s) = sentence_matches [] false s.
Proof.
  induction T as [|c T IH]; intros s H; simpl; [reflexivity|].
  simpl in H. apply andb_true_iff in H. destruct H as [Hc HT].
  rewrite Hc. apply IH. exact HT.
Qed.

Lemma space_not_terminal : forall c, is_py_space c = true -> is_terminal c = false.
Proof.
  intros c H. unfold is_terminal, mem. simpl.
  destruct (Z.eqb_spec c 46); [subst; discriminate|].
  destruct (Z.eqb_spec c 33); [subst; discriminate|].
  destruct (Z.eqb_spec c 63); [subst; discriminate|].
  reflexivity.
Qed.

Lemma drop_while_all : forall p s, forallb p s = true -> drop_while p s = [].
Proof.
  intros p s; induction s as [|c r IH]; simpl; intros H; [reflexivity|].
  apply andb_true_iff in H. destruct H as [Hc Hr]. rewrite Hc. apply IH. exact Hr.
Qed.

Lemma py_strip_all_space : forall s, forallb is_py_space s = true -> py_strip s = [].
Proof.
  intros s H. unfold py_strip, py_lstrip. rewrite (drop_while_all _ s H). reflexivity.
Qed.

Lemma forallb_rev : forall (p : Z -> bool) s, forallb p (rev s) = forallb p s.
Proof.
  intros p s; induction s as [|c r IH]; simpl; [reflexivity|].
  rewrite forallb_app, IH. simpl. rewrite andb_true_r, andb_comm. reflexivity.
Qed.

Lemma drop_while_none : forall p s, forallb (fun c => negb (p c)) s = true -> drop_while p s = s.
Proof.
  intros p [|c r] H; simpl; [reflexivity|].
  simpl in H. apply andb_true_iff in H. destruct H as [Hc _].
  destruct (p c); [discriminate|reflexivity].
Qed.

Lemma py_strip_no_space :
  forall s, forallb (fun c => negb (is_py_space c)) s = true -> py_strip s = s.
Proof.
  intros s H. unfold py_strip, py_lstrip.
  rewrite (drop_while_none _ s H).
  rewrite (drop_while_none _ (rev s)) by (rewrite forallb_rev; exact H).
  apply rev_involutive.
Qed.

Lemma terminal_not_space : forall c, is_terminal c = true -> is_py_space c = false.
Proof.
  intros c H. destruct (is_py_space c) eqn:E; [|reflexivity].
  rewrite (space_not_terminal c E) in H. discriminate.
Qed.

Lemma chunk_loop_single : forall b x, chunk_loop b [] [x] = [x].
Proof. intros b x. simpl. destruct (b <=? 1)%Z; reflexivity. Qed.

Lemma split_into_chunks_terminals :
  forall text b, text <> [] -> forallb is_terminal text = true ->
  split_into_chunks text b = [text].
Proof.
  intros text b Hne H. unfold split_into_chunks, split_sentences.
  pose proof (sentence_matches_terminals text [] H) as E. rewrite app_nil_r in E.
  assert (Hns : forallb (fun c => negb (is_py_space c)) text = true).
  { apply forallb_forall. intros c Hc. rewrite forallb_forall in H.
    rewrite (terminal_not_space c (H c Hc)). reflexivity. }
  assert (Hnb : nonblank text = true).
  { unfold nonblank. rewrite (py_strip_no_space text Hns).
    destruct text; [contradiction|reflexivity]. }
  rewrite E. cbn [sentence_matches filter]. rewrite Hnb. cbn [map].
  rewrite (py_strip_no_space text Hns), chunk_loop_single.
  destruct text; [contradiction|reflexivity].
Qed.

Lemma split_sentences_pair :
  forall text pre c d post, text = pre ++ c :: d :: post ->
  is_terminal c = false -> is_terminal d = true ->
  split_sentences text <> [].
Proof.
  intros text pre c d post E Hc Hd.
  destruct (sentence_matches_pair pre c d post [] false Hc Hd) as [m [Hm Hdm]].
  rewrite <- E in Hm.
  assert (Hss : In (py_strip m) (split_sentences text)).
  { unfold split_sentences.
    destruct (sentence_matches [] false text) as [|m0 ms] eqn:Em; [contradiction|].
    apply in_map. apply filter_In. split; [exact Hm|].
    apply (nonblank_in d); [exact Hdm|apply terminal_not_space; exact Hd]. }
  intros Hnil. rewrite Hnil in Hss. exact Hss.
Qed.

Lemma split_sentences_blank_tail :
  forall T W, forallb is_terminal T = true -> forallb is_py_space W = true ->
  (T = [] \/ W <> []) -> split_sentences (T ++ W) = [].
Proof.
  intros T W HT HW Hor. unfold split_sentences.
  rewrite sentence_matches_terminals by exact HT.
  rewrite sentence_matches_no_terminal.
  2:{ apply forallb_forall. intros c Hc. rewrite forallb_forall in HW.
      rewrite (space_not_terminal c (HW c Hc)). reflexivity. }
  simpl. destruct W as [|w ws].
  - destruct Hor as [->|Hor]; [reflexivity|contradiction].
  - cbn [filter]. replace (nonblank (w :: ws)) with false by (unfold nonblank; rewrite (py_strip_all_space (w :: ws) HW); reflexivity). reflexivity.
Qed.

Lemma split_into_chunks_blank_tail :
  forall T W b, forallb is_terminal T = true -> forallb is_py_space W = true ->
  (T = [] \/ W <> []) -> split_into_chunks (T ++ W) b = [].
Proof.
  intros T W b HT HW Hor. unfold split_into_chunks.
  rewrite split_sentences_blank_tail by assumption. reflexivity.
Qed.

(** C4: for a batch size [b >= 1], the chunks are the sentences found by
    [split_sentences] (each non-empty), grouped in order and joined with
    single spaces: every group but the last has exactly [b] sentences and
    the last has from 1 to [b].  The list is non-empty as soon as the text
    has a code point that is neither whitespace nor ['.'], ['!'], ['?'], or
    a non-terminal code point right before a terminal one; a non-empty text
    of terminal punctuation only (["..."]) is one chunk, the text itself; a
    text of terminal punctuation followed by whitespace only, with some
    whitespace or no punctuation (["  "], [". "], [""]), has no chunk; and a
    non-blank text without terminal punctuation is one chunk: the stripped
    text. *)
Theorem split_into_chunks_spec :
  forall text b, (1 <= b)%Z ->
  (exists groups,
     concat groups = split_sentences text
     /\ split_into_chunks text b = map (py_join [32%Z]) groups
     /\ Forall (fun g => Z.of_nat (length g) = b) (removelast groups)
     /\ (groups <> [] -> (1 <= length (last groups []))%nat
                         /\ (Z.of_nat (length (last groups [])) <= b)%Z))
  /\ Forall (fun s => s <> []) (split_sentences text)
  /\ ((exists c, In c text /\ is_terminal c = false /\ is_py_space c = false) ->
      split_into_chunks text b <> [])
  /\ (nonblank text = true -> forallb (fun c => negb (is_terminal c)) text = true ->
      split_into_chunks text b = [py_strip text])
  /\ ((exists pre c d post, text = pre ++ c :: d :: post
                           /\ is_terminal c = false /\ is_terminal d = true) ->
      split_into_chunks text b <> [])
  /\ (text <> [] -> forallb is_terminal text = true -> split_into_chunks text b = [text])
  /\ (forall T W, text = T ++ W -> forallb is_terminal T = true ->
      forallb is_py_space W = true -> (T = [] \/ W <> []) -> split_into_chunks text b = []).
Proof.
  intros text b Hb.
  pose proof (split_sentences_nonempty text) as Hne.
  destruct (chunk_loop_groups b (split_sentences text) [] Hb ltac:(simpl; lia))
    as [gs [E1 [E2 [E3 [E4 E5]]]]].
  simpl in E2.
  assert (Hchunks : split_into_chunks text b = map (py_join [32%Z]) gs).
  { unfold split_into_chunks. rewrite E1. apply filter_nonempty_id.
    apply Forall_forall. intros j Hj. apply in_map_iff in Hj. destruct Hj as [g [<- Hg]].
    rewrite Forall_forall in E5. specialize (E5 g Hg).
    destruct g as [|x xs]; [contradiction|].
    apply (py_join_nonempty _ _ x); [left; reflexivity|].
    rewrite Forall_forall in Hne. apply Hne. rewrite <- E2.
    apply in_concat. exists (x :: xs). split; [exact Hg|left; reflexivity]. }
  split; [|split; [exact Hne|split]].
  - exists gs. exact (conj E2 (conj Hchunks (conj E3 E4))).
  - intros [c [Hin [Ht Hs]]]. rewrite Hchunks.
    destruct (sentence_matches_cover c text [] false Ht (or_intror Hin)) as [m [Hm Hcm]].
    assert (Hss : In (py_strip m) (split_sentences text)).
    { unfold split_sentences.
      destruct (sentence_matches [] false text) as [|m0 ms] eqn:Em; [contradiction|].
      apply in_map. apply filter_In. split; [exact Hm|].
      apply (nonblank_in c); assumption. }
    rewrite <- E2 in Hss. intros Hnil. apply map_eq_nil in Hnil. subst gs.
    exact Hss.
  - split; [|split; [|split]].
    + intros Hn Hnt. unfold split_into_chunks, split_sentences.
      rewrite sentence_matches_no_terminal by exact Hnt. simpl.
      assert (Hx : py_strip text <> []).
      { unfold nonblank in Hn. destruct (py_strip text); [discriminate|discriminate]. }
      destruct text as [|t ts]; [discriminate|].
      cbn [filter]. rewrite Hn. cbn [map].
      destruct (py_strip (t :: ts)) as [|x xs]; [contradiction|].
      simpl. destruct (b <=? 1)%Z; reflexivity.
    + intros [pre [c [d [post [E [Hc Hd]]]]]]. rewrite Hchunks.
      pose proof (split_sentences_pair text pre c d post E Hc Hd) as Hs.
      intros Hnil. apply map_eq_nil in Hnil. subst gs. simpl in E2. symmetry in E2.
      exact (Hs E2).
    + intros Hne0 Ht. apply split_into_chunks_terminals; assumption.
    + intros T W -> HT HW Hor. apply split_into_chunks_blank_tail; assumption.
Qed.

(** ** Scanning: lengths *)

Lemma sub_go_length_le :
  forall m, shrinking m ->
  forall s k p, (length (sub_go m k p s) <= length s - k)%nat.
Proof.
  intros m Hm s; induction s as [|c r IH]; intros k p; simpl; [lia|].
  destruct k as [|k].
  - destruct (m p (c :: r)) as [[[|n] rep]|] eqn:E; simpl.
    + specialize (IH 0%nat (Some c)). lia.
    + apply Hm in E. simpl in E. rewrite length_app.
      specialize (IH n (Some c)). lia.
    + specialize (IH 0%nat (Some c)). lia.
  - apply IH.
Qed.

Lemma sub_go_length_lt :
  forall m, shrinking m -> prev_free m ->
  forall s k p pre post,
  s = pre ++ post -> (k <= length pre)%nat -> m None post <> None ->
  (length (sub_go m k p s) < length s - k)%nat.
Proof.
  intros m Hm Hf s; induction s as [|c r IH]; intros k p pre post Es Hk Hpost.
  - destruct pre; [|discriminate]. simpl in Es. subst post.
    destruct (m None []) as [[n rep]|] eqn:E; [|contradiction].
    apply Hm in E. simpl in E. lia.
  - simpl.
    destruct pre as [|c' pre'].
    + simpl in Es, Hk. subst post. assert (k = 0%nat) by lia. subst k.
      rewrite (Hf p None).
      destruct (m None (c :: r)) as [[n rep]|] eqn:E; [|contradiction].
      pose proof (Hm _ _ _ _ E) as [H1 H2].
      destruct n as [|n]; [simpl in H1; lia|].
      rewrite length_app. pose proof (sub_go_length_le m Hm r n (Some c)).
      simpl in H2 |- *. lia.
    + simpl in Es. injection Es as <- Er. simpl in Hk.
      destruct k as [|k].
      * destruct (m p (c :: r)) as [[[|n] rep]|] eqn:E; simpl.
        -- specialize (IH 0%nat (Some c) pre' post Er ltac:(lia) Hpost). lia.
        -- pose proof (Hm _ _ _ _ E) as [H1 H2].
           rewrite length_app. pose proof (sub_go_length_le m Hm r n (Some c)).
           simpl in H2 |- *. lia.
        -- specialize (IH 0%nat (Some c) pre' post Er ltac:(lia) Hpost). lia.
      * specialize (IH k (Some c) pre' post Er ltac:(lia) Hpost). simpl. lia.
Qed.

Lemma sub_go_length_id :
  forall m, shrinking m ->
  forall s p, (length s <= length (sub_go m 0 p s))%nat -> sub_go m 0 p s = s.
Proof.
  intros m Hm s; induction s as [|c r IH]; intros p H; simpl in *; [reflexivity|].
  destruct (m p (c :: r)) as [[[|n] rep]|] eqn:E.
  - simpl in H. rewrite IH; [reflexivity|lia].
  - pose proof (Hm _ _ _ _ E) as [H1 H2].
    rewrite length_app in H. pose proof (sub_go_length_le m Hm r n (Some c)).
    simpl in H2. lia.
  - simpl in H. rewrite IH; [reflexivity|lia].
Qed.

Lemma take_drop_while_length :
  forall p s, (length (take_while p s) + length (drop_while p s))%nat = length s.
Proof.
  intros p s; induction s as [|c r IH]; simpl; [reflexivity|].
  destruct (p c); simpl; lia.
Qed.

Lemma m_reference_shrinking : forall op cl, shrinking (m_reference op cl).
Proof.
  intros op cl p s n rep E. unfold m_reference in E.
  destruct s as [|c r]; [discriminate|].
  destruct (c =? op)%Z; [|discriminate].
  pose proof (take_drop_while_length (fun x => negb (x =? cl)%Z) r) as HL.
  destruct (drop_while _ r) as [|d ds]; [discriminate|].
  destruct (ref_interior_ok _); [|discriminate].
  injection E as <- <-. simpl in HL |- *. lia.
Qed.

Lemma m_reference_prev_free : forall op cl, prev_free (m_reference op cl).
Proof. intros op cl p q s. reflexivity. Qed.

Lemma remove_references_changes :
  forall s, has_reference s -> _remove_references s <> s.
Proof.
  intros s [pre [post [Es Hm]]] Heq.
  pose proof (m_reference_shrinking 91 93) as Sb.
  pose proof (m_reference_shrinking 40 41) as Sp.
  pose proof (m_reference_prev_free 91 93) as Fb.
  pose proof (m_reference_prev_free 40 41) as Fp.
  unfold _remove_references, re_sub in Heq.
  set (b := sub_go (m_reference 91 93) 0 None s) in Heq.
  pose proof (sub_go_length_le _ Sp b 0 None) as L2.
  pose proof (sub_go_length_le _ Sb s 0 None) as L1. fold b in L1.
  rewrite Heq in L2.
  destruct Hm as [Hb|Hp].
  - pose proof (sub_go_length_lt _ Sb Fb s 0 None pre post Es ltac:(lia) Hb). fold b in H.
    lia.
  - assert (Eb : b = s) by (apply (sub_go_length_id _ Sb); fold b; lia).
    pose proof (sub_go_length_lt _ Sp Fp b 0 None pre post
      ltac:(rewrite Eb; exact Es) ltac:(lia) Hp) as H.
    rewrite Heq, Eb in H. lia.
Qed.

(** ** The cleaning steps and their record *)

Lemma cleaning_step_applied_extends :
  forall enabled name f st, exists l, snd (cleaning_step enabled name f st) = snd st ++ l.
Proof.
  intros enabled name f st. unfold cleaning_step.
  destruct enabled; [|exists []; rewrite app_nil_r; reflexivity].
  destruct (pystr_eqb _ _); [exists []; rewrite app_nil_r; reflexivity|].
  exists [name]; reflexivity.
Qed.

Lemma cleaning_step_applied_in :
  forall enabled name f st x,
  In x (snd (cleaning_step enabled name f st)) -> In x (snd st) \/ x = name.
Proof.
  intros enabled name f st x. unfold cleaning_step.
  destruct enabled; [|auto].
  destruct (pystr_eqb _ _); [auto|].
  simpl. intros H. apply in_app_or in H. destruct H as [H|[H|[]]]; auto.
Qed.

Lemma stage_hyphenation_ocr_extends :
  forall uword lexicon o st,
  exists l, snd (stage_ocr uword lexicon o (stage_hyphenation o st)) = snd st ++ l.
Proof.
  intros uword lexicon o st. unfold stage_ocr, stage_hyphenation.
  edestruct cleaning_step_applied_extends as [l3 ->].
  edestruct cleaning_step_applied_extends as [l2 ->].
  edestruct cleaning_step_applied_extends as [l1 ->].
  exists (l1 ++ l2 ++ l3). rewrite !app_assoc. reflexivity.
Qed.

Lemma pystr_eqb_refl : forall s, pystr_eqb s s = true.
Proof.
  intros s. unfold pystr_eqb. destruct (list_eq_dec Z.eq_dec s s); [reflexivity|].
  contradiction.
Qed.

Lemma pystr_eqb_neq : forall a b, a <> b -> pystr_eqb a b = false.
Proof.
  intros a b H. unfold pystr_eqb. destruct (list_eq_dec Z.eq_dec a b); [contradiction|].
  reflexivity.
Qed.

(** C8: with [remove_footnotes] on, the pre phase removes references: when
    the text reaching the footnote step has a bracketed or parenthesized
    numeral reference, the step changes it and ["removeFootnotes"] is
    recorded.  The post phase runs exactly the pipeline without that step,
    so it leaves references in place and never records it.  On the example
    of the specification, ["Fact[1] stated."] becomes ["Fact stated."] in the
    pre phase and is left as is in the post phase. *)
Theorem footnotes_pre_phase_only :
  (forall uword lexicon text o,
   CleaningOptions.remove_footnotes o = true ->
   (has_reference (fst (stage_urls uword o (stage_smart o (text, [])))) ->
    In "removeFootnotes"%string
      (DeterministicCleaningResult.applied
         (apply_deterministic_cleaning uword lexicon text o "pre")))
   /\ apply_deterministic_cleaning uword lexicon text o "post"
      = apply_deterministic_cleaning uword lexicon text (without_footnotes o) "pre"
   /\ ~ In "removeFootnotes"%string
        (DeterministicCleaningResult.applied
           (apply_deterministic_cleaning uword lexicon text o "post")))
  /\ apply_deterministic_cleaning latin1_word fallback_lexicon (of_ascii "Fact[1] stated.")
       CleaningOptions.default "pre"
     = DeterministicCleaningResult.mk (of_ascii "Fact stated.") ["removeFootnotes"%string]
  /\ apply_deterministic_cleaning latin1_word fallback_lexicon (of_ascii "Fact[1] stated.")
       CleaningOptions.default "post"
     = DeterministicCleaningResult.mk (of_ascii "Fact[1] stated.") [].
Proof.
  split; [|split; vm_compute; reflexivity].
  intros uword lexicon text o Hrf.
  split; [|split].
  - intros Href. unfold apply_deterministic_cleaning. simpl.
    set (st := stage_urls uword o (stage_smart o (text, []))) in *.
    assert (Hf : snd (stage_footnotes o "pre" st) = snd st ++ ["removeFootnotes"%string]).
    { unfold stage_footnotes, cleaning_step. rewrite Hrf. simpl.
      rewrite (pystr_eqb_neq _ _ (remove_references_changes _ Href)). reflexivity. }
    destruct (stage_hyphenation_ocr_extends uword lexicon o (stage_footnotes o "pre" st))
      as [l E].
    rewrite E, Hf. apply in_or_app; left. apply in_or_app; right. left; reflexivity.
  - unfold apply_deterministic_cleaning, stage_footnotes. rewrite Hrf. reflexivity.
  - unfold apply_deterministic_cleaning, stage_ocr. simpl. intros H.
    repeat (apply cleaning_step_applied_in in H; destruct H as [H|H]; [|discriminate H]).
    unfold stage_footnotes, cleaning_step in H. rewrite andb_false_r in H.
    repeat (apply cleaning_step_applied_in in H; destruct H as [H|H]; [|discriminate H]).
    exact H.
Qed.

(** ** Scanning with a matcher that ignores the previous code point *)

Lemma sub_go_prev :
  forall m, prev_free m -> forall s k p q, sub_go m k p s = sub_go m k q s.
Proof.
  intros m Hf s; destruct s as [|c r]; intros k p q; simpl; [reflexivity|].
  destruct k; [|reflexivity]. rewrite (Hf p q). reflexivity.
Qed.

Lemma sub_go_skip :
  forall m, prev_free m -> forall s k p, sub_go m k p s = re_sub m (skipn k s).
Proof.
  intros m Hf s; induction s as [|c r IH]; intros k p.
  - destruct k; reflexivity.
  - destruct k as [|k]; simpl.
    + unfold re_sub. apply (sub_go_prev m Hf (c :: r) 0 p None).
    + apply IH.
Qed.

Lemma re_sub_cons :
  forall m, prev_free m -> forall c r,
  re_sub m (c :: r)
  = match m None (c :: r) with
    | Some (S n, rep) => rep ++ re_sub m (skipn n r)
    | _ => c :: re_sub m r
    end.
Proof.
  intros m Hf c r. unfold re_sub at 1. simpl.
  destruct (m None (c :: r)) as [[[|n] rep]|].
  - f_equal. apply sub_go_prev; assumption.
  - f_equal. apply sub_go_skip; assumption.
  - f_equal. apply sub_go_prev; assumption.
Qed.

Lemma skipn_take_while :
  forall p r, skipn (length (take_while p r)) r = drop_while p r.
Proof.
  intros p r; induction r as [|c r IH]; simpl; [reflexivity|].
  destruct (p c); simpl; [exact IH|reflexivity].
Qed.

Lemma skipn_succ_tl : forall (n : nat) (l : pystr), skipn (S n) l = tl (skipn n l).
Proof.
  induction n as [|n IH]; intros l.
  - destruct l as [|c [|d l]]; reflexivity.
  - destruct l as [|c l]; [reflexivity|]. change (skipn (S n) l = tl (skipn n l)). apply IH.
Qed.

Lemma head_test_drop_while : forall p r, head_test p (drop_while p r) = false.
Proof.
  intros p r; induction r as [|c r IH]; simpl; [reflexivity|].
  destruct (p c) eqn:E; simpl; [exact IH|exact E].
Qed.

Lemma m_space_newline_prev_free : prev_free m_space_newline.
Proof. intros p q s; reflexivity. Qed.
Lemma m_newline_space_prev_free : prev_free m_newline_space.
Proof. intros p q s; reflexivity. Qed.
Lemma m_multi_space_prev_free : prev_free m_multi_space.
Proof. intros p q s; reflexivity. Qed.
Lemma m_excess_newlines_prev_free : prev_free m_excess_newlines.
Proof. intros p q s; reflexivity. Qed.

(** The four substitutions of [_normalize_spacing], one position at a time. *)

Lemma space_newline_cons :
  forall c r,
  re_sub m_space_newline (c :: r)
  = if is_hspace c && head_test is_nl (drop_while is_hspace r)
    then 10%Z :: re_sub m_space_newline (tl (drop_while is_hspace r))
    else c :: re_sub m_space_newline r.
Proof.
  intros c r. rewrite (re_sub_cons _ m_space_newline_prev_free).
  assert (E : m_space_newline None (c :: r)
              = if is_hspace c && head_test is_nl (drop_while is_hspace r)
                then Some (S (S (length (take_while is_hspace r))), [10%Z]) else None).
  { unfold m_space_newline. simpl. destruct (is_hspace c); reflexivity. }
  rewrite E.
  destruct (is_hspace c && head_test is_nl (drop_while is_hspace r)); [|reflexivity].
  rewrite skipn_succ_tl, skipn_take_while. reflexivity.
Qed.

Lemma newline_space_cons :
  forall c r,
  re_sub m_newline_space (c :: r)
  = if is_nl c && head_test is_hspace r
    then 10%Z :: re_sub m_newline_space (drop_while is_hspace r)
    else c :: re_sub m_newline_space r.
Proof.
  intros c r. rewrite (re_sub_cons _ m_newline_space_prev_free).
  assert (E : m_newline_space None (c :: r)
              = if is_nl c && head_test is_hspace r
                then Some (S (length (take_while is_hspace r)), [10%Z]) else None)
    by reflexivity.
  rewrite E.
  destruct (is_nl c && head_test is_hspace r); [|reflexivity].
  rewrite skipn_take_while. reflexivity.
Qed.

Lemma multi_space_cons :
  forall c r,
  re_sub m_multi_space (c :: r)
  = if is_hspace c && head_test is_hspace r
    then 32%Z :: re_sub m_multi_space (drop_while is_hspace r)
    else c :: re_sub m_multi_space r.
Proof.
  intros c r. rewrite (re_sub_cons _ m_multi_space_prev_free).
  assert (E : m_multi_space None (c :: r)
              = if is_hspace c && head_test is_hspace r
                then Some (S (length (take_while is_hspace r)), [32%Z]) else None).
  { unfold m_multi_space. simpl. destruct (is_hspace c); simpl; [|reflexivity].
    destruct r as [|d r']; simpl; [reflexivity|].
    destruct (is_hspace d); reflexivity. }
  rewrite E.
  destruct (is_hspace c && head_test is_hspace r); [|reflexivity].
  rewrite skipn_take_while. reflexivity.
Qed.

Lemma excess_newlines_cons :
  forall c r,
  re_sub m_excess_newlines (c :: r)
  = if is_nl c && head_test is_nl r && head_test is_nl (tl r)
    then 10%Z :: 10%Z :: re_sub m_excess_newlines (drop_while is_nl r)
    else c :: re_sub m_excess_newlines r.
Proof.
  intros c r. rewrite (re_sub_cons _ m_excess_newlines_prev_free).
  assert (E : m_excess_newlines None (c :: r)
              = if is_nl c && head_test is_nl r && head_test is_nl (tl r)
                then Some (S (length (take_while is_nl r)), [10%Z; 10%Z]) else None).
  { unfold m_excess_newlines. simpl. destruct (is_nl c); simpl; [|reflexivity].
    destruct r as [|d r']; simpl; [reflexivity|].
    destruct (is_nl d); simpl; [|reflexivity].
    destruct r' as [|e r'']; simpl; [reflexivity|].
    destruct (is_nl e); reflexivity. }
  rewrite E.
  destruct (is_nl c && head_test is_nl r && head_test is_nl (tl r)); [|reflexivity].
  rewrite skipn_take_while. reflexivity.
Qed.

(** ** Facts on runs and adjacent pairs *)

Lemma len_ind :
  forall (P : pystr -> Prop),
  (forall s, (forall t, (length t < length s)%nat -> P t) -> P s) -> forall s, P s.
Proof.
  intros P H s.
  assert (G : forall n t, (length t <= n)%nat -> P t).
  { induction n as [|n IH]; intros t Ht; apply H; intros u Hu; [lia|].
    apply IH. lia. }
  apply (G (length s)). lia.
Qed.

Lemma drop_while_length : forall p r, (length (drop_while p r) <= length r)%nat.
Proof.
  intros p r; induction r as [|c r IH]; simpl; [lia|].
  destruct (p c); simpl; lia.
Qed.

Lemma tl_length : forall (l : pystr), (length (tl l) <= length l)%nat.
Proof. intros [|c l]; simpl; lia. Qed.

Lemma take_drop_while_app : forall p r, r = take_while p r ++ drop_while p r.
Proof.
  intros p r; induction r as [|c r IH]; simpl; [reflexivity|].
  destruct (p c); simpl; [f_equal; exact IH|reflexivity].
Qed.

Lemma no_pair_suffix : forall p q u t, no_pair p q (u ++ t) -> no_pair p q t.
Proof.
  intros p q u t; induction u as [|a u IH]; simpl; [tauto|].
  intros [_ H]; apply IH; exact H.
Qed.

Lemma no_pair_prefix : forall p q t v, no_pair p q (t ++ v) -> no_pair p q t.
Proof.
  intros p q t v; induction t as [|a t IH]; simpl; [tauto|].
  intros [H1 H2]. split; [|apply IH; exact H2].
  destruct t as [|b t]; simpl in *; [apply andb_false_r|exact H1].
Qed.

Lemma no_newline3_suffix : forall u t, no_newline3 (u ++ t) -> no_newline3 t.
Proof.
  intros u t; induction u as [|a u IH]; simpl; [tauto|].
  intros [_ H]; apply IH; exact H.
Qed.

Lemma no_newline3_prefix : forall t v, no_newline3 (t ++ v) -> no_newline3 t.
Proof.
  intros t v; induction t as [|a t IH]; simpl; [tauto|].
  intros [H1 H2]. split; [|apply IH; exact H2].
  destruct t as [|b [|c t]]; simpl in *;
    [rewrite andb_false_r; reflexivity|rewrite !andb_false_r; reflexivity|exact H1].
Qed.

Lemma no_pair_drop_while :
  forall p q x r, no_pair p q r -> no_pair p q (drop_while x r).
Proof.
  intros p q x r H. rewrite (take_drop_while_app x r) in H.
  apply no_pair_suffix in H. exact H.
Qed.

Lemma no_newline3_drop_while :
  forall x r, no_newline3 r -> no_newline3 (drop_while x r).
Proof.
  intros x r H. rewrite (take_drop_while_app x r) in H.
  apply no_newline3_suffix in H. exact H.
Qed.

(** After a code point satisfying [p], the run of [p] code points that
    follows cannot end on a [q] one. *)
Lemma run_no_pair :
  forall p q c r, p c = true -> no_pair p q (c :: r) ->
  head_test q (drop_while p r) = false.
Proof.
  intros p q c r; revert c; induction r as [|d r IH]; intros c Hc H; simpl; [reflexivity|].
  destruct H as [H1 H2]. simpl in H1. rewrite Hc in H1. simpl in H1.
  destruct (p d) eqn:Hd; [apply (IH d Hd H2)|exact H1].
Qed.

Lemma head_test_hd :
  forall p a b, hd_error a = hd_error b -> head_test p a = head_test p b.
Proof. intros p [|x a] [|y b] H; simpl in *; try discriminate; congruence. Qed.

Lemma is_nl_eq : forall c, is_nl c = true -> c = 10%Z.
Proof. intros c H. apply Z.eqb_eq. exact H. Qed.

Lemma hspace_not_nl : forall c, is_hspace c = true -> is_nl c = false.
Proof.
  intros c H. unfold is_hspace in H. unfold is_nl.
  apply orb_true_iff in H. destruct H as [H|H]; apply Z.eqb_eq in H; subst; reflexivity.
Qed.

(** ** The substitutions of [_normalize_spacing] *)

Lemma space_newline_head :
  forall t, head_test is_nl (re_sub m_space_newline t) = head_test is_nl (drop_while is_hspace t).
Proof.
  intros [|c r]; [reflexivity|]. rewrite space_newline_cons.
  simpl. destruct (is_hspace c) eqn:Hc; simpl.
  - destruct (head_test is_nl (drop_while is_hspace r)) eqn:E; simpl; [reflexivity|].
    apply hspace_not_nl; exact Hc.
  - reflexivity.
Qed.

Lemma newline_space_hd :
  forall t, hd_error (re_sub m_newline_space t) = hd_error t.
Proof.
  intros [|c r]; [reflexivity|]. rewrite newline_space_cons.
  destruct (is_nl c && head_test is_hspace r) eqn:E; simpl; [|reflexivity].
  apply andb_true_iff in E. destruct E as [E _]. rewrite (is_nl_eq c E). reflexivity.
Qed.

Lemma excess_newlines_hd :
  forall t, hd_error (re_sub m_excess_newlines t) = hd_error t.
Proof.
  intros [|c r]; [reflexivity|]. rewrite excess_newlines_cons.
  destruct (is_nl c && head_test is_nl r && head_test is_nl (tl r)) eqn:E; simpl; [|reflexivity].
  apply andb_true_iff in E. destruct E as [E _]. apply andb_true_iff in E.
  destruct E as [E _]. rewrite (is_nl_eq c E). reflexivity.
Qed.

Lemma excess_newlines_tl_head :
  forall r, head_test is_nl r = true ->
  head_test is_nl (tl (re_sub m_excess_newlines r)) = head_test is_nl (tl r).
Proof.
  intros [|d r'] H; [discriminate|]. simpl in H.
  rewrite excess_newlines_cons. rewrite H. simpl.
  destruct (head_test is_nl r' && head_test is_nl (tl r')) eqn:E; simpl.
  - apply andb_true_iff in E. destruct E as [E _]. rewrite E. reflexivity.
  - apply head_test_hd. apply excess_newlines_hd.
Qed.

Lemma multi_space_head :
  forall p t, (p = is_hspace \/ p = is_nl) ->
  head_test p (re_sub m_multi_space t) = head_test p t.
Proof.
  intros p [|c r] Hp; [reflexivity|]. rewrite multi_space_cons.
  destruct (is_hspace c && head_test is_hspace r) eqn:E; simpl; [|reflexivity].
  apply andb_true_iff in E. destruct E as [E _].
  destruct Hp as [->| ->]; [rewrite E; reflexivity|].
  rewrite (hspace_not_nl c E). reflexivity.
Qed.

Lemma space_newline_post : forall s, no_pair is_hspace is_nl (re_sub m_space_newline s).
Proof.
  apply len_ind. intros [|c r] IH; [exact I|].
  rewrite space_newline_cons.
  destruct (is_hspace c && head_test is_nl (drop_while is_hspace r)) eqn:E; simpl.
  - split; [reflexivity|]. apply IH.
    pose proof (drop_while_length is_hspace r). pose proof (tl_length (drop_while is_hspace r)).
    simpl. lia.
  - split; [rewrite space_newline_head; exact E|]. apply IH. simpl; lia.
Qed.

Lemma newline_space_post :
  forall s, no_pair is_nl is_hspace (re_sub m_newline_space s)
  /\ (no_pair is_hspace is_nl s -> no_pair is_hspace is_nl (re_sub m_newline_space s)).
Proof.
  apply len_ind. intros [|c r] IH; [split; [exact I|intros _; exact I]|].
  rewrite newline_space_cons.
  assert (Hlen : (length (drop_while is_hspace r) < length (c :: r))%nat)
    by (pose proof (drop_while_length is_hspace r); simpl; lia).
  destruct (is_nl c && head_test is_hspace r) eqn:E; simpl.
  - destruct (IH _ Hlen) as [IH1 IH2]. split.
    + split; [|exact IH1].
      rewrite (head_test_hd _ _ _ (newline_space_hd _)), head_test_drop_while. reflexivity.
    + intros [_ H]. split; [reflexivity|]. apply IH2. apply no_pair_drop_while. exact H.
  - destruct (IH r ltac:(simpl; lia)) as [IH1 IH2].
    rewrite (head_test_hd _ _ _ (newline_space_hd r)), (head_test_hd is_nl _ _ (newline_space_hd r)).
    split.
    + split; [exact E|exact IH1].
    + intros [H1 H2]. split; [exact H1|]. apply IH2; exact H2.
Qed.

Lemma multi_space_post :
  forall s, no_pair is_hspace is_hspace (re_sub m_multi_space s)
  /\ (no_pair is_hspace is_nl s -> no_pair is_hspace is_nl (re_sub m_multi_space s))
  /\ (no_pair is_nl is_hspace s -> no_pair is_nl is_hspace (re_sub m_multi_space s)).
Proof.
  apply len_ind. intros [|c r] IH; [split; [exact I|split; intros _; exact I]|].
  rewrite multi_space_cons.
  assert (Hlen : (length (drop_while is_hspace r) < length (c :: r))%nat)
    by (pose proof (drop_while_length is_hspace r); simpl; lia).
  destruct (is_hspace c && head_test is_hspace r) eqn:E; simpl.
  - destruct (IH _ Hlen) as [IH1 [IH2 IH3]].
    apply andb_true_iff in E. destruct E as [Ec _].
    rewrite !(multi_space_head _ _ (or_introl eq_refl)),
            !(multi_space_head _ _ (or_intror eq_refl)).
    split; [|split].
    + split; [|exact IH1]. rewrite head_test_drop_while. reflexivity.
    + intros H. split; [|apply IH2; apply no_pair_drop_while; exact (proj2 H)].
      simpl. apply (run_no_pair _ _ c r Ec H).
    + intros [_ H]. split; [reflexivity|]. apply IH3. apply no_pair_drop_while. exact H.
  - destruct (IH r ltac:(simpl; lia)) as [IH1 [IH2 IH3]].
    rewrite !(multi_space_head _ _ (or_introl eq_refl)),
            !(multi_space_head _ _ (or_intror eq_refl)).
    split; [|split].
    + split; [exact E|exact IH1].
    + intros [H1 H2]. split; [exact H1|]. apply IH2; exact H2.
    + intros [H1 H2]. split; [exact H1|]. apply IH3; exact H2.
Qed.

Lemma excess_newlines_post :
  forall s, no_newline3 (re_sub m_excess_newlines s)
  /\ (no_pair is_hspace is_nl s -> no_pair is_hspace is_nl (re_sub m_excess_newlines s))
  /\ (no_pair is_nl is_hspace s -> no_pair is_nl is_hspace (re_sub m_excess_newlines s))
  /\ (no_pair is_hspace is_hspace s -> no_pair is_hspace is_hspace (re_sub m_excess_newlines s)).
Proof.
  apply len_ind. intros [|c r] IH; [split; [exact I|split; [|split]; intros _; exact I]|].
  rewrite excess_newlines_cons.
  assert (Hlen : (length (drop_while is_nl r) < length (c :: r))%nat)
    by (pose proof (drop_while_length is_nl r); simpl; lia).
  destruct (is_nl c && head_test is_nl r && head_test is_nl (tl r)) eqn:E.
  - destruct (IH _ Hlen) as [IH1 [IH2 [IH3 IH4]]].
    apply andb_true_iff in E. destruct E as [E _]. apply andb_true_iff in E.
    destruct E as [Ec _].
    set (X := re_sub m_excess_newlines (drop_while is_nl r)) in *.
    assert (HX : forall p, head_test p X = head_test p (drop_while is_nl r))
      by (intros p; apply head_test_hd; apply excess_newlines_hd).
    split; [|split; [|split]].
    + simpl. rewrite HX, head_test_drop_while.
      split; [reflexivity|]. split; [reflexivity|exact IH1].
    + intros [_ H]. simpl. split; [reflexivity|]. split; [reflexivity|].
      apply IH2. apply no_pair_drop_while. exact H.
    + intros H. simpl. split; [reflexivity|]. split.
      * rewrite HX. apply (run_no_pair _ _ c r Ec H).
      * apply IH3. apply no_pair_drop_while. exact (proj2 H).
    + intros [_ H]. simpl. split; [reflexivity|]. split; [reflexivity|].
      apply IH4. apply no_pair_drop_while. exact H.
  - destruct (IH r ltac:(simpl; lia)) as [IH1 [IH2 [IH3 IH4]]].
    assert (HY : forall p, head_test p (re_sub m_excess_newlines r) = head_test p r)
      by (intros p; apply head_test_hd; apply excess_newlines_hd).
    split; [|split; [|split]].
    + simpl. split; [|exact IH1]. rewrite HY.
      destruct (is_nl c); [|reflexivity].
      destruct (head_test is_nl r) eqn:Hr; [|reflexivity].
      rewrite (excess_newlines_tl_head r Hr). exact E.
    + intros [H1 H2]. simpl. rewrite HY. split; [exact H1|]. apply IH2; exact H2.
    + intros [H1 H2]. simpl. rewrite HY. split; [exact H1|]. apply IH3; exact H2.
    + intros [H1 H2]. simpl. rewrite HY. split; [exact H1|]. apply IH4; exact H2.
Qed.

Lemma space_newline_id :
  forall s, no_pair is_hspace is_nl s -> re_sub m_space_newline s = s.
Proof.
  induction s as [|c r IH]; intros H; [reflexivity|].
  rewrite space_newline_cons.
  destruct (is_hspace c) eqn:Hc; simpl.
  - rewrite (run_no_pair _ _ c r Hc H). simpl. f_equal. apply IH; exact (proj2 H).
  - f_equal. apply IH; exact (proj2 H).
Qed.

Lemma newline_space_id :
  forall s, no_pair is_nl is_hspace s -> re_sub m_newline_space s = s.
Proof.
  induction s as [|c r IH]; intros H; [reflexivity|]. destruct H as [H1 H2].
  rewrite newline_space_cons, H1. f_equal. apply IH; exact H2.
Qed.

Lemma multi_space_id :
  forall s, no_pair is_hspace is_hspace s -> re_sub m_multi_space s = s.
Proof.
  induction s as [|c r IH]; intros H; [reflexivity|]. destruct H as [H1 H2].
  rewrite multi_space_cons, H1. f_equal. apply IH; exact H2.
Qed.

Lemma excess_newlines_id :
  forall s, no_newline3 s -> re_sub m_excess_newlines s = s.
Proof.
  induction s as [|c r IH]; intros H; [reflexivity|]. destruct H as [H1 H2].
  rewrite excess_newlines_cons, H1. f_equal. apply IH; exact H2.
Qed.

(** ** [str.strip()] *)

Lemma drop_while_idem : forall p l, drop_while p (drop_while p l) = drop_while p l.
Proof.
  intros p l; induction l as [|c l IH]; simpl; [reflexivity|].
  destruct (p c) eqn:E; [exact IH|simpl; rewrite E; reflexivity].
Qed.

Lemma drop_while_snoc :
  forall p h l, p h = false -> exists k, drop_while p (l ++ [h]) = k ++ [h].
Proof.
  intros p h l Hh; induction l as [|c l IH]; simpl.
  - rewrite Hh. exists []; reflexivity.
  - destruct (p c); [exact IH|]. exists (c :: l); reflexivity.
Qed.

Lemma py_strip_infix : forall s, exists u v, s = u ++ py_strip s ++ v.
Proof.
  intros s. unfold py_strip, py_lstrip.
  set (L := drop_while is_py_space s).
  exists (take_while is_py_space s), (rev (take_while is_py_space (rev L))).
  rewrite <- rev_app_distr, <- take_drop_while_app, rev_involutive.
  apply take_drop_while_app.
Qed.

Lemma py_strip_idem : forall s, py_strip (py_strip s) = py_strip s.
Proof.
  intros s. unfold py_strip, py_lstrip.
  destruct (drop_while is_py_space s) as [|h L'] eqn:EL; [reflexivity|].
  assert (Hh : is_py_space h = false).
  { pose proof (head_test_drop_while is_py_space s) as H. rewrite EL in H. exact H. }
  simpl. destruct (drop_while_snoc is_py_space h (rev L') Hh) as [k Ek]. rewrite Ek.
  rewrite rev_app_distr. simpl. rewrite Hh.
  replace (h :: rev k) with (rev (k ++ [h])) by (rewrite rev_app_distr; reflexivity).
  rewrite rev_involutive, <- Ek, drop_while_idem. reflexivity.
Qed.

Lemma no_pair_py_strip : forall p q s, no_pair p q s -> no_pair p q (py_strip s).
Proof.
  intros p q s H. destruct (py_strip_infix s) as [u [v E]]. rewrite E in H.
  apply no_pair_suffix in H. apply no_pair_prefix in H. exact H.
Qed.

Lemma no_newline3_py_strip : forall s, no_newline3 s -> no_newline3 (py_strip s).
Proof.
  intros s H. destruct (py_strip_infix s) as [u [v E]]. rewrite E in H.
  apply no_newline3_suffix in H. apply no_newline3_prefix in H. exact H.
Qed.

Lemma normalize_spacing_id :
  forall s, no_pair is_hspace is_nl s -> no_pair is_nl is_hspace s ->
  no_pair is_hspace is_hspace s -> no_newline3 s ->
  _normalize_spacing s = py_strip s.
Proof.
  intros s H1 H2 H3 H4. unfold _normalize_spacing.
  rewrite space_newline_id, newline_space_id, multi_space_id, excess_newlines_id
    by assumption.
  reflexivity.
Qed.

(** The final whitespace normalization of the cleaning engine is idempotent. *)
Lemma normalize_spacing_idempotent :
  forall s, _normalize_spacing (_normalize_spacing s) = _normalize_spacing s.
Proof.
  intros s.
  set (a := re_sub m_space_newline s).
  set (b := re_sub m_newline_space a).
  set (c := re_sub m_multi_space b).
  set (x := re_sub m_excess_newlines c).
  pose proof (space_newline_post s) as A1. fold a in A1.
  destruct (newline_space_post a) as [B1 B2]. specialize (B2 A1). fold b in B1, B2.
  destruct (multi_space_post b) as [C1 [C2 C3]].
  specialize (C2 B2). specialize (C3 B1). fold c in C1, C2, C3.
  destruct (excess_newlines_post c) as [D1 [D2 [D3 D4]]].
  specialize (D2 C2). specialize (D3 C3). specialize (D4 C1). fold x in D1, D2, D3, D4.
  assert (E : _normalize_spacing s = py_strip x) by reflexivity.
  rewrite E.
  rewrite normalize_spacing_id;
    [ apply py_strip_idem
    | apply no_pair_py_strip; assumption
    | apply no_pair_py_strip; assumption
    | apply no_pair_py_strip; assumption
    | apply no_newline3_py_strip; assumption ].
Qed.

(** ** Code points a substitution leaves or produces *)

Lemma sub_go_forall_keep :
  forall (m : matcher) (Q : Z -> Prop),
  (forall p s n rep, m p s = Some (n, rep) -> Forall Q rep) ->
  forall s k p, Forall Q s -> Forall Q (sub_go m k p s).
Proof.
  intros m Q Hrep s; induction s as [|c r IH]; intros k p H; simpl; [constructor|].
  inversion H as [|? ? Hc Hr]; subst.
  destruct k as [|k]; [|apply IH; exact Hr].
  destruct (m p (c :: r)) as [[[|n] rep]|] eqn:E.
  - constructor; [exact Hc|apply IH; exact Hr].
  - apply Forall_app. split; [exact (Hrep _ _ _ _ E)|apply IH; exact Hr].
  - constructor; [exact Hc|apply IH; exact Hr].
Qed.

Lemma sub_go_forall_post :
  forall (m : matcher) (Q : Z -> Prop),
  (forall p s n rep, m p s = Some (n, rep) -> Forall Q rep) ->
  (forall p c r, (forall n rep, m p (c :: r) <> Some (S n, rep)) -> Q c) ->
  forall s k p, Forall Q (sub_go m k p s).
Proof.
  intros m Q Hrep Hcopy s; induction s as [|c r IH]; intros k p; simpl; [constructor|].
  destruct k as [|k]; [|apply IH].
  destruct (m p (c :: r)) as [[[|n] rep]|] eqn:E.
  - constructor; [|apply IH]. apply (Hcopy p c r). rewrite E. intros n' rep' H; discriminate.
  - apply Forall_app. split; [exact (Hrep _ _ _ _ E)|apply IH].
  - constructor; [|apply IH]. apply (Hcopy p c r). rewrite E. intros n' rep' H; discriminate.
Qed.

Lemma sub_go_forall_id :
  forall (m : matcher) (P : Z -> Prop),
  (forall p c r, P c -> m p (c :: r) = None) ->
  forall s p, Forall P s -> sub_go m 0 p s = s.
Proof.
  intros m P Hm s; induction s as [|c r IH]; intros p H; simpl; [reflexivity|].
  inversion H as [|? ? Hc Hr]; subst.
  rewrite (Hm p c r Hc). f_equal. apply IH; exact Hr.
Qed.

Lemma smart_replacement_cases :
  forall c rep, smart_replacement c = Some rep ->
  rep = [34%Z] \/ rep = [39%Z] \/ rep = [45%Z] \/ rep = [46; 46; 46]%Z.
Proof.
  intros c rep. unfold smart_replacement.
  repeat match goal with |- context [if ?b then _ else _] => destruct b end;
    intros H; inversion H; subst; tauto.
Qed.

Lemma replace_smart_punctuation_plain :
  forall t, Forall plain (_replace_smart_punctuation t).
Proof.
  intros t. unfold _replace_smart_punctuation, re_sub.
  assert (H1 : Forall (fun x => smart_replacement x = None)
                 (sub_go m_smart_punctuation 0 None t)).
  { apply sub_go_forall_post.
    - intros p s n rep E. unfold m_smart_punctuation in E.
      destruct s as [|c r]; [discriminate|].
      destruct (smart_replacement c) as [rep'|] eqn:Ec; [|discriminate].
      injection E as _ <-.
      destruct (smart_replacement_cases c rep' Ec) as [E'|[E'|[E'|E']]];
        subst rep'; repeat constructor.
    - intros p c r H. unfold m_smart_punctuation in H.
      destruct (smart_replacement c) as [rep|]; [|reflexivity].
      exfalso. apply (H 0%nat rep). reflexivity. }
  assert (H2 : Forall (fun x => x <> 160%Z)
                 (sub_go m_nbsp 0 None (sub_go m_smart_punctuation 0 None t))).
  { apply sub_go_forall_post.
    - intros p s n rep E. unfold m_nbsp in E.
      destruct s as [|c r]; [discriminate|].
      destruct (c =? 160)%Z; [|discriminate]. injection E as _ <-.
      constructor; [discriminate|constructor].
    - intros p c r H. unfold m_nbsp in H. intros ->. apply (H 0%nat [32%Z]). reflexivity. }
  assert (H3 : Forall (fun x => smart_replacement x = None)
                 (sub_go m_nbsp 0 None (sub_go m_smart_punctuation 0 None t))).
  { apply sub_go_forall_keep; [|exact H1].
    intros p s n rep E. unfold m_nbsp in E.
    destruct s as [|c r]; [discriminate|].
    destruct (c =? 160)%Z; [|discriminate]. injection E as _ <-.
    constructor; [reflexivity|constructor]. }
  apply Forall_forall. intros x Hx. rewrite Forall_forall in H2, H3.
  split; [apply H3|apply H2]; exact Hx.
Qed.

Lemma replace_smart_punctuation_id :
  forall t, Forall plain t -> _replace_smart_punctuation t = t.
Proof.
  intros t H. unfold _replace_smart_punctuation, re_sub.
  assert (E1 : sub_go m_smart_punctuation 0 None t = t).
  { apply (sub_go_forall_id m_smart_punctuation plain); [|exact H].
    intros p c r Hc. unfold m_smart_punctuation. destruct Hc as [Hc _]. rewrite Hc.
    reflexivity. }
  rewrite E1.
  apply (sub_go_forall_id m_nbsp plain); [|exact H].
  intros p c r Hc. unfold m_nbsp. destruct Hc as [_ Hc].
  destruct (c =? 160)%Z eqn:E; [apply Z.eqb_eq in E; contradiction|reflexivity].
Qed.

Lemma normalize_spacing_forall :
  forall (Q : Z -> Prop), Q 10%Z -> Q 32%Z ->
  forall s, Forall Q s -> Forall Q (_normalize_spacing s).
Proof.
  intros Q H10 H32 s H. unfold _normalize_spacing.
  assert (K : forall t, Forall Q t -> Forall Q (py_strip t)).
  { intros t Ht. destruct (py_strip_infix t) as [u [v E]]. rewrite E in Ht.
    apply Forall_app in Ht. destruct Ht as [_ Ht]. apply Forall_app in Ht. tauto. }
  apply K. unfold re_sub.
  apply sub_go_forall_keep.
  { intros p t n rep E. unfold m_excess_newlines in E.
    destruct (3 <=? _)%nat; [|discriminate]. injection E as _ <-. repeat constructor; assumption. }
  apply sub_go_forall_keep.
  { intros p t n rep E. unfold m_multi_space in E.
    destruct (2 <=? _)%nat; [|discriminate]. injection E as _ <-. repeat constructor; assumption. }
  apply sub_go_forall_keep.
  { intros p t n rep E. unfold m_newline_space in E. destruct t as [|c r]; [discriminate|].
    destruct (_ && _); [|discriminate]. injection E as _ <-. repeat constructor; assumption. }
  apply sub_go_forall_keep.
  { intros p t n rep E. unfold m_space_newline in E. destruct t as [|c r]; [discriminate|].
    destruct (_ && _); [|discriminate]. injection E as _ <-. repeat constructor; assumption. }
  exact H.
Qed.

Lemma pystr_eqb_true : forall a b, pystr_eqb a b = true -> a = b.
Proof.
  intros a b H. unfold pystr_eqb in H. destruct (list_eq_dec Z.eq_dec a b); [assumption|discriminate].
Qed.

Lemma stage_smart_text :
  forall o t,
  fst (stage_smart o (t, []))
  = if CleaningOptions.replace_smart_quotes o then _replace_smart_punctuation t else t.
Proof.
  intros o t. unfold stage_smart, cleaning_step.
  destruct (CleaningOptions.replace_smart_quotes o); [|reflexivity].
  destruct (pystr_eqb _ _) eqn:E; [|reflexivity].
  apply pystr_eqb_true in E. simpl. symmetry. exact E.
Qed.

(** * Witnesses: the hypotheses of the theorems hold on concrete inputs *)

Lemma failed_attempt_usage_kept_witness :
  let service := llm_service latin1_word fallback_lexicon true blank_generation in
  let chunk := of_ascii "Hello." in
  let r1 := ProcessChunkResult.mk [] 12 0 0%float 0%float ["llmCleaning"%string] in
  service (Acc.calls Acc.init) (chunk_options default_config chunk) = Return r1
  /\ validate_output chunk (ProcessChunkResult.text r1) = false
  /\ Acc.total_input_tokens (Attempt.acc (run_chunk service default_config 0 chunk Acc.init))
     = 24%Z
  /\ Acc.applied_steps (Attempt.acc (run_chunk service default_config 0 chunk Acc.init))
     = ["llmCleaning"%string; "llmCleaning"%string].
Proof.
  intros service chunk r1.
  assert (H1 : service (Acc.calls Acc.init) (chunk_options default_config chunk) = Return r1)
    by (vm_compute; reflexivity).
  assert (H2 : validate_output chunk (ProcessChunkResult.text r1) = false)
    by (vm_compute; reflexivity).
  pose proof (failed_attempt_usage_kept service default_config 0 chunk Acc.init r1 H1 H2) as H.
  cbv zeta in H. destruct H as [E1 [_ [_ E4]]].
  split; [exact H1|]. split; [exact H2|]. split.
  - rewrite E1. vm_compute. reflexivity.
  - rewrite E4. vm_compute. reflexivity.
Defined.

Lemma validation_failures_do_not_fall_back_witness :
  let service := llm_service latin1_word fallback_lexicon true blank_generation in
  let chunk := of_ascii "Hello." in
  let r := ProcessChunkResult.mk [] 12 0 0%float 0%float ["llmCleaning"%string] in
  service (Acc.calls Acc.init) (chunk_options default_config chunk) = Return r
  /\ service (S (Acc.calls Acc.init)) (chunk_options default_config chunk) = Return r
  /\ validate_output chunk (ProcessChunkResult.text r) = false
  /\ Attempt.processed_chunk (run_chunk service default_config 0 chunk Acc.init) = []
  /\ Acc.logs (Attempt.acc (run_chunk service default_config 0 chunk Acc.init)) = [].
Proof.
  intros service chunk r.
  assert (H1 : service (Acc.calls Acc.init) (chunk_options default_config chunk) = Return r)
    by (vm_compute; reflexivity).
  assert (H2 : service (S (Acc.calls Acc.init)) (chunk_options default_config chunk) = Return r)
    by (vm_compute; reflexivity).
  assert (H3 : validate_output chunk (ProcessChunkResult.text r) = false)
    by (vm_compute; reflexivity).
  pose proof (validation_failures_do_not_fall_back service default_config 0 chunk Acc.init
                r r H1 H3 H2 H3) as H.
  cbv zeta in H. destruct H as [E1 [_ [E3 _]]].
  split; [exact H1|]. split; [exact H2|]. split; [exact H3|]. split.
  - rewrite E1. reflexivity.
  - rewrite E3. reflexivity.
Defined.

Lemma cleaning_disabled_still_generates_witness :
  let options := ProcessOptions.mk (of_ascii "Hello world.") CleaningOptions.default None
                   OLLAMA (of_ascii "llama3") None 0x1.3333333333333p-2%float None false true false in
  ProcessOptions.llm_cleaning_disabled options = true
  /\ speaker_active (ProcessOptions.speaker_config options) = None
  /\ fst (process_chunk latin1_word fallback_lexicon false echo_generation options)
     = [CleaningPrompt (of_ascii "Hello world.") CleaningOptions.default None].
Proof.
  intros options.
  assert (H1 : ProcessOptions.llm_cleaning_disabled options = true) by reflexivity.
  assert (H2 : speaker_active (ProcessOptions.speaker_config options) = None) by reflexivity.
  pose proof (cleaning_disabled_still_generates latin1_word fallback_lexicon false
                echo_generation options H1 H2 (or_introl eq_refl)) as H.
  cbv zeta in H. destruct H as [E _].
  split; [exact H1|]. split; [exact H2|]. exact E.
Defined.

Lemma split_into_chunks_spec_witness :
  (1 <= 2)%Z
  /\ nonblank (of_ascii " no terminal punctuation here ") = true
  /\ split_into_chunks (of_ascii " no terminal punctuation here ") 2
     = [of_ascii "no terminal punctuation here"]
  /\ split_into_chunks (of_ascii "...") 2 = [of_ascii "..."]
  /\ split_into_chunks (of_ascii ". ") 2 = [].
Proof.
  assert (Hb : (1 <= 2)%Z) by lia.
  assert (Hn : nonblank (of_ascii " no terminal punctuation here ") = true)
    by (vm_compute; reflexivity).
  destruct (split_into_chunks_spec (of_ascii " no terminal punctuation here ") 2 Hb)
    as [_ [_ [_ [H _]]]].
  split; [exact Hb|]. split; [exact Hn|]. split.
  { rewrite (H Hn ltac:(vm_compute; reflexivity)). vm_compute. reflexivity. }
  split.
  - destruct (split_into_chunks_spec (of_ascii "...") 2 Hb) as [_ [_ [_ [_ [_ [H3 _]]]]]].
    apply H3; [discriminate|vm_compute; reflexivity].
  - destruct (split_into_chunks_spec (of_ascii ". ") 2 Hb) as [_ [_ [_ [_ [_ [_ H4]]]]]].
    apply (H4 (of_ascii ".") (of_ascii " ")); [reflexivity|reflexivity|reflexivity|].
    right; discriminate.
Defined.

Lemma blank_text_rejected_at_entry_witness :
  nonblank (of_ascii "   ") = false
  /\ run_deterministic latin1_word fallback_lexicon (of_ascii "   ") CleaningOptions.default
     = Err (GrError "Please provide text to clean"%string).
Proof.
  assert (Hn : nonblank (of_ascii "   ") = false) by (vm_compute; reflexivity).
  split; [exact Hn|].
  destruct blank_text_rejected_at_entry as [_ [_ H]].
  exact (H latin1_word fallback_lexicon _ CleaningOptions.default Hn).
Defined.

Lemma footnotes_pre_phase_only_witness :
  CleaningOptions.remove_footnotes CleaningOptions.default = true
  /\ has_reference (fst (stage_urls latin1_word CleaningOptions.default
                          (stage_smart CleaningOptions.default (of_ascii "Fact[1] stated.", []))))
  /\ In "removeFootnotes"%string
       (DeterministicCleaningResult.applied
          (apply_deterministic_cleaning latin1_word fallback_lexicon
             (of_ascii "Fact[1] stated.") CleaningOptions.default "pre")).
Proof.
  assert (Hrf : CleaningOptions.remove_footnotes CleaningOptions.default = true) by reflexivity.
  assert (Href : has_reference (fst (stage_urls latin1_word CleaningOptions.default
                   (stage_smart CleaningOptions.default (of_ascii "Fact[1] stated.", []))))).
  { exists (of_ascii "Fact"), (of_ascii "[1] stated."). split.
    - vm_compute. reflexivity.
    - left. vm_compute. discriminate. }
  destruct footnotes_pre_phase_only as [H _].
  destruct (H latin1_word fallback_lexicon (of_ascii "Fact[1] stated.") CleaningOptions.default Hrf)
    as [H1 _].
  split; [exact Hrf|]. split; [exact Href|]. exact (H1 Href).
Defined.

Lemma character_mapping_parse_witness :
  Forall mapping_line_ok (splitlines (of_ascii "Alice = 1"))
  /\ (exists ms, _parse_character_mapping (of_ascii "Alice = 1") = Ok ms)
  /\ _parse_character_mapping (of_ascii "Alice = one") = Err (ValueError (of_ascii "one")).
Proof.
  assert (Hok : Forall mapping_line_ok (splitlines (of_ascii "Alice = 1"))).
  { assert (Hs : splitlines (of_ascii "Alice = 1") = [of_ascii "Alice = 1"])
      by (vm_compute; reflexivity).
    rewrite Hs. constructor; [|constructor]. right. split.
    - vm_compute. reflexivity.
    - assert (Hn : py_int (mapping_number (of_ascii "Alice = 1")) = Some 1%Z)
        by (vm_compute; reflexivity).
      rewrite Hn. discriminate. }
  split; [exact Hok|]. split.
  - destruct (character_mapping_parse (of_ascii "Alice = 1")) as [_ H].
    destruct (H Hok) as [ms [E _]]. exists ms. exact E.
  - destruct (character_mapping_parse (of_ascii "Alice = one")) as [H _].
    destruct (H [] (of_ascii "Alice = one") [] ltac:(vm_compute; reflexivity)
                (Forall_nil _) ltac:(vm_compute; reflexivity)) as [_ H2].
    rewrite (H2 ltac:(vm_compute; reflexivity) ltac:(vm_compute; reflexivity)).
    vm_compute. reflexivity.
Defined.

(** * Further properties of the cleaning pipeline *)

Lemma subseq_refl : forall {A} (l : list A), subseq l l.
Proof. intros A l; induction l; constructor; assumption. Qed.

Lemma subseq_nil_l : forall {A} (l : list A), subseq [] l.
Proof. intros A l; induction l; constructor; assumption. Qed.

Lemma subseq_app : forall {A} (a1 b1 a2 b2 : list A),
  subseq a1 b1 -> subseq a2 b2 -> subseq (a1 ++ a2) (b1 ++ b2).
Proof.
  intros A a1 b1 a2 b2 H1 H2; induction H1; simpl; try constructor; assumption.
Qed.

Lemma cleaning_step_subseq :
  forall enabled name f st base,
  subseq (snd st) base ->
  subseq (snd (cleaning_step enabled name f st)) (base ++ step_if enabled name).
Proof.
  intros enabled name f st base H. unfold cleaning_step, step_if.
  destruct enabled.
  - destruct (pystr_eqb _ _); simpl.
    + rewrite <- (app_nil_r (snd st)). apply subseq_app; [exact H|].
      constructor. constructor.
    + apply subseq_app; [exact H|apply subseq_refl].
  - rewrite app_nil_r. exact H.
Qed.

(** X1: the steps apply_deterministic_cleaning reports as applied form a subsequence of the enabled steps, in pipeline order (smart punctuation, URLs, footnotes, hyphenation, camel case, merged words). *)
Theorem cleaning_steps_in_pipeline_order :
  forall uword lexicon t o phase,
  subseq (DeterministicCleaningResult.applied (apply_deterministic_cleaning uword lexicon t o phase))
         (enabled_steps o phase).
Proof.
  intros uword lexicon t o phase. unfold apply_deterministic_cleaning, enabled_steps. simpl.
  unfold stage_ocr, stage_hyphenation, stage_footnotes, stage_urls, stage_smart.
  rewrite !app_assoc.
  repeat apply cleaning_step_subseq.
  match goal with |- subseq _ (step_if ?b ?n) => apply (cleaning_step_subseq b n _ _ []) end.
  constructor.
Qed.


Lemma normalize_spacing_normal :
  forall s, let x := _normalize_spacing s in
  py_strip x = x /\ no_pair is_hspace is_hspace x /\ no_pair is_hspace is_nl x
  /\ no_pair is_nl is_hspace x /\ no_newline3 x.
Proof.
  intros s.
  set (a := re_sub m_space_newline s).
  set (b := re_sub m_newline_space a).
  set (c := re_sub m_multi_space b).
  set (x := re_sub m_excess_newlines c).
  pose proof (space_newline_post s) as A1. fold a in A1.
  destruct (newline_space_post a) as [B1 B2]. specialize (B2 A1). fold b in B1, B2.
  destruct (multi_space_post b) as [C1 [C2 C3]].
  specialize (C2 B2). specialize (C3 B1). fold c in C1, C2, C3.
  destruct (excess_newlines_post c) as [D1 [D2 [D3 D4]]].
  specialize (D2 C2). specialize (D3 C3). specialize (D4 C1). fold x in D1, D2, D3, D4.
  assert (E : _normalize_spacing s = py_strip x) by reflexivity.
  simpl. rewrite E.
  split; [apply py_strip_idem|].
  split; [apply no_pair_py_strip; assumption|].
  split; [apply no_pair_py_strip; assumption|].
  split; [apply no_pair_py_strip; assumption|].
  apply no_newline3_py_strip; assumption.
Qed.

(** X3: the text returned by apply_deterministic_cleaning is stripped, has no two horizontal spaces in a row, no horizontal space next to a line break, and no three line breaks in a row. *)
Theorem cleaning_output_normalized :
  forall uword lexicon t o phase,
  let x := DeterministicCleaningResult.text (apply_deterministic_cleaning uword lexicon t o phase) in
  py_strip x = x /\ no_pair is_hspace is_hspace x /\ no_pair is_hspace is_nl x
  /\ no_pair is_nl is_hspace x /\ no_newline3 x.
Proof. intros. apply normalize_spacing_normal. Qed.

(** X4: the output of _replace_smart_punctuation contains no smart quote, dash, ellipsis or non-breaking space, and applying it twice is the same as applying it once. *)
Theorem smart_punctuation_replaced :
  forall t,
  Forall (fun c => smart_replacement c = None /\ c <> 160%Z) (_replace_smart_punctuation t)
  /\ _replace_smart_punctuation (_replace_smart_punctuation t) = _replace_smart_punctuation t.
Proof.
  intros t. pose proof (replace_smart_punctuation_plain t) as H.
  split; [exact H|]. apply replace_smart_punctuation_id. exact H.
Qed.

Lemma sub_go_length_nongrowing :
  forall m, nongrowing m ->
  forall s k p, (length (sub_go m k p s) <= length s - k)%nat.
Proof.
  intros m Hm s; induction s as [|c r IH]; intros k p; simpl; [lia|].
  destruct k as [|k].
  - destruct (m p (c :: r)) as [[[|n] rep]|] eqn:E; simpl.
    + specialize (IH 0%nat (Some c)). lia.
    + apply Hm in E. simpl in E. rewrite length_app.
      specialize (IH n (Some c)). lia.
    + specialize (IH 0%nat (Some c)). lia.
  - apply IH.
Qed.

Lemma re_sub_length_nongrowing :
  forall m, nongrowing m -> forall s, (length (re_sub m s) <= length s)%nat.
Proof.
  intros m Hm s. pose proof (sub_go_length_nongrowing m Hm s 0 None). unfold re_sub. lia.
Qed.

Lemma shrinking_nongrowing : forall m, shrinking m -> nongrowing m.
Proof. intros m Hm p s n rep E. apply Hm in E. lia. Qed.

Lemma ci_h_url : forall c, ci_h c = true -> is_url_char c = true.
Proof.
  intros c H. unfold ci_h, mem in H. simpl in H.
  destruct (Z.eqb_spec c 104); [subst; reflexivity|].
  destruct (Z.eqb_spec c 72); [subst; reflexivity|]. discriminate.
Qed.

Lemma ci_w_url : forall c, ci_w c = true -> is_url_char c = true.
Proof.
  intros c H. unfold ci_w, mem in H. simpl in H.
  destruct (Z.eqb_spec c 119); [subst; reflexivity|].
  destruct (Z.eqb_spec c 87); [subst; reflexivity|]. discriminate.
Qed.

Lemma m_url_nongrowing : forall uword, nongrowing (m_url uword).
Proof.
  intros uword p s n rep E. unfold m_url in E.
  destruct s as [|c r]; [discriminate|].
  destruct (boundary uword p c && url_prefix_ok (c :: r)) eqn:B; [|discriminate].
  injection E as <- <-.
  apply andb_true_iff in B as [_ U].
  assert (Hc : is_url_char c = true).
  { unfold url_prefix_ok in U. simpl in U.
    destruct (ci_h c) eqn:Hh; [apply ci_h_url; exact Hh|].
    destruct (ci_w c) eqn:Hw; [apply ci_w_url; exact Hw|]. discriminate. }
  pose proof (take_drop_while_length is_url_char (c :: r)) as L.
  simpl in L |- *. rewrite Hc in L |- *. simpl in L |- *. lia.
Qed.

Lemma m_hyphen_break_nongrowing : nongrowing m_hyphen_break.
Proof.
  intros p s n rep E. unfold m_hyphen_break in E.
  destruct s as [|c r]; [discriminate|].
  destruct ((c =? 45)%Z && opt_test is_ascii_letter p); [|discriminate].
  destruct (existsb is_nl _ && _); [|discriminate].
  injection E as <- <-.
  pose proof (take_drop_while_length is_py_space r). simpl. lia.
Qed.

Lemma m_letter_newline_nongrowing : nongrowing m_letter_newline.
Proof.
  intros p s n rep E. unfold m_letter_newline in E.
  destruct s as [|c r]; [discriminate|].
  destruct (_ && _ && _); [|discriminate].
  injection E as <- <-. simpl. lia.
Qed.

Lemma m_space_newline_nongrowing : nongrowing m_space_newline.
Proof.
  intros p s n rep E. unfold m_space_newline in E.
  destruct s as [|c r]; [discriminate|].
  destruct (is_hspace c && head_test is_nl (drop_while is_hspace (c :: r))) eqn:B;
    [|discriminate].
  injection E as <- <-.
  apply andb_true_iff in B as [_ B].
  pose proof (take_drop_while_length is_hspace (c :: r)) as L.
  destruct (drop_while is_hspace (c :: r)); [discriminate|]. simpl in L |- *. lia.
Qed.

Lemma m_newline_space_nongrowing : nongrowing m_newline_space.
Proof.
  intros p s n rep E. unfold m_newline_space in E.
  destruct s as [|c r]; [discriminate|].
  destruct (is_nl c && head_test is_hspace r); [|discriminate].
  injection E as <- <-.
  pose proof (take_drop_while_length is_hspace r). simpl. lia.
Qed.

Lemma m_multi_space_nongrowing : nongrowing m_multi_space.
Proof.
  intros p s n rep E. unfold m_multi_space in E.
  destruct (2 <=? length (take_while is_hspace s))%nat eqn:B; [|discriminate].
  injection E as <- <-. apply Nat.leb_le in B.
  pose proof (take_drop_while_length is_hspace s). simpl. lia.
Qed.

Lemma m_excess_newlines_nongrowing : nongrowing m_excess_newlines.
Proof.
  intros p s n rep E. unfold m_excess_newlines in E.
  destruct (3 <=? length (take_while is_nl s))%nat eqn:B; [|discriminate].
  injection E as <- <-. apply Nat.leb_le in B.
  pose proof (take_drop_while_length is_nl s). simpl. lia.
Qed.

Lemma py_strip_length : forall s, (length (py_strip s) <= length s)%nat.
Proof.
  intros s. destruct (py_strip_infix s) as [u [v E]].
  rewrite E at 2. rewrite !length_app. lia.
Qed.

Lemma normalize_spacing_length : forall s, (length (_normalize_spacing s) <= length s)%nat.
Proof.
  intros s. unfold _normalize_spacing.
  pose proof (py_strip_length (re_sub m_excess_newlines (re_sub m_multi_space
    (re_sub m_newline_space (re_sub m_space_newline s))))).
  pose proof (re_sub_length_nongrowing _ m_space_newline_nongrowing s).
  pose proof (re_sub_length_nongrowing _ m_newline_space_nongrowing (re_sub m_space_newline s)).
  pose proof (re_sub_length_nongrowing _ m_multi_space_nongrowing
    (re_sub m_newline_space (re_sub m_space_newline s))).
  pose proof (re_sub_length_nongrowing _ m_excess_newlines_nongrowing
    (re_sub m_multi_space (re_sub m_newline_space (re_sub m_space_newline s)))).
  lia.
Qed.

Lemma cleaning_step_length :
  forall enabled name f st,
  (forall s, length (f s) <= length s)%nat ->
  (length (fst (cleaning_step enabled name f st)) <= length (fst st))%nat.
Proof.
  intros enabled name f st Hf. unfold cleaning_step.
  destruct enabled; [|lia]. destruct (pystr_eqb _ _); simpl; [lia|apply Hf].
Qed.

(** X5: removing URLs, removing references, fixing hyphenation and normalizing spacing never make a text longer; with smart punctuation and OCR repair off, neither does apply_deterministic_cleaning. *)
Theorem cleaning_never_lengthens :
  (forall uword s, (length (_remove_urls uword s) <= length s)%nat)
  /\ (forall s, (length (_remove_references s) <= length s)%nat)
  /\ (forall s, (length (_fix_hyphenation_artifacts s) <= length s)%nat)
  /\ (forall s, (length (_normalize_spacing s) <= length s)%nat)
  /\ (forall uword lexicon t o phase,
      CleaningOptions.replace_smart_quotes o = false ->
      CleaningOptions.fix_ocr_errors o = false ->
      (length (DeterministicCleaningResult.text
                 (apply_deterministic_cleaning uword lexicon t o phase)) <= length t)%nat).
Proof.
  assert (U : forall uword s, (length (_remove_urls uword s) <= length s)%nat).
  { intros uword s. apply re_sub_length_nongrowing, m_url_nongrowing. }
  assert (R : forall s, (length (_remove_references s) <= length s)%nat).
  { intros s. unfold _remove_references.
    pose proof (re_sub_length_nongrowing _
      (shrinking_nongrowing _ (m_reference_shrinking 91 93)) s).
    pose proof (re_sub_length_nongrowing _
      (shrinking_nongrowing _ (m_reference_shrinking 40 41)) (re_sub (m_reference 91 93) s)).
    lia. }
  assert (H : forall s, (length (_fix_hyphenation_artifacts s) <= length s)%nat).
  { intros s. unfold _fix_hyphenation_artifacts.
    pose proof (re_sub_length_nongrowing _ m_hyphen_break_nongrowing s).
    pose proof (re_sub_length_nongrowing _ m_letter_newline_nongrowing
      (re_sub m_hyphen_break s)).
    lia. }
  split; [exact U|]. split; [exact R|]. split; [exact H|].
  split; [exact normalize_spacing_length|].
  intros uword lexicon t o phase Hq Ho.
  unfold apply_deterministic_cleaning, stage_ocr, stage_hyphenation, stage_footnotes,
    stage_urls, stage_smart. simpl.
  rewrite Hq, Ho.
  eapply Nat.le_trans; [apply normalize_spacing_length|].
  unfold cleaning_step at 1 2 3. simpl.
  eapply Nat.le_trans; [apply cleaning_step_length; exact H|].
  eapply Nat.le_trans; [apply cleaning_step_length; exact R|].
  eapply Nat.le_trans; [apply cleaning_step_length; apply U|].
  simpl. lia.
Qed.

Lemma split_points_bounds :
  forall n i, In i (split_points n) -> (3 <= i /\ i + 3 <= n)%nat.
Proof.
  intros n i H. unfold split_points in H. apply in_rev, in_seq in H. lia.
Qed.

Lemma py_lower_length : forall s, length (py_lower s) = length s.
Proof. intros s. apply length_map. Qed.

Lemma firstn_py_lower : forall i s, firstn i (py_lower s) = py_lower (firstn i s).
Proof. intros i s. unfold py_lower. apply firstn_map. Qed.

Lemma skipn_py_lower : forall i s, skipn i (py_lower s) = py_lower (skipn i s).
Proof. intros i s. unfold py_lower. apply skipn_map. Qed.

Lemma find_lexicon_split_aux_sound :
  forall lexicon fuel depth original parts,
  find_lexicon_split_aux lexicon fuel depth original = Some parts ->
  split_ok lexicon original parts.
Proof.
  intros lexicon fuel; induction fuel as [|fuel IH]; intros depth original parts E.
  - simpl in E. destruct (_ || _ || _); discriminate.
  - simpl in E.
    destruct (lexicon (py_lower original) || (3 <? depth)%nat
              || (length (py_lower original) <? 6)%nat); [discriminate|].
    rewrite py_lower_length in E.
    pose proof (split_points_bounds (length original)) as B.
    revert E B. generalize (split_points (length original)) as is.
    intros is; induction is as [|i is IHis]; intros E B; [discriminate|].
    simpl in E.
    assert (Bi : (3 <= i /\ i + 3 <= length original)%nat) by (apply B; left; reflexivity).
    assert (B' : forall j, In j is -> (3 <= j /\ j + 3 <= length original)%nat)
      by (intros j Hj; apply B; right; exact Hj).
    rewrite firstn_py_lower, skipn_py_lower in E.
    destruct (lexicon (py_lower (firstn i original))) eqn:L1; simpl in E;
      [|apply IHis; assumption].
    assert (Lf : length (firstn i original) = i) by (rewrite length_firstn; lia).
    assert (Ls : length (skipn i original) = length original - i)
      by (rewrite length_skipn; reflexivity).
    destruct (lexicon (py_lower (skipn i original))) eqn:L2.
    + injection E as <-. split; [simpl; rewrite app_nil_r; apply firstn_skipn|].
      split; [|simpl; lia].
      repeat constructor; try assumption; lia.
    + destruct (find_lexicon_split_aux lexicon fuel (S depth) (skipn i original))
        as [[|d ds]|] eqn:Ed; try (apply IHis; assumption).
      injection E as <-.
      destruct (IH _ _ _ Ed) as [C [F N]].
      split; [simpl in C |- *; rewrite C; apply firstn_skipn|].
      split; [constructor; [split; [exact L1|lia]|exact F]|].
      simpl in N |- *. lia.
Qed.

Lemma cleaning_never_lengthens_witness :
  let t := of_ascii "See  https://x.org [3] and self- help   now." in
  CleaningOptions.replace_smart_quotes all_off = false
  /\ CleaningOptions.fix_ocr_errors all_off = false
  /\ (length (DeterministicCleaningResult.text
        (apply_deterministic_cleaning latin1_word fallback_lexicon t all_off "pre")) <= length t)%nat.
Proof.
  intros t. split; [reflexivity|]. split; [reflexivity|].
  apply (proj2 (proj2 (proj2 (proj2 cleaning_never_lengthens)))); reflexivity.
Defined.

(** X6: when _find_lexicon_split returns pieces, they concatenate back to the word, each is a lexicon word of at least three letters, there are at least two, and the word itself is at least six letters long and not in the lexicon. *)
Theorem find_lexicon_split_pieces :
  forall lexicon word parts,
  _find_lexicon_split lexicon word = Some parts ->
  concat parts = word
  /\ Forall (fun p => lexicon (py_lower p) = true /\ (3 <= length p)%nat) parts
  /\ (2 <= length parts)%nat
  /\ lexicon (py_lower word) = false /\ (6 <= length word)%nat.
Proof.
  intros lexicon word parts E.
  destruct (find_lexicon_split_aux_sound lexicon 5 0 word parts E) as [C [F N]].
  split; [exact C|]. split; [exact F|]. split; [exact N|].
  unfold _find_lexicon_split in E. simpl in E.
  destruct (lexicon (py_lower word)); [discriminate|].
  rewrite py_lower_length in E.
  destruct (length word <? 6)%nat eqn:L; [discriminate|].
  apply Nat.ltb_ge in L. split; [reflexivity|exact L].
Qed.

Lemma find_lexicon_split_pieces_witness :
  _find_lexicon_split fallback_lexicon (of_ascii "handmade")
    = Some [of_ascii "hand"; of_ascii "made"]
  /\ concat [of_ascii "hand"; of_ascii "made"] = of_ascii "handmade".
Proof.
  assert (E : _find_lexicon_split fallback_lexicon (of_ascii "handmade")
                = Some [of_ascii "hand"; of_ascii "made"]) by (vm_compute; reflexivity).
  split; [exact E|].
  exact (proj1 (find_lexicon_split_pieces fallback_lexicon _ _ E)).
Defined.

Lemma remove_spaces_app : forall a b, remove_spaces (a ++ b) = remove_spaces a ++ remove_spaces b.
Proof. intros a b. apply filter_app. Qed.

Lemma sub_go_remove_spaces :
  forall (m : matcher),
  (forall p s n rep, m p s = Some (S n, rep) ->
     (S n <= length s)%nat /\ remove_spaces rep = remove_spaces (firstn (S n) s)) ->
  forall s k p, remove_spaces (sub_go m k p s) = remove_spaces (skipn k s).
Proof.
  intros m Hm s; induction s as [|c r IH]; intros k p; simpl.
  - destruct k; reflexivity.
  - destruct k as [|k]; [|apply IH].
    destruct (m p (c :: r)) as [[[|n] rep]|] eqn:E.
    + cbn [remove_spaces filter]. rewrite IH. reflexivity.
    + destruct (Hm _ _ _ _ E) as [_ Hr].
      rewrite remove_spaces_app, Hr, IH.
      rewrite <- remove_spaces_app. simpl firstn. simpl skipn.
      change (c :: firstn n r ++ skipn n r) with ((c :: firstn n r) ++ skipn n r).
      rewrite <- app_comm_cons, firstn_skipn. reflexivity.
    + cbn [remove_spaces filter]. rewrite IH. reflexivity.
Qed.

Lemma firstn_take_while :
  forall p r, firstn (length (take_while p r)) r = take_while p r.
Proof.
  intros p r; induction r as [|c r IH]; simpl; [reflexivity|].
  destruct (p c); simpl; [rewrite IH|]; reflexivity.
Qed.

Lemma remove_spaces_join :
  forall parts, remove_spaces (py_join [32%Z] parts) = remove_spaces (concat parts).
Proof.
  intros parts; induction parts as [|p ps IH]; [reflexivity|].
  destruct ps as [|q qs].
  - simpl. rewrite app_nil_r. reflexivity.
  - change (py_join [32%Z] (p :: q :: qs)) with (p ++ [32%Z] ++ py_join [32%Z] (q :: qs)).
    rewrite !remove_spaces_app, IH.
    change (concat (p :: q :: qs)) with (p ++ concat (q :: qs)).
    rewrite remove_spaces_app. reflexivity.
Qed.

Lemma merged_repl_spaces :
  forall lexicon word, remove_spaces (merged_repl lexicon word) = remove_spaces word.
Proof.
  intros lexicon word. unfold merged_repl.
  destruct (30 <? length word)%nat; [reflexivity|].
  destruct (lexicon (py_lower word)); [reflexivity|].
  destruct (_find_lexicon_split lexicon word) as [[|p ps]|] eqn:E; try reflexivity.
  rewrite remove_spaces_join.
  destruct (find_lexicon_split_aux_sound lexicon 5 0 word (p :: ps) E) as [C _].
  rewrite C. reflexivity.
Qed.

(** X7: _split_camel_case and _split_merged_words only insert spaces: removing the spaces from their output gives the input without its spaces. *)
Theorem ocr_repair_only_inserts_spaces :
  forall uword lexicon s,
  remove_spaces (_split_camel_case s) = remove_spaces s
  /\ remove_spaces (_split_merged_words uword lexicon s) = remove_spaces s.
Proof.
  intros uword lexicon s. split.
  - unfold _split_camel_case, re_sub.
    apply (sub_go_remove_spaces m_camel); clear s.
    intros p s n rep E. unfold m_camel in E.
    destruct s as [|a [|b [|c r]]]; try discriminate.
    destruct (is_ascii_lower a && is_ascii_upper b && is_ascii_lower c); [|discriminate].
    injection E as En <-.
    pose proof (take_drop_while_length is_ascii_lower r) as L.
    rewrite <- En. split; [simpl; lia|].
    simpl firstn. rewrite firstn_take_while. simpl.
    destruct (a =? 32)%Z; reflexivity.
  - unfold _split_merged_words, re_sub.
    apply (sub_go_remove_spaces (m_merged_word uword lexicon)); clear s.
    intros p s n rep E. unfold m_merged_word in E.
    destruct s as [|c r]; [discriminate|].
    pose proof (take_drop_while_length is_ascii_letter (c :: r)) as L.
    pose proof (firstn_take_while is_ascii_letter (c :: r)) as F.
    set (run := take_while is_ascii_letter (c :: r)) in *.
    destruct (_ && _ && _ && _); [|discriminate].
    injection E as En <-.
    rewrite <- En. split; [lia|].
    rewrite F. apply merged_repl_spaces.
Qed.

(** * Cleaning: the code points of the output *)

Lemma sub_go_forall_keep_in :
  forall (m : matcher) (Q : Z -> Prop),
  (forall p s n rep, m p s = Some (n, rep) -> Forall Q s -> Forall Q rep) ->
  forall s k p, Forall Q s -> Forall Q (sub_go m k p s).
Proof.
  intros m Q Hrep s; induction s as [|c r IH]; intros k p H; simpl; [constructor|].
  inversion H as [|? ? Hc Hr]; subst.
  destruct k as [|k]; [|apply IH; exact Hr].
  destruct (m p (c :: r)) as [[[|n] rep]|] eqn:E.
  - constructor; [exact Hc|apply IH; exact Hr].
  - apply Forall_app. split; [exact (Hrep _ _ _ _ E H)|apply IH; exact Hr].
  - constructor; [exact Hc|apply IH; exact Hr].
Qed.

Lemma take_while_forall :
  forall (Q : Z -> Prop) p s, Forall Q s -> Forall Q (take_while p s).
Proof.
  intros Q p s H. induction H as [|c r Hc Hr IH]; simpl; [constructor|].
  destruct (p c); [constructor; assumption|constructor].
Qed.

Lemma py_join_space_forall :
  forall (Q : Z -> Prop), Q 32%Z ->
  forall parts, Forall Q (concat parts) -> Forall Q (py_join [32%Z] parts).
Proof.
  intros Q H32 parts; induction parts as [|p ps IH]; intros H; simpl; [constructor|].
  simpl in H. apply Forall_app in H. destruct H as [Hp Hps].
  destruct ps as [|q qs]; [exact Hp|].
  apply Forall_app. split; [exact Hp|]. constructor; [exact H32|]. apply IH. exact Hps.
Qed.

Lemma cleaning_step_forall :
  forall (Q : Z -> Prop) enabled name f st,
  (forall s, Forall Q s -> Forall Q (f s)) ->
  Forall Q (fst st) -> Forall Q (fst (cleaning_step enabled name f st)).
Proof.
  intros Q enabled name f st Hf H. unfold cleaning_step.
  destruct enabled; [|exact H]. destruct (pystr_eqb _ _); simpl; [exact H|apply Hf; exact H].
Qed.

Lemma merged_repl_forall :
  forall (Q : Z -> Prop) lexicon word, Q 32%Z -> Forall Q word ->
  Forall Q (merged_repl lexicon word).
Proof.
  intros Q lexicon word H32 H. unfold merged_repl.
  destruct (30 <? length word)%nat; [exact H|].
  destruct (lexicon (py_lower word)); [exact H|].
  destruct (_find_lexicon_split lexicon word) as [[|p ps]|] eqn:E; try exact H.
  apply py_join_space_forall; [exact H32|].
  destruct (find_lexicon_split_aux_sound lexicon 5 0 word (p :: ps) E) as [C _].
  rewrite C. exact H.
Qed.

Lemma cleaning_functions_forall :
  forall (Q : Z -> Prop), Q 10%Z -> Q 32%Z ->
  (forall uword s, Forall Q s -> Forall Q (_remove_urls uword s))
  /\ (forall s, Forall Q s -> Forall Q (_remove_references s))
  /\ (forall s, Forall Q s -> Forall Q (_fix_hyphenation_artifacts s))
  /\ (forall s, Forall Q s -> Forall Q (_split_camel_case s))
  /\ (forall uword lexicon s, Forall Q s -> Forall Q (_split_merged_words uword lexicon s)).
Proof.
  intros Q H10 H32.
  split; [|split; [|split; [|split]]].
  - intros uword s H. unfold _remove_urls, re_sub. apply sub_go_forall_keep; [|exact H].
    intros p t n rep E. unfold m_url in E. destruct t as [|c r]; [discriminate|].
    destruct (_ && _); [|discriminate]. injection E as _ <-. repeat constructor; assumption.
  - intros s H. unfold _remove_references, re_sub.
    assert (K : forall op cl t, Forall Q t -> Forall Q (sub_go (m_reference op cl) 0 None t)).
    { intros op cl t Ht. apply sub_go_forall_keep; [|exact Ht].
      intros p u n rep E. unfold m_reference in E. destruct u as [|c r]; [discriminate|].
      destruct (c =? op)%Z; [|discriminate].
      destruct (drop_while _ r); [discriminate|].
      destruct (ref_interior_ok _); [|discriminate].
      injection E as _ <-. repeat constructor; assumption. }
    apply K, K, H.
  - intros s H. unfold _fix_hyphenation_artifacts, re_sub.
    apply sub_go_forall_keep.
    { intros p t n rep E. unfold m_letter_newline in E. destruct t as [|c r]; [discriminate|].
      destruct (_ && _ && _); [|discriminate]. injection E as _ <-.
      repeat constructor; assumption. }
    apply sub_go_forall_keep; [|exact H].
    intros p t n rep E. unfold m_hyphen_break in E. destruct t as [|c r]; [discriminate|].
    destruct (_ && _); [|discriminate]. destruct (_ && _); [|discriminate].
    injection E as _ <-. constructor.
  - intros s H. unfold _split_camel_case, re_sub. apply sub_go_forall_keep_in; [|exact H].
    intros p t n rep E Ht. unfold m_camel in E.
    destruct t as [|a [|b [|c r]]]; try discriminate.
    destruct (_ && _ && _); [|discriminate]. injection E as _ <-.
    inversion Ht as [|? ? Ha Ht1]; subst. inversion Ht1 as [|? ? Hb Ht2]; subst.
    inversion Ht2 as [|? ? Hc Hr]; subst.
    repeat constructor; try assumption. apply take_while_forall. exact Hr.
  - intros uword lexicon s H. unfold _split_merged_words, re_sub.
    apply sub_go_forall_keep_in; [|exact H].
    intros p t n rep E Ht. unfold m_merged_word in E. destruct t as [|c r]; [discriminate|].
    pose proof (take_while_forall Q is_ascii_letter (c :: r) Ht) as Hrun.
    set (run := take_while is_ascii_letter (c :: r)) in *.
    destruct (_ && _ && _ && _); [|discriminate]. injection E as _ <-.
    apply merged_repl_forall; [exact H32|exact Hrun].
Qed.

(** X8: every character of the cleaned text satisfies any property that holds of every input character, of the line break and the space, and (when smart quotes are replaced) of the plain quote, apostrophe, hyphen and period. *)
Theorem cleaning_introduces_no_new_characters :
  forall (Q : Z -> Prop) uword lexicon t o phase,
  Q 10%Z -> Q 32%Z ->
  (CleaningOptions.replace_smart_quotes o = true -> Q 34%Z /\ Q 39%Z /\ Q 45%Z /\ Q 46%Z) ->
  Forall Q t ->
  Forall Q (DeterministicCleaningResult.text
              (apply_deterministic_cleaning uword lexicon t o phase)).
Proof.
  intros Q uword lexicon t o phase H10 H32 Hs H.
  destruct (cleaning_functions_forall Q H10 H32) as [U [R [Hy [Ca Me]]]].
  unfold apply_deterministic_cleaning. simpl.
  apply normalize_spacing_forall; [exact H10|exact H32|].
  unfold stage_ocr, stage_hyphenation, stage_footnotes, stage_urls.
  repeat (apply cleaning_step_forall; [solve [auto]|]).
  unfold stage_smart, cleaning_step.
  destruct (CleaningOptions.replace_smart_quotes o) eqn:Eo; [|exact H].
  destruct (pystr_eqb _ _); simpl; [exact H|].
  destruct (Hs eq_refl) as [Q34 [Q39 [Q45 Q46]]].
  unfold _replace_smart_punctuation, re_sub.
  apply sub_go_forall_keep.
  { intros p u n rep E. unfold m_nbsp in E. destruct u as [|c r]; [discriminate|].
    destruct (c =? 160)%Z; [|discriminate]. injection E as _ <-. repeat constructor; assumption. }
  apply sub_go_forall_keep; [|exact H].
  intros p u n rep E. unfold m_smart_punctuation in E. destruct u as [|c r]; [discriminate|].
  destruct (smart_replacement c) as [rep'|] eqn:Ec; [|discriminate].
  injection E as _ <-.
  destruct (smart_replacement_cases c rep' Ec) as [ -> | [ -> | [ -> | -> ]]]; repeat constructor; assumption.
Qed.

Lemma cleaning_introduces_no_new_characters_witness :
  let ascii := fun c : Z => (0 <= c < 128)%Z in
  Forall ascii (DeterministicCleaningResult.text
    (apply_deterministic_cleaning latin1_word fallback_lexicon
       (of_ascii "Visit http://x.org  now [12] for self-\nhelp.") CleaningOptions.default "pre")).
Proof.
  intros ascii.
  apply cleaning_introduces_no_new_characters.
  - unfold ascii; lia.
  - unfold ascii; lia.
  - intros _. unfold ascii. repeat split; lia.
  - unfold ascii. vm_compute. repeat constructor; discriminate.
Defined.

(** X9: with replace_smart_quotes on, the text returned by apply_deterministic_cleaning contains no smart punctuation and no non-breaking space. *)
Theorem cleaning_output_has_no_smart_punctuation :
  forall uword lexicon t o phase,
  CleaningOptions.replace_smart_quotes o = true ->
  Forall plain (DeterministicCleaningResult.text
                  (apply_deterministic_cleaning uword lexicon t o phase)).
Proof.
  intros uword lexicon t o phase Eo.
  assert (P10 : plain 10%Z) by (split; [reflexivity|discriminate]).
  assert (P32 : plain 32%Z) by (split; [reflexivity|discriminate]).
  destruct (cleaning_functions_forall plain P10 P32) as [U [R [Hy [Ca Me]]]].
  unfold apply_deterministic_cleaning. simpl.
  apply normalize_spacing_forall; [exact P10|exact P32|].
  unfold stage_ocr, stage_hyphenation, stage_footnotes, stage_urls.
  repeat (apply cleaning_step_forall; [solve [auto]|]).
  rewrite stage_smart_text, Eo. apply replace_smart_punctuation_plain.
Qed.

Lemma cleaning_output_has_no_smart_punctuation_witness :
  let t := [8220; 72; 105; 8221; 160; 8212; 32; 8230]%Z in
  CleaningOptions.replace_smart_quotes CleaningOptions.default = true
  /\ Forall plain (DeterministicCleaningResult.text
       (apply_deterministic_cleaning latin1_word fallback_lexicon t CleaningOptions.default "post")).
Proof.
  intros t. split; [reflexivity|].
  apply cleaning_output_has_no_smart_punctuation. reflexivity.
Defined.

(** * Cleaning: idempotence *)

Lemma mem_url_char :
  forall c l, mem c l = true -> forallb is_url_char l = true -> is_url_char c = true.
Proof.
  intros c l H F. unfold mem in H. apply existsb_exists in H. destruct H as [x [Hx E]].
  apply Z.eqb_eq in E. subst x. rewrite forallb_forall in F. exact (F c Hx).
Qed.

Lemma is_char_url :
  forall k c, is_url_char k = true -> is_char k c = true -> is_url_char c = true.
Proof. intros k c Hk H. unfold is_char in H. apply Z.eqb_eq in H. subst. exact Hk. Qed.

Lemma url_preds_ok :
  forall ps, In ps [[ci_h; ci_t; ci_t; ci_p; ci_s; is_char 58; is_char 47; is_char 47];
                    [ci_h; ci_t; ci_t; ci_p; is_char 58; is_char 47; is_char 47];
                    [ci_w; ci_w; ci_w; is_char 46]] ->
  Forall (fun p : Z -> bool => forall c, p c = true -> is_url_char c = true) ps.
Proof.
  intros ps Hps.
  assert (Ht : forall c, ci_t c = true -> is_url_char c = true)
    by (intros c H; exact (mem_url_char c _ H eq_refl)).
  assert (Hp : forall c, ci_p c = true -> is_url_char c = true)
    by (intros c H; exact (mem_url_char c _ H eq_refl)).
  assert (Hs : forall c, ci_s c = true -> is_url_char c = true)
    by (intros c H; exact (mem_url_char c _ H eq_refl)).
  assert (Hh : forall c, ci_h c = true -> is_url_char c = true)
    by (intros c H; exact (mem_url_char c _ H eq_refl)).
  assert (Hw : forall c, ci_w c = true -> is_url_char c = true)
    by (intros c H; exact (mem_url_char c _ H eq_refl)).
  assert (H58 : forall c, is_char 58 c = true -> is_url_char c = true)
    by (intros c; exact (is_char_url 58 c eq_refl)).
  assert (H47 : forall c, is_char 47 c = true -> is_url_char c = true)
    by (intros c; exact (is_char_url 47 c eq_refl)).
  assert (H46 : forall c, is_char 46 c = true -> is_url_char c = true)
    by (intros c; exact (is_char_url 46 c eq_refl)).
  destruct Hps as [<-|[<-|[<-|[]]]]; repeat constructor; assumption.
Qed.

Lemma url_tail_take :
  forall ps, Forall (fun p : Z -> bool => forall c, p c = true -> is_url_char c = true) ps ->
  forall s,
  match match_preds ps s with Some r => head_test is_url_char r | None => false end
  = match match_preds ps (take_while is_url_char s) with
    | Some r => head_test is_url_char r | None => false end.
Proof.
  induction ps as [|p ps IH]; intros HF s.
  - destruct s as [|c r]; [reflexivity|]. simpl.
    destruct (is_url_char c) eqn:E; simpl; rewrite ?E; reflexivity.
  - inversion HF as [|? ? Hp HF']; subst. destruct s as [|c r]; [reflexivity|].
    cbn [match_preds take_while].
    destruct (p c) eqn:Ep.
    + rewrite (Hp c Ep). cbn [match_preds]. rewrite Ep. apply IH. exact HF'.
    + destruct (is_url_char c); cbn [match_preds]; [rewrite Ep|]; reflexivity.
Qed.

Lemma url_prefix_ok_take :
  forall s, url_prefix_ok s = url_prefix_ok (take_while is_url_char s).
Proof.
  intros s. unfold url_prefix_ok. cbv zeta.
  rewrite (url_tail_take _ (url_preds_ok _ (or_introl eq_refl)) s).
  rewrite (url_tail_take _ (url_preds_ok _ (or_intror (or_introl eq_refl))) s).
  rewrite (url_tail_take _ (url_preds_ok _ (or_intror (or_intror (or_introl eq_refl)))) s).
  reflexivity.
Qed.

Lemma match_preds_app :
  forall ps s r z, match_preds ps s = Some r -> match_preds ps (s ++ z) = Some (r ++ z).
Proof.
  induction ps as [|p ps IH]; intros s r z H.
  - simpl in *. injection H as <-. reflexivity.
  - destruct s as [|c s]; [discriminate|]. simpl in *.
    destruct (p c); [apply IH; exact H|discriminate].
Qed.

Lemma url_tail_app :
  forall ps s z,
  match match_preds ps s with Some r => head_test is_url_char r | None => false end = true ->
  match match_preds ps (s ++ z) with Some r => head_test is_url_char r | None => false end
  = true.
Proof.
  intros ps s z H. destruct (match_preds ps s) as [r|] eqn:E; [|discriminate].
  rewrite (match_preds_app _ _ _ z E). destruct r; [discriminate|exact H].
Qed.

Lemma url_prefix_ok_app :
  forall s z, url_prefix_ok s = true -> url_prefix_ok (s ++ z) = true.
Proof.
  intros s z H. unfold url_prefix_ok in *. cbv zeta in *.
  repeat rewrite orb_true_iff in *.
  destruct H as [[H|H]|H]; [left; left|left; right|right]; apply url_tail_app; exact H.
Qed.

Lemma url_prefix_ok_head :
  forall c r, url_prefix_ok (c :: r) = true -> ci_h c = true \/ ci_w c = true.
Proof.
  intros c r H. unfold url_prefix_ok in H. cbv zeta in H. cbn [match_preds] in H.
  destruct (ci_h c); [left; reflexivity|]. destruct (ci_w c); [right; reflexivity|].
  discriminate.
Qed.

Lemma url_start :
  forall uword p c r, m_url uword p (c :: r) <> None ->
  is_url_char c = true /\ is_word uword c = true.
Proof.
  intros uword p c r H. unfold m_url in H.
  destruct (boundary uword p c && url_prefix_ok (c :: r)) eqn:B; [|congruence].
  apply andb_true_iff in B as [_ U].
  destruct (url_prefix_ok_head c r U) as [Hc|Hc]; split;
    try exact (mem_url_char c _ Hc eq_refl);
    unfold ci_h, ci_w, mem in Hc; simpl in Hc;
    repeat (apply orb_true_iff in Hc; destruct Hc as [Hc|Hc]); try discriminate;
    apply Z.eqb_eq in Hc; subst; reflexivity.
Qed.

Lemma m_url_non_url :
  forall uword p c r, is_url_char c = false -> m_url uword p (c :: r) = None.
Proof.
  intros uword p c r H. destruct (m_url uword p (c :: r)) eqn:E; [|reflexivity].
  exfalso. destruct (url_start uword p c r) as [Hc _]; [congruence|]. congruence.
Qed.

Lemma m_url_some :
  forall uword p c r n rep, m_url uword p (c :: r) = Some (n, rep) ->
  n = length (take_while is_url_char (c :: r)) /\ rep = [32%Z].
Proof.
  intros uword p c r n rep E. unfold m_url in E.
  destruct (_ && _); [injection E as <- <-; split; reflexivity|discriminate].
Qed.

Lemma m_url_cong :
  forall uword p q c r r',
  opt_test (is_word uword) p = opt_test (is_word uword) q ->
  take_while is_url_char r = take_while is_url_char r' ->
  m_url uword p (c :: r) = None -> m_url uword q (c :: r') = None.
Proof.
  intros uword p q c r r' Hp Hr E. unfold m_url, boundary in *.
  rewrite <- Hp.
  rewrite (url_prefix_ok_take (c :: r')). cbn [take_while]. rewrite <- Hr.
  rewrite (url_prefix_ok_take (c :: r)) in E. cbn [take_while] in E.
  destruct (_ && _); [discriminate|reflexivity].
Qed.

Lemma m_url_cons :
  forall uword p c r,
  m_url uword p (c :: r)
  = if boundary uword p c && url_prefix_ok (c :: r)
    then Some (length (take_while is_url_char (c :: r)), [32%Z]) else None.
Proof. reflexivity. Qed.

Lemma sub_go_cons0 :
  forall m p c r,
  sub_go m 0 p (c :: r)
  = match m p (c :: r) with
    | Some (S n, rep) => rep ++ sub_go m n (Some c) r
    | _ => c :: sub_go m 0 (Some c) r
    end.
Proof. reflexivity. Qed.

Lemma url_free_cons :
  forall uword p c r,
  url_free uword p (c :: r)
  = match m_url uword p (c :: r) with Some _ => false | None => url_free uword (Some c) r end.
Proof. reflexivity. Qed.

Lemma url_free_sub_id :
  forall uword s p, url_free uword p s = true -> sub_go (m_url uword) 0 p s = s.
Proof.
  intros uword s; induction s as [|c r IH]; intros p H; [reflexivity|].
  rewrite url_free_cons in H. rewrite sub_go_cons0.
  destruct (m_url uword p (c :: r)); [discriminate|].
  f_equal. apply IH. exact H.
Qed.

Lemma sub_go_skip_any :
  forall m s n p, exists p', sub_go m n p s = sub_go m 0 p' (skipn n s).
Proof.
  intros m s; induction s as [|c r IH]; intros n p.
  - exists p. destruct n; reflexivity.
  - destruct n as [|n]; [exists p; reflexivity|]. apply IH.
Qed.

Lemma remove_urls_take_prefix :
  forall uword s p, exists z, s = take_while is_url_char (sub_go (m_url uword) 0 p s) ++ z.
Proof.
  intros uword s; induction s as [|c r IH]; intros p; [exists []; reflexivity|].
  rewrite sub_go_cons0.
  destruct (m_url uword p (c :: r)) as [[[|n] rep]|] eqn:E.
  - destruct (IH (Some c)) as [z Hz]. cbn [take_while].
    destruct (is_url_char c); [exists z; simpl; f_equal; exact Hz|exists (c :: r); reflexivity].
  - destruct (m_url_some _ _ _ _ _ _ E) as [_ ->]. exists (c :: r). reflexivity.
  - destruct (IH (Some c)) as [z Hz]. cbn [take_while].
    destruct (is_url_char c); [exists z; simpl; f_equal; exact Hz|exists (c :: r); reflexivity].
Qed.

Lemma remove_urls_url_free_gen :
  forall uword s p q,
  (opt_test (is_word uword) q = opt_test (is_word uword) p
   \/ head_test is_url_char s = false) ->
  url_free uword q (sub_go (m_url uword) 0 p s) = true.
Proof.
  intros uword s. induction s as [s IH] using len_ind. intros p q Hpq.
  destruct s as [|c r]; [reflexivity|].
  rewrite sub_go_cons0.
  destruct (m_url uword p (c :: r)) as [[[|n] rep]|] eqn:E.
  - exfalso. destruct (m_url_some _ _ _ _ _ _ E) as [L _].
    destruct (url_start uword p c r) as [Hc _]; [congruence|].
    simpl in L. rewrite Hc in L. discriminate.
  - destruct (m_url_some _ _ _ _ _ _ E) as [L ->].
    destruct (url_start uword p c r) as [Hc _]; [congruence|].
    simpl in L. rewrite Hc in L. simpl in L. injection L as L.
    destruct (sub_go_skip_any (m_url uword) r n (Some c)) as [p' Ep]. rewrite Ep.
    simpl app. rewrite url_free_cons, m_url_non_url by reflexivity.
    apply IH.
    + rewrite length_skipn. simpl. lia.
    + right. rewrite L, skipn_take_while. apply head_test_drop_while.
  - rewrite url_free_cons.
    destruct (m_url uword q (c :: sub_go (m_url uword) 0 (Some c) r)) eqn:F.
    + exfalso.
      destruct (url_start uword q c (sub_go (m_url uword) 0 (Some c) r)) as [Hc Hw];
        [congruence|].
      destruct Hpq as [Hpq|Hpq]; [|simpl in Hpq; congruence].
      destruct (remove_urls_take_prefix uword r (Some c)) as [z Hz].
      rewrite m_url_cons in E, F. unfold boundary in E, F. rewrite Hpq in F.
      destruct (xorb (opt_test (is_word uword) p) (is_word uword c)); cbn [andb] in E, F;
        [|discriminate F].
      destruct (url_prefix_ok (c :: sub_go (m_url uword) 0 (Some c) r)) eqn:U;
        [|discriminate F].
      rewrite url_prefix_ok_take in U. cbn [take_while] in U. rewrite Hc in U.
      apply (url_prefix_ok_app _ z) in U. rewrite <- app_comm_cons, <- Hz in U.
      rewrite U in E. discriminate E.
    + apply IH; [simpl; lia|]. left. reflexivity.
Qed.

Lemma hspace_py_space : forall c, is_hspace c = true -> is_py_space c = true.
Proof.
  intros c H. unfold is_hspace in H. apply orb_true_iff in H.
  destruct H as [H|H]; apply Z.eqb_eq in H; subst; reflexivity.
Qed.

Lemma nl_py_space : forall c, is_nl c = true -> is_py_space c = true.
Proof. intros c H. unfold is_nl in H. apply Z.eqb_eq in H. subst. reflexivity. Qed.

Lemma forallb_take_while :
  forall (p q : Z -> bool), (forall c, p c = true -> q c = true) ->
  forall s, forallb q (take_while p s) = true.
Proof.
  intros p q H s; induction s as [|c r IH]; simpl; [reflexivity|].
  destruct (p c) eqn:E; simpl; [rewrite (H c E); exact IH|reflexivity].
Qed.

Lemma firstn_take_while_plus :
  forall p s k,
  firstn (length (take_while p s) + k) s = take_while p s ++ firstn k (drop_while p s).
Proof.
  intros p s k; induction s as [|c r IH]; simpl; [destruct k; reflexivity|].
  destruct (p c); simpl; [f_equal; exact IH|reflexivity].
Qed.

Lemma sub_go_wsrel :
  forall m : matcher,
  (forall p c r n rep, m p (c :: r) = Some (S n, rep) ->
     rep <> [] /\ forallb is_py_space rep = true
     /\ forallb is_py_space (firstn (S n) (c :: r)) = true) ->
  forall s p, wsrel s (sub_go m 0 p s).
Proof.
  intros m Hm s. induction s as [s IH] using len_ind. intros p.
  destruct s as [|c r]; [constructor|].
  rewrite sub_go_cons0.
  destruct (m p (c :: r)) as [[[|n] rep]|] eqn:E.
  - constructor. apply IH. simpl. lia.
  - destruct (Hm _ _ _ _ _ E) as [Hr [Hrs Hf]].
    destruct (sub_go_skip_any m r n (Some c)) as [p' Ep]. rewrite Ep.
    rewrite <- (firstn_skipn (S n) (c :: r)). cbn [skipn].
    apply wsrel_block; [discriminate|exact Hr|exact Hf|exact Hrs|].
    apply IH. rewrite length_skipn. simpl. lia.
  - constructor. apply IH. simpl. lia.
Qed.

Lemma normalize_matchers_wsrel :
  forall s,
  wsrel s (re_sub m_space_newline s)
  /\ wsrel s (re_sub m_newline_space s)
  /\ wsrel s (re_sub m_multi_space s)
  /\ wsrel s (re_sub m_excess_newlines s).
Proof.
  intros s. unfold re_sub. split; [|split; [|split]]; apply sub_go_wsrel.
  - intros p c r n rep E. unfold m_space_newline in E.
    destruct (is_hspace c && head_test is_nl (drop_while is_hspace (c :: r))) eqn:B;
      [|discriminate].
    injection E as En <-. split; [discriminate|]. split; [reflexivity|].
    apply andb_true_iff in B as [_ B]. rewrite <- En.
    assert (K : forallb is_py_space
                  (firstn (length (take_while is_hspace (c :: r)) + 1) (c :: r)) = true).
    { rewrite firstn_take_while_plus, forallb_app.
      rewrite (forallb_take_while _ _ hspace_py_space).
      destruct (drop_while is_hspace (c :: r)) as [|d ds]; [discriminate|].
      simpl in *. rewrite (nl_py_space d B). reflexivity. }
    rewrite Nat.add_1_r in K. exact K.
  - intros p c r n rep E. unfold m_newline_space in E.
    destruct (is_nl c && head_test is_hspace r) eqn:B; [|discriminate].
    injection E as En <-. split; [discriminate|]. split; [reflexivity|].
    apply andb_true_iff in B as [B _]. subst n. cbn [firstn forallb].
    rewrite (nl_py_space c B), firstn_take_while.
    apply forallb_take_while, hspace_py_space.
  - intros p c r n rep E. remember (c :: r) as s0 eqn:Es. unfold m_multi_space in E.
    destruct (2 <=? _)%nat; [|discriminate].
    injection E as En <-. split; [discriminate|]. split; [reflexivity|].
    rewrite <- En, firstn_take_while. apply forallb_take_while, hspace_py_space.
  - intros p c r n rep E. remember (c :: r) as s0 eqn:Es. unfold m_excess_newlines in E.
    destruct (3 <=? _)%nat; [|discriminate].
    injection E as En <-. split; [discriminate|]. split; [reflexivity|].
    rewrite <- En, firstn_take_while. apply forallb_take_while, nl_py_space.
Qed.

Lemma space_not_url : forall c, is_py_space c = true -> is_url_char c = false.
Proof. intros c H. unfold is_url_char. rewrite H. reflexivity. Qed.

Lemma space_not_word_is_word :
  forall uword, space_not_word uword ->
  forall c, is_py_space c = true -> is_word uword c = false.
Proof.
  intros uword Hu c H. unfold is_word. destruct (c <? 128)%Z eqn:L; [|exact (Hu c H)].
  apply Z.ltb_lt in L.
  assert (B : (c <= 32)%Z).
  { unfold is_py_space, in_range in H.
    repeat (apply orb_true_iff in H; destruct H as [H|H]);
      try (apply andb_true_iff in H; destruct H as [H1 H2];
           apply Z.leb_le in H1, H2; lia);
      apply Z.eqb_eq in H; lia. }
  assert (R : forall lo hi, (33 <= lo)%Z -> in_range lo hi c = false).
  { intros lo hi Hlo. unfold in_range. rewrite (proj2 (Z.leb_gt lo c)) by lia. reflexivity. }
  unfold is_ascii_letter, is_ascii_lower, is_ascii_upper, is_ascii_digit.
  rewrite !R by lia. rewrite (proj2 (Z.eqb_neq c 95)) by lia. reflexivity.
Qed.

Lemma take_while_url_spaces :
  forall m, forallb is_py_space m = true -> forall s, m <> [] ->
  take_while is_url_char (m ++ s) = [].
Proof.
  intros [|c m] H s Hne; [congruence|]. simpl in H. apply andb_true_iff in H as [H _].
  simpl. rewrite (space_not_url c H). reflexivity.
Qed.

Lemma wsrel_take :
  forall s s', wsrel s s' -> take_while is_url_char s = take_while is_url_char s'.
Proof.
  intros s s' W. induction W as [|c s s' W IH|m r s s' Hm Hr Hms Hrs W IH|m Hm].
  - reflexivity.
  - simpl. rewrite IH. reflexivity.
  - rewrite !take_while_url_spaces by assumption. reflexivity.
  - destruct m as [|c m]; [reflexivity|]. simpl in Hm. apply andb_true_iff in Hm as [Hm _].
    simpl. rewrite (space_not_url c Hm). reflexivity.
Qed.

Lemma last_py_space :
  forall m d, m <> [] -> forallb is_py_space m = true -> is_py_space (last m d) = true.
Proof.
  intros m d; induction m as [|c m IH]; intros Hne H; [congruence|].
  simpl in H. apply andb_true_iff in H as [Hc Hm].
  destruct m as [|c' m]; [exact Hc|]. apply IH; [discriminate|exact Hm].
Qed.

Lemma url_free_spaces :
  forall uword m s p, m <> [] -> forallb is_py_space m = true ->
  url_free uword p (m ++ s) = url_free uword (Some (last m 0%Z)) s.
Proof.
  intros uword m s; induction m as [|c m IH]; intros p Hne H; [congruence|].
  simpl in H. apply andb_true_iff in H as [Hc Hm].
  cbn [app]. rewrite url_free_cons, m_url_non_url by (apply space_not_url; exact Hc).
  destruct m as [|c' m]; [reflexivity|].
  rewrite IH by (discriminate || exact Hm). reflexivity.
Qed.

Lemma wsrel_url_free :
  forall uword, space_not_word uword ->
  forall s s', wsrel s s' ->
  forall p p', opt_test (is_word uword) p = opt_test (is_word uword) p' ->
  url_free uword p s = true -> url_free uword p' s' = true.
Proof.
  intros uword Hu s s' W.
  induction W as [|c s s' W IH|m r s s' Hm Hr Hms Hrs W IH|m Hm]; intros p p' Hp H.
  - reflexivity.
  - rewrite url_free_cons in *.
    destruct (m_url uword p (c :: s)) eqn:E; [discriminate|].
    rewrite (m_url_cong uword p p' c s s' Hp (wsrel_take s s' W) E).
    apply (IH (Some c)); [reflexivity|exact H].
  - rewrite url_free_spaces in * by assumption.
    apply (IH (Some (last m 0%Z))); [|exact H]. simpl.
    rewrite !(space_not_word_is_word uword Hu) by (apply last_py_space; assumption).
    reflexivity.
  - reflexivity.
Qed.

Lemma wsrel_refl : forall s, wsrel s s.
Proof. intros s; induction s; constructor; assumption. Qed.

Lemma wsrel_app_tail :
  forall w v, forallb is_py_space v = true -> wsrel (w ++ v) w.
Proof.
  intros w v H; induction w as [|c w IH]; simpl; [apply wsrel_tail; exact H|].
  constructor. exact IH.
Qed.

Lemma py_strip_split :
  forall s, exists u v, s = u ++ py_strip s ++ v
  /\ forallb is_py_space u = true /\ forallb is_py_space v = true.
Proof.
  intros s. unfold py_strip, py_lstrip.
  set (L := drop_while is_py_space s).
  exists (take_while is_py_space s), (rev (take_while is_py_space (rev L))).
  split; [|split].
  - rewrite <- rev_app_distr, <- take_drop_while_app, rev_involutive.
    apply take_drop_while_app.
  - apply forallb_take_while. tauto.
  - rewrite forallb_rev. apply forallb_take_while. tauto.
Qed.

Lemma py_strip_url_free :
  forall uword, space_not_word uword ->
  forall s, url_free uword None s = true -> url_free uword None (py_strip s) = true.
Proof.
  intros uword Hu s H.
  destruct (py_strip_split s) as [u [v [E [Hu' Hv]]]]. rewrite E in H.
  apply (wsrel_url_free uword Hu (py_strip s ++ v) (py_strip s) (wsrel_app_tail _ _ Hv)
           (match u with [] => None | _ => Some (last u 0%Z) end)).
  - destruct u as [|c u]; [reflexivity|]. cbn [opt_test].
    rewrite (space_not_word_is_word uword Hu) by (apply last_py_space; [discriminate|exact Hu']).
    reflexivity.
  - destruct u as [|c u]; [exact H|].
    rewrite url_free_spaces in H by (discriminate || exact Hu'). exact H.
Qed.

Lemma normalize_spacing_url_free :
  forall uword, space_not_word uword ->
  forall s, url_free uword None s = true -> url_free uword None (_normalize_spacing s) = true.
Proof.
  intros uword Hu s H. unfold _normalize_spacing.
  apply py_strip_url_free; [exact Hu|].
  repeat match goal with
  | |- url_free uword None (re_sub ?m ?t) = true =>
      let W := fresh "W" in
      assert (W : wsrel t (re_sub m t)) by apply normalize_matchers_wsrel;
      apply (wsrel_url_free uword Hu _ _ W None None eq_refl)
  end.
  exact H.
Qed.

Lemma cleaning_step_fst :
  forall enabled name f s l,
  fst (cleaning_step enabled name f (s, l)) = if enabled then f s else s.
Proof.
  intros enabled name f s l. unfold cleaning_step.
  destruct enabled; [|reflexivity]. simpl.
  destruct (pystr_eqb (f s) s) eqn:E; [|reflexivity].
  apply pystr_eqb_true in E. symmetry. exact E.
Qed.

Lemma cleaning_step_unchanged :
  forall enabled name f s l, (enabled = true -> f s = s) ->
  cleaning_step enabled name f (s, l) = (s, l).
Proof.
  intros enabled name f s l H. unfold cleaning_step.
  destruct enabled; [|reflexivity]. simpl. rewrite (H eq_refl), pystr_eqb_refl. reflexivity.
Qed.

Lemma apply_no_rewriting :
  forall uword lexicon t o phase, no_rewriting_steps o phase ->
  apply_deterministic_cleaning uword lexicon t o phase
  = DeterministicCleaningResult.mk
      (_normalize_spacing (fst (stage_urls uword o (stage_smart o (t, [])))))
      (snd (stage_urls uword o (stage_smart o (t, [])))).
Proof.
  intros uword lexicon t o phase [H2 [H3 H4]].
  unfold apply_deterministic_cleaning, stage_ocr, stage_hyphenation, stage_footnotes.
  unfold cleaning_step at 1 2 3 4. rewrite H2, H3, H4. reflexivity.
Qed.

Lemma plain_10 : plain 10%Z.
Proof. split; [reflexivity|discriminate]. Qed.

Lemma plain_32 : plain 32%Z.
Proof. split; [reflexivity|discriminate]. Qed.

Lemma latin1_word_range : forall c, latin1_word c = true -> (170 <= c <= 255)%Z.
Proof.
  intros c H. unfold latin1_word, mem, in_range in H. apply orb_true_iff in H as [H|H].
  - simpl in H. repeat (apply orb_true_iff in H; destruct H as [H|H]);
      try (apply Z.eqb_eq in H; lia). discriminate.
  - apply andb_true_iff in H as [H _]. apply andb_true_iff in H as [H1 H2].
    apply Z.leb_le in H1, H2. lia.
Qed.

Lemma latin1_space_not_word : space_not_word latin1_word.
Proof.
  intros c H. destruct (latin1_word c) eqn:L; [exfalso|reflexivity].
  apply latin1_word_range in L.
  unfold is_py_space, in_range in H.
  repeat (apply orb_true_iff in H; destruct H as [H|H]);
    try (apply andb_true_iff in H; destruct H as [H1 H2]; apply Z.leb_le in H1, H2; lia);
    apply Z.eqb_eq in H; lia.
Qed.

(** C1: the cleaning engine is not idempotent in general (see the
    counterexample above), but its final whitespace normalization is, and
    so is the whole engine when hyphenation and OCR repair are off and
    footnote removal is off or not in the pre phase, with smart-punctuation
    replacement and URL removal on or off, given that [\w] matches no
    whitespace code point (as in Python): a second application returns the
    same text and records no step. *)
Theorem cleaning_idempotent_without_rewriting_steps :
  (forall s, _normalize_spacing (_normalize_spacing s) = _normalize_spacing s)
  /\ (forall uword lexicon t o phase,
      no_rewriting_steps o phase ->
      (CleaningOptions.remove_urls o = true -> space_not_word uword) ->
      let r := apply_deterministic_cleaning uword lexicon t o phase in
      apply_deterministic_cleaning uword lexicon (DeterministicCleaningResult.text r) o phase
      = DeterministicCleaningResult.mk (DeterministicCleaningResult.text r) []).
Proof.
  split; [exact normalize_spacing_idempotent|].
  intros uword lexicon t o phase H Hu r. subst r.
  rewrite (apply_no_rewriting uword lexicon t o phase H). cbn [DeterministicCleaningResult.text].
  rewrite (apply_no_rewriting uword lexicon _ o phase H).
  set (t1 := fst (stage_urls uword o (stage_smart o (t, [])))).
  assert (E1 : t1 = if CleaningOptions.remove_urls o
                    then _remove_urls uword (fst (stage_smart o (t, [])))
                    else fst (stage_smart o (t, []))).
  { unfold t1, stage_urls. destruct (stage_smart o (t, [])) as [s l].
    apply cleaning_step_fst. }
  assert (Hs : stage_smart o (_normalize_spacing t1, []) = (_normalize_spacing t1, [])).
  { apply cleaning_step_unchanged. intros Ho.
    apply replace_smart_punctuation_id, normalize_spacing_forall; [exact plain_10|exact plain_32|].
    rewrite E1, stage_smart_text, Ho.
    destruct (CleaningOptions.remove_urls o).
    - apply (proj1 (cleaning_functions_forall plain plain_10 plain_32)).
      apply replace_smart_punctuation_plain.
    - apply replace_smart_punctuation_plain. }
  assert (Hr : stage_urls uword o (_normalize_spacing t1, []) = (_normalize_spacing t1, [])).
  { apply cleaning_step_unchanged. intros Ho.
    apply url_free_sub_id, normalize_spacing_url_free; [exact (Hu Ho)|].
    rewrite E1, Ho. apply remove_urls_url_free_gen. left. reflexivity. }
  rewrite Hs, Hr. cbn [fst snd]. rewrite normalize_spacing_idempotent. reflexivity.
Qed.

Lemma cleaning_idempotent_without_rewriting_steps_witness :
  let o := CleaningOptions.mk true false false true true true false in
  let t := of_ascii " See  www.example.com/page , then
 read." in
  no_rewriting_steps o "post"
  /\ (CleaningOptions.remove_urls o = true -> space_not_word latin1_word)
  /\ DeterministicCleaningResult.text
       (apply_deterministic_cleaning latin1_word fallback_lexicon t o "post")
     = of_ascii "See , then
read."
  /\ apply_deterministic_cleaning latin1_word fallback_lexicon
       (DeterministicCleaningResult.text
          (apply_deterministic_cleaning latin1_word fallback_lexicon t o "post")) o "post"
     = DeterministicCleaningResult.mk (of_ascii "See , then
read.") [].
Proof.
  intros o t.
  assert (H1 : no_rewriting_steps o "post") by (repeat split).
  assert (H2 : CleaningOptions.remove_urls o = true -> space_not_word latin1_word)
    by (intros _; exact latin1_space_not_word).
  assert (H3 : DeterministicCleaningResult.text
                 (apply_deterministic_cleaning latin1_word fallback_lexicon t o "post")
               = of_ascii "See , then
read.") by (vm_compute; reflexivity).
  split; [exact H1|]. split; [exact H2|]. split; [exact H3|].
  pose proof (proj2 cleaning_idempotent_without_rewriting_steps latin1_word fallback_lexicon
                t o "post"%string H1 H2) as K.
  cbv zeta in K. rewrite H3 in K. exact K.
Defined.

(** * Chunking, orchestration and configuration *)

(** X10: validate_output accepts exactly the generated texts that are not blank; the original text plays no part. *)
Theorem validate_output_ignores_original :
  forall original generated, validate_output original generated = nonblank generated.
Proof.
  intros original generated. unfold validate_output, nonblank.
  destruct (py_strip generated); [reflexivity|].
  destruct (pystr_eqb _ _); reflexivity.
Qed.

Lemma chunk_loop_small_batch :
  forall b sentences, (b <= 1)%Z -> chunk_loop b [] sentences = sentences.
Proof.
  intros b sentences Hb. induction sentences as [|s rest IH]; simpl; [reflexivity|].
  replace (b <=? 1)%Z with true by (symmetry; apply Z.leb_le; exact Hb).
  rewrite IH. reflexivity.
Qed.

(** X11: with a batch size of 1 or less, split_into_chunks returns the sentences one per chunk. *)
Theorem split_into_chunks_small_batch :
  forall text b, (b <= 1)%Z -> split_into_chunks text b = split_sentences text.
Proof.
  intros text b Hb. unfold split_into_chunks.
  rewrite chunk_loop_small_batch by exact Hb.
  apply filter_nonempty_id, split_sentences_nonempty.
Qed.

Lemma split_into_chunks_small_batch_witness :
  (0 <= 1)%Z
  /\ split_into_chunks (of_ascii "One. Two! Three") 0
     = [of_ascii "One."; of_ascii "Two!"; of_ascii "Three"].
Proof.
  split; [lia|].
  rewrite (split_into_chunks_small_batch (of_ascii "One. Two! Three") 0) by lia.
  vm_compute. reflexivity.
Defined.

Lemma split_into_chunks_groups :
  forall text b, (1 <= b)%Z ->
  exists groups,
    concat groups = split_sentences text
    /\ split_into_chunks text b = map (py_join [32%Z]) groups
    /\ Forall (fun g => Z.of_nat (length g) = b) (removelast groups)
    /\ (groups <> [] -> (1 <= length (last groups []))%nat
                        /\ (Z.of_nat (length (last groups [])) <= b)%Z).
Proof.
  intros text b Hb.
  pose proof (split_sentences_nonempty text) as Hne.
  destruct (chunk_loop_groups b (split_sentences text) [] Hb ltac:(simpl; lia))
    as [gs [E1 [E2 [E3 [E4 E5]]]]].
  simpl in E2. exists gs.
  split; [exact E2|]. split; [|split; [exact E3|exact E4]].
  unfold split_into_chunks. rewrite E1. apply filter_nonempty_id.
  apply Forall_forall. intros j Hj. apply in_map_iff in Hj. destruct Hj as [g [<- Hg]].
  rewrite Forall_forall in E5. specialize (E5 g Hg).
  destruct g as [|x xs]; [contradiction|].
  apply (py_join_nonempty _ _ x); [left; reflexivity|].
  rewrite Forall_forall in Hne. apply Hne. rewrite <- E2.
  apply in_concat. exists (x :: xs). split; [exact Hg|left; reflexivity].
Qed.

Lemma length_concat_uniform :
  forall (b : Z) (l : list (list pystr)), Forall (fun g => Z.of_nat (length g) = b) l ->
  Z.of_nat (length (concat l)) = (Z.of_nat (length l) * b)%Z.
Proof.
  intros b l H. induction H as [|g l Hg Hl IH]; [reflexivity|].
  cbn [concat length]. rewrite length_app, Nat2Z.inj_add, IH, Hg.
  rewrite Nat2Z.inj_succ, Z.mul_succ_l. lia.
Qed.

(** X12: with a positive batch size b, split_into_chunks returns ceil(n / b) chunks for n sentences. *)
Theorem split_into_chunks_count :
  forall text b, (1 <= b)%Z ->
  Z.of_nat (length (split_into_chunks text b))
  = ((Z.of_nat (length (split_sentences text)) + b - 1) / b)%Z.
Proof.
  intros text b Hb.
  destruct (split_into_chunks_groups text b Hb) as [gs [E1 [E2 [E3 E4]]]].
  rewrite E2, length_map, <- E1.
  destruct gs as [|g gs'] using rev_ind.
  - simpl. rewrite Z.div_small by lia. reflexivity.
  - clear IHgs'. rewrite removelast_last in E3. rewrite last_last in E4.
    destruct (E4 ltac:(destruct gs'; discriminate)) as [L1 L2].
    rewrite concat_app, (length_app gs' [g]), (length_app (concat gs') (concat [g])).
    rewrite !Nat2Z.inj_add, (length_concat_uniform b gs' E3).
    cbn [concat length]. rewrite app_nil_r.
    set (k := Z.of_nat (length gs')). set (r := Z.of_nat (length g)).
    assert (Hr : (1 <= r)%Z) by (subst r; lia).
    replace (k * b + r + b - 1)%Z with ((r + b - 1) + k * b)%Z by lia.
    rewrite Z.div_add by lia.
    replace ((r + b - 1) / b)%Z with 1%Z.
    + lia.
    + apply (Z.div_unique_pos _ _ _ (r - 1)); lia.
Qed.

Lemma split_into_chunks_count_witness :
  (1 <= 2)%Z
  /\ Z.of_nat (length (split_into_chunks (of_ascii "One. Two! Three? Four. Five.") 2)) = 3%Z.
Proof.
  split; [lia|].
  rewrite (split_into_chunks_count (of_ascii "One. Two! Three? Four. Five.") 2) by lia.
  vm_compute. reflexivity.
Defined.

Section Calls.
Variable service : nat -> ProcessOptions.t -> ChunkOutcome.
Variable config : ProcessingConfig.t.

Lemma attempt_step_calls :
  forall idx chunk st,
  Acc.calls (Attempt.acc (fst (attempt_step service config idx chunk st)))
  = S (Acc.calls (Attempt.acc st)).
Proof.
  intros idx chunk st. unfold attempt_step.
  destruct (service _ _); [destruct (2 <=? _)%nat|]; reflexivity.
Qed.

Lemma run_chunk_calls :
  forall idx chunk a,
  (S (Acc.calls a) <= Acc.calls (Attempt.acc (run_chunk service config idx chunk a))
   <= S (S (Acc.calls a)))%nat.
Proof.
  intros idx chunk a. unfold run_chunk. cbn [attempt_loop Attempt.retry_count Attempt.success].
  simpl (_ && _).
  pose proof (attempt_step_calls idx chunk (Attempt.mk 0 false chunk a)) as E.
  destruct (attempt_step service config idx chunk (Attempt.mk 0 false chunk a)) as [st' brk].
  simpl in E. destruct brk; [lia|]. destruct (_ && _); [|lia].
  pose proof (attempt_step_calls idx chunk st') as E2.
  destruct (attempt_step service config idx chunk st') as [st'' b2].
  simpl in E2. destruct b2; lia.
Qed.

Lemma chunks_loop_calls :
  forall chunks idx a,
  let n := Acc.calls (fst (chunks_loop service config (W := unit) None idx chunks a tt)) in
  (Acc.calls a + length chunks <= n <= Acc.calls a + 2 * length chunks)%nat.
Proof.
  induction chunks as [|chunk rest IH]; intros idx a n; subst n; simpl; [lia|].
  pose proof (run_chunk_calls idx chunk a) as R.
  match goal with |- context [chunks_loop _ _ _ _ _ ?a' _] =>
    specialize (IH (S idx) a'); simpl in IH end.
  lia.
Qed.

Lemma run_chunk_valid_first :
  forall idx chunk a r,
  service (Acc.calls a) (chunk_options config chunk) = Return r ->
  nonblank (ProcessChunkResult.text r) = true ->
  let st := run_chunk service config idx chunk a in
  Acc.calls (Attempt.acc st) = S (Acc.calls a) /\ Acc.logs (Attempt.acc st) = Acc.logs a.
Proof.
  intros idx chunk a r E V st. subst st.
  unfold run_chunk, attempt_loop, attempt_step. simpl. rewrite E. simpl.
  unfold validate_output. unfold nonblank in V.
  destruct (py_strip (ProcessChunkResult.text r)); [discriminate|].
  destruct (pystr_eqb _ _); split; reflexivity.
Qed.

Lemma chunks_loop_valid :
  (forall n o, exists r, service n o = Return r /\ nonblank (ProcessChunkResult.text r) = true) ->
  forall chunks idx a,
  let a' := fst (chunks_loop service config (W := unit) None idx chunks a tt) in
  Acc.calls a' = (Acc.calls a + length chunks)%nat /\ Acc.logs a' = Acc.logs a.
Proof.
  intros H. induction chunks as [|chunk rest IH]; intros idx a a'; subst a'; simpl.
  - split; [lia|reflexivity].
  - destruct (H (Acc.calls a) (chunk_options config chunk)) as [r [E V]].
    destruct (run_chunk_valid_first idx chunk a r E V) as [C L].
    match goal with |- context [chunks_loop _ _ _ _ _ ?a' _] =>
      destruct (IH (S idx) a') as [C' L'] end.
    simpl in C', L'. rewrite C', L', C, L. split; [lia|reflexivity].
Qed.

End Calls.

(** X13: process_text calls the service at least once and at most twice per chunk; when every call returns a non-blank text, it calls once per chunk and logs nothing. *)
Theorem process_text_call_bounds :
  forall service config text,
  let chunks := split_into_chunks text (ProcessingConfig.batch_size config) in
  (length chunks <= service_calls service config text <= 2 * length chunks)%nat
  /\ ((forall n o, exists r, service n o = Return r
                            /\ nonblank (ProcessChunkResult.text r) = true) ->
      service_calls service config text = length chunks
      /\ ProcessingSummary.logs (fst (process_text service config (W := unit) None text tt)) = []).
Proof.
  intros service config text chunks. unfold service_calls. fold chunks.
  split.
  - pose proof (chunks_loop_calls service config chunks 0 Acc.init) as B. simpl in B. lia.
  - intros H. destruct (chunks_loop_valid service config H chunks 0 Acc.init) as [C L].
    split; [exact C|].
    unfold process_text. fold chunks.
    destruct (chunks_loop service config None 0 chunks Acc.init tt) as [a u]. exact L.
Qed.

Lemma process_text_call_bounds_witness :
  let service := fun (_ : nat) (_ : ProcessOptions.t) =>
                   Return (ProcessChunkResult.mk (of_ascii "ok") 1 1 0%float 0%float []) in
  let text := of_ascii "One. Two." in
  (forall n o, exists r, service n o = Return r /\ nonblank (ProcessChunkResult.text r) = true)
  /\ service_calls service default_config text = 1%nat
  /\ ProcessingSummary.logs (fst (process_text service default_config (W := unit) None text tt)) = [].
Proof.
  intros service text.
  assert (H : forall n o, exists r, service n o = Return r
                                    /\ nonblank (ProcessChunkResult.text r) = true).
  { intros n o. eexists. split; reflexivity. }
  destruct (proj2 (process_text_call_bounds service default_config text) H) as [C L].
  split; [exact H|]. split; [|exact L].
  rewrite C. vm_compute. reflexivity.
Defined.

Lemma chunks_loop_raising :
  forall k m config chunks idx a,
  chunks_loop (fun _ _ => Raise k m) config (W := unit) None idx chunks a tt
  = (Acc.mk (Acc.processed a ++ chunks) (Acc.applied_steps a)
       (Acc.logs a ++ flat_map (fun i => let c := Z.of_nat i in
                                 [ChunkError c k m; ChunkError c k m; ChunkFallback c])
                        (seq (S idx) (length chunks)))
       (Acc.total_input_tokens a) (Acc.total_output_tokens a) (Acc.total_cost a)
       (Acc.calls a + 2 * length chunks), tt).
Proof.
  intros k m config chunks. induction chunks as [|chunk rest IH]; intros idx a.
  - simpl. rewrite !app_nil_r, Nat.add_0_r. destruct a; reflexivity.
  - cbn [chunks_loop]. rewrite IH. cbn [length seq flat_map].
    unfold run_chunk, attempt_loop, attempt_step. simpl.
    rewrite <- !app_assoc. f_equal.
    replace (S (S (Acc.calls a + (length rest + (length rest + 0)))))
      with (Acc.calls a + S (length rest + S (length rest + 0)))%nat by lia.
    reflexivity.
Qed.

(** X14: when the service always raises, process_text returns the chunks unchanged joined by blank lines, counts every chunk, reports no tokens or cost and logs one failure per chunk, after two calls per chunk. *)
Theorem raising_service_summary :
  forall k m config text,
  let chunks := split_into_chunks text (ProcessingConfig.batch_size config) in
  fst (process_text (fun _ _ => Raise k m) config (W := unit) None text tt)
  = ProcessingSummary.mk (py_join [10; 10]%Z chunks) (Z.of_nat (length chunks)) 0 0 0%float []
      (raise_logs k m (length chunks))
  /\ service_calls (fun _ _ => Raise k m) config text = (2 * length chunks)%nat.
Proof.
  intros k m config text chunks. unfold process_text, service_calls. fold chunks.
  rewrite chunks_loop_raising. simpl. split; [reflexivity|lia].
Qed.

(** X15: for an active speaker configuration without single pass, process_chunk generates twice (cleaning prompt, then speaker prompt on the first result) and returns the stripped post-processed second result with summed usage and the applied steps in order. *)
Theorem process_chunk_two_pass :
  forall uword lexicon client_configured generate options cfg g1 u1 g2 u2,
  speaker_active (ProcessOptions.speaker_config options) = Some cfg ->
  ProcessOptions.single_pass options = false ->
  (ProcessOptions.model_source options = OLLAMA \/ client_configured = true) ->
  let co := ProcessOptions.cleaning_options options in
  let custom := ProcessOptions.custom_instructions options in
  let pre := if ProcessOptions.llm_cleaning_disabled options
             then (ProcessOptions.text options, [])
             else let r := clean uword lexicon (ProcessOptions.text options) co "pre" in
                  (DeterministicCleaningResult.text r, DeterministicCleaningResult.applied r) in
  let prompt1 := CleaningPrompt (fst pre) co custom in
  let prompt2 := SpeakerPrompt g1 cfg custom (ProcessOptions.extended_examples options) in
  generate options prompt1 = GenOk g1 u1 ->
  generate options prompt2 = GenOk g2 u2 ->
  let post := clean uword lexicon g2 co "post" in
  process_chunk uword lexicon client_configured generate options
  = ([prompt1; prompt2],
     Return (ProcessChunkResult.mk (py_strip (DeterministicCleaningResult.text post))
               (Usage.input_tokens u1 + Usage.input_tokens u2)
               (Usage.output_tokens u1 + Usage.output_tokens u2)
               (Usage.input_cost u1 + Usage.input_cost u2)
               (Usage.output_cost u1 + Usage.output_cost u2)
               (snd pre ++ ["llmCleaning"; "llmSpeakerFormatting"]%string
                ++ DeterministicCleaningResult.applied post))).
Proof.
  intros uword lexicon client_configured generate options cfg g1 u1 g2 u2 Hs Hp Hc
    co custom pre prompt1 prompt2 G1 G2 post.
  assert (Hm : match ProcessOptions.model_source options, client_configured with
               | API, false => False | _, _ => True end).
  { destruct Hc as [E|E]; rewrite E; [trivial|].
    destruct (ProcessOptions.model_source options); trivial. }
  unfold process_chunk. rewrite Hs, Hp.
  subst co custom pre prompt1 prompt2 post.
  destruct (ProcessOptions.model_source options), client_configured; try contradiction;
    destruct (ProcessOptions.llm_cleaning_disabled options); cbn [negb fst snd] in *;
    cbv zeta; rewrite G1, G2;
    unfold finish_chunk; simpl; rewrite <- ?app_assoc; reflexivity.
Qed.

Lemma process_chunk_two_pass_witness :
  let cfg := SpeakerConfig.mk FORMAT 2 SPEAKER [] false 5 true REMOVE [] None in
  let options := ProcessOptions.mk (of_ascii "Hi there.") all_off (Some cfg) OLLAMA
                   (of_ascii "m") None 0x1.3333333333333p-2%float None false true false in
  fst (process_chunk latin1_word fallback_lexicon false echo_generation options)
  = [CleaningPrompt (of_ascii "Hi there.") all_off None;
     SpeakerPrompt (of_ascii "Hi there.") cfg None false].
Proof.
  intros cfg options.
  rewrite (process_chunk_two_pass latin1_word fallback_lexicon false echo_generation options cfg
             (of_ascii "Hi there.") (Usage.mk 10 5 0%float 0%float)
             (of_ascii "Hi there.") (Usage.mk 10 5 0%float 0%float)
             eq_refl eq_refl (or_introl eq_refl) eq_refl eq_refl).
  reflexivity.
Defined.









(** * Generation backends and the API token *)

Lemma SFcompare_antisym :
  forall x y, SpecFloat.SFcompare y x = option_map CompOpp (SpecFloat.SFcompare x y).
Proof.
  intros [sx|sx| |sx mx ex] [sy|sy| |sy my ey];
    try reflexivity; try (destruct sx; reflexivity); try (destruct sy; reflexivity);
    try (destruct sx, sy; reflexivity).
  pose proof (Pos.compare_antisym mx my) as P. unfold Pos.compare in P.
  destruct sx, sy; simpl; try reflexivity;
    rewrite (Z.compare_antisym ex ey); destruct (ex ?= ey)%Z; simpl; try reflexivity;
    rewrite P; try reflexivity; destruct (Pos.compare_cont Eq mx my); reflexivity.
Qed.

Lemma float_ltb_leb : forall x y, (x <? y)%float = true -> (x <=? y)%float = true.
Proof.
  intros x y. rewrite ltb_spec, leb_spec. unfold SpecFloat.SFltb, SpecFloat.SFleb.
  destruct (SpecFloat.SFcompare _ _) as [[| |]|]; congruence.
Qed.

(** Two numbers (no NaN among them, which the [<?] test excludes): one is
    below or equal to the other unless it is above it. *)
Lemma float_not_ltb_leb :
  forall a x y, (a <? x)%float = true -> (a <? y)%float = true ->
  (y <? x)%float = false -> (x <=? y)%float = true.
Proof.
  intros a x y Hx Hy H. rewrite ltb_spec in Hx, Hy, H. rewrite leb_spec.
  unfold SpecFloat.SFltb, SpecFloat.SFleb in *.
  rewrite SFcompare_antisym in H.
  destruct (SpecFloat.SFcompare (Prim2SF x) (Prim2SF y)) as [[| |]|] eqn:C;
    simpl in H; try discriminate; try reflexivity.
  destruct (Prim2SF x) eqn:Ex, (Prim2SF y) eqn:Ey; try discriminate C;
    destruct (Prim2SF a); try destruct s; try destruct s0; simpl in Hx, Hy; discriminate.
Qed.

Lemma float_leb_not_ltb :
  forall x y, (x <=? y)%float = true -> (y <? x)%float = false.
Proof.
  intros x y. rewrite leb_spec, ltb_spec. unfold SpecFloat.SFltb, SpecFloat.SFleb.
  rewrite SFcompare_antisym.
  destruct (SpecFloat.SFcompare _ _) as [[| |]|]; simpl; congruence.
Qed.

Lemma clamp_bounds :
  forall hi t, (0 <? hi)%float = true -> (hi <=? hi)%float = true ->
  let r := py_max 0%float (py_min t hi) in
  (0 <=? r)%float = true /\ (r <=? hi)%float = true
  /\ ((0 <? t)%float = true -> (t <=? hi)%float = true -> r = t).
Proof.
  intros hi t H0 Hh r. subst r. unfold py_min, py_max.
  destruct (hi <? t)%float eqn:E1.
  - rewrite H0. split; [apply float_ltb_leb; exact H0|]. split; [exact Hh|].
    intros _ Hle. rewrite (float_leb_not_ltb t hi Hle) in E1. discriminate.
  - destruct (0 <? t)%float eqn:E2.
    + split; [apply float_ltb_leb; exact E2|].
      split; [apply (float_not_ltb_leb 0%float); assumption|].
      intros _ _. reflexivity.
    + split; [reflexivity|]. split; [apply float_ltb_leb; exact H0|].
      intros H. discriminate.
Qed.

Lemma float_nan_not_ltb :
  forall x y, (y =? y)%float = false -> (x <? y)%float = false /\ (y <? x)%float = false.
Proof.
  intros x y H. rewrite eqb_spec in H. rewrite !ltb_spec.
  unfold SpecFloat.SFeqb, SpecFloat.SFltb in *.
  destruct (Prim2SF y) as [sy|sy| |sy my ey]; simpl in H.
  - destruct sy; discriminate.
  - destruct sy; discriminate.
  - destruct (Prim2SF x); split; reflexivity.
  - destruct sy; rewrite Z.compare_refl in H;
      change (Pos.compare_cont Eq my my) with (Pos.compare my my) in H;
      rewrite Pos.compare_refl in H; discriminate.
Qed.

Lemma clamp_nan :
  forall hi t, (t =? t)%float = false -> py_max 0%float (py_min t hi) = 0%float.
Proof.
  intros hi t H. destruct (float_nan_not_ltb hi t H) as [E1 _].
  destruct (float_nan_not_ltb 0%float t H) as [E2 _].
  unfold py_min, py_max. rewrite E1, E2. reflexivity.
Qed.

(** X17: _generate_with_hf sends the model and prompt unchanged with 512 new tokens and a temperature clamped to [0, 1.5] (NaN becomes 0), and reports token usage estimated from the prompt and the generated text. *)
Theorem generate_with_hf_request :
  forall text_generation prompt model_name temperature,
  exists request,
    fst (_generate_with_hf (Some text_generation) prompt model_name temperature) = Some request
    /\ HFRequest.model request = model_name /\ HFRequest.prompt request = prompt
    /\ HFRequest.max_new_tokens request = 512%Z
    /\ (0 <=? HFRequest.temperature request)%float = true
    /\ (HFRequest.temperature request <=? 1.5)%float = true
    /\ ((0 <? temperature)%float = true -> (temperature <=? 1.5)%float = true ->
        HFRequest.temperature request = temperature)
    /\ ((temperature =? temperature)%float = false -> HFRequest.temperature request = 0%float)
    /\ (forall generated usage,
        snd (_generate_with_hf (Some text_generation) prompt model_name temperature)
          = GenOk generated usage ->
        usage = Usage.mk (estimate_tokens prompt) (estimate_tokens generated) 0%float 0%float).
Proof.
  intros text_generation prompt model_name temperature.
  destruct (clamp_bounds 1.5%float temperature eq_refl eq_refl) as [B1 [B2 B3]].
  exists (HFRequest.mk model_name prompt 512 (py_max 0%float (py_min temperature 1.5%float))
            0x1.e666666666666p-1%float 0x1.0cccccccccccdp+0%float false).
  split; [unfold _generate_with_hf; destruct (text_generation _); reflexivity|].
  do 3 (split; [reflexivity|]).
  split; [exact B1|]. split; [exact B2|]. split; [exact B3|].
  split; [apply clamp_nan|].
  intros generated usage. simpl.
  destruct (text_generation _); intros E; inversion E; reflexivity.
Qed.

Lemma generate_with_hf_nan_witness :
  exists request,
    fst (_generate_with_hf (Some (fun _ => HFText (of_ascii " ok "))) (of_ascii "Clean this")
           (of_ascii "m") nan) = Some request
    /\ HFRequest.temperature request = 0%float.
Proof.
  destruct (generate_with_hf_request (fun _ => HFText (of_ascii " ok ")) (of_ascii "Clean this")
              (of_ascii "m") nan) as [r [E [_ [_ [_ [_ [_ [_ [N _]]]]]]]]].
  exists r. split; [exact E|]. apply N. reflexivity.
Defined.

Lemma py_rstrip_char_trailing :
  forall ch u k, py_rstrip_char ch (u ++ repeat ch k) = py_rstrip_char ch u.
Proof.
  intros ch u k. unfold py_rstrip_char. rewrite rev_app_distr, rev_repeat.
  induction k as [|k IH]; simpl; [reflexivity|].
  rewrite Z.eqb_refl. exact IH.
Qed.

(** X18: the Ollama request clamps the temperature to [0, 2] (NaN becomes 0), defaults the model to llama3.1:8b, ignores trailing slashes of the base URL and defaults it to the local server. *)
Theorem ollama_generate_request_spec :
  forall OLLAMA_BASE_URL OLLAMA_MODEL prompt options,
  let request := ollama_generate_request OLLAMA_BASE_URL OLLAMA_MODEL prompt options in
  let t := ProcessOptions.temperature options in
  (0 <=? OllamaRequest.temperature request)%float = true
  /\ (OllamaRequest.temperature request <=? 2)%float = true
  /\ ((0 <? t)%float = true -> (t <=? 2)%float = true -> OllamaRequest.temperature request = t)
  /\ ((t =? t)%float = false -> OllamaRequest.temperature request = 0%float)
  /\ (truthy_str (ProcessOptions.ollama_model_name options) = None ->
      OLLAMA_MODEL = None -> OllamaRequest.model request = of_ascii "llama3.1:8b")
  /\ (forall base k,
      OllamaRequest.url (ollama_generate_request (Some (base ++ repeat 47%Z k)) OLLAMA_MODEL
                           prompt options)
      = OllamaRequest.url (ollama_generate_request (Some base) OLLAMA_MODEL prompt options))
  /\ (OLLAMA_BASE_URL = None ->
      OllamaRequest.url request = of_ascii "http://localhost:11434/api/generate").
Proof.
  intros OLLAMA_BASE_URL OLLAMA_MODEL prompt options request t.
  destruct (clamp_bounds 2%float t eq_refl eq_refl) as [B1 [B2 B3]].
  split; [exact B1|]. split; [exact B2|]. split; [exact B3|].
  split; [apply clamp_nan|].
  split.
  - intros Hm He. subst request. unfold ollama_generate_request. rewrite Hm, He. reflexivity.
  - split.
    + intros base k. unfold ollama_generate_request. simpl.
      rewrite py_rstrip_char_trailing. reflexivity.
    + intros Hb. subst request. unfold ollama_generate_request. rewrite Hb. reflexivity.
Qed.

Lemma ollama_generate_request_spec_witness :
  let options := chunk_options default_config (of_ascii "Some text.") in
  truthy_str (ProcessOptions.ollama_model_name options) = None
  /\ OllamaRequest.model (ollama_generate_request None None (of_ascii "p") options)
     = of_ascii "llama3.1:8b"
  /\ OllamaRequest.url (ollama_generate_request None None (of_ascii "p") options)
     = of_ascii "http://localhost:11434/api/generate"
  /\ OllamaRequest.temperature (ollama_generate_request None None (of_ascii "p") options)
     = ProcessOptions.temperature options.
Proof.
  intros options.
  destruct (ollama_generate_request_spec None None (of_ascii "p") options)
    as [_ [_ [T [_ [M [_ U]]]]]].
  split; [reflexivity|]. split; [apply M; reflexivity|]. split; [apply U; reflexivity|].
  apply T; reflexivity.
Defined.

Lemma truthy_str_idem : forall o, truthy_str (truthy_str o) = truthy_str o.
Proof. intros [[|c s]|]; reflexivity. Qed.

Lemma env_token_truthy : forall e, truthy_str (env_token e) = env_token e.
Proof.
  intros e. unfold env_token.
  destruct (truthy_str (Env.HUGGINGFACE_API_TOKEN e)) as [t|] eqn:E.
  - rewrite <- E. apply truthy_str_idem.
  - apply truthy_str_idem.
Qed.

Lemma opt_pystr_eqb_true : forall a b, opt_pystr_eqb a b = true -> a = b.
Proof.
  intros [a|] [b|] H; simpl in H; try discriminate; try reflexivity.
  f_equal. apply pystr_eqb_true. exact H.
Qed.

Lemma update_client_from_env_state :
  forall st, client_matches_token st ->
  let st' := _update_client_from_env st in
  LLMState.env st' = LLMState.env st
  /\ LLMState.token st' = env_token (LLMState.env st)
  /\ LLMState.client st' = env_token (LLMState.env st).
Proof.
  intros [e tok cl] H st'. subst st'. unfold client_matches_token in H. simpl in H.
  unfold _update_client_from_env. simpl.
  destruct (opt_pystr_eqb (env_token e) tok) eqn:E; simpl.
  - apply opt_pystr_eqb_true in E. subst tok cl.
    split; [reflexivity|]. split; [reflexivity|]. apply env_token_truthy.
  - split; [reflexivity|]. split; [reflexivity|]. apply env_token_truthy.
Qed.

Lemma update_client_keeps_match :
  forall st, client_matches_token st -> client_matches_token (_update_client_from_env st).
Proof.
  intros st H. destruct (update_client_from_env_state st H) as [_ [E2 E3]].
  unfold client_matches_token. rewrite E2, E3. symmetry. apply env_token_truthy.
Qed.

(** X19: the service starts with the environment token as its client token, and each refresh from the environment sets the client to that token while keeping the environment. *)
Theorem hf_client_follows_env :
  (forall e, let st := llm_service_init e in
     LLMState.env st = e /\ LLMState.token st = env_token e /\ LLMState.client st = env_token e)
  /\ (forall st, client_matches_token st ->
      let st' := _update_client_from_env st in
      LLMState.env st' = LLMState.env st
      /\ LLMState.token st' = env_token (LLMState.env st)
      /\ LLMState.client st' = env_token (LLMState.env st)
      /\ client_matches_token st').
Proof.
  split.
  - intros e st. apply update_client_from_env_state. reflexivity.
  - intros st H st'. destruct (update_client_from_env_state st H) as [E1 [E2 E3]].
    split; [exact E1|]. split; [exact E2|]. split; [exact E3|].
    apply update_client_keeps_match. exact H.
Qed.

Lemma set_api_token_state :
  forall token st, client_matches_token st ->
  let st' := set_api_token token st in
  Env.HF_TOKEN (LLMState.env st') = Env.HF_TOKEN (LLMState.env st)
  /\ Env.HUGGINGFACE_API_TOKEN (LLMState.env st') = truthy_str token
  /\ LLMState.client st' = match truthy_str token with
                           | Some t => Some t
                           | None => truthy_str (Env.HF_TOKEN (LLMState.env st))
                           end.
Proof.
  intros token [e tok cl] H st'. subst st'. unfold set_api_token. simpl.
  set (e' := match truthy_str token with
             | Some t => Env.mk (Some t) (Env.HF_TOKEN e)
             | None => Env.mk None (Env.HF_TOKEN e)
             end).
  destruct (update_client_from_env_state (LLMState.mk e' tok cl) H) as [E1 [_ E3]].
  rewrite E1, E3. simpl. subst e'. unfold env_token.
  destruct (truthy_str token) as [t|] eqn:T; simpl.
  - split; [reflexivity|]. split; [reflexivity|].
    destruct token as [[|c s]|]; simpl in T; try discriminate.
    injection T as <-. reflexivity.
  - split; [reflexivity|split; reflexivity].
Qed.

(** X20: configure_token with a non-blank token stores the stripped token in the environment and the client; with a blank one it clears HUGGINGFACE_API_TOKEN and falls back to HF_TOKEN; HF_TOKEN is never changed. *)
Theorem configure_token_spec :
  forall token st, client_matches_token st ->
  let st' := fst (configure_token token st) in
  let status := snd (configure_token token st) in
  client_matches_token st'
  /\ Env.HF_TOKEN (LLMState.env st') = Env.HF_TOKEN (LLMState.env st)
  /\ (nonblank token = true ->
      status = "HuggingFace token configured"%string
      /\ Env.HUGGINGFACE_API_TOKEN (LLMState.env st') = Some (py_strip token)
      /\ LLMState.client st' = Some (py_strip token))
  /\ (nonblank token = false ->
      status = "Token cleared"%string
      /\ Env.HUGGINGFACE_API_TOKEN (LLMState.env st') = None
      /\ LLMState.client st' = truthy_str (Env.HF_TOKEN (LLMState.env st))).
Proof.
  intros token st H st' status.
  assert (M : client_matches_token st').
  { subst st'. simpl. unfold set_api_token. apply update_client_keeps_match. exact H. }
  destruct (set_api_token_state (or_none (py_strip token)) st H) as [E1 [E2 E3]].
  change (set_api_token (or_none (py_strip token)) st) with st' in E1, E2, E3.
  split; [exact M|]. split; [exact E1|].
  subst status. simpl. unfold nonblank. destruct (py_strip token) as [|c s] eqn:S; simpl in E2, E3.
  - split; [discriminate|]. intros _. split; [reflexivity|]. split; assumption.
  - split; [|discriminate]. intros _. split; [reflexivity|]. split; assumption.
Qed.

Lemma hf_client_follows_env_witness :
  let e := Env.mk (Some []) (Some (of_ascii "hf_abc")) in
  let st := LLMState.mk e None None in
  client_matches_token st
  /\ LLMState.client (_update_client_from_env st) = Some (of_ascii "hf_abc").
Proof.
  intros e st.
  assert (H : client_matches_token st) by reflexivity.
  split; [exact H|].
  destruct (proj2 hf_client_follows_env st H) as [_ [_ [C _]]].
  rewrite C. reflexivity.
Defined.

Lemma configure_token_spec_witness :
  let st := llm_service_init (Env.mk None (Some (of_ascii "hf_abc"))) in
  client_matches_token st
  /\ snd (configure_token (of_ascii "   ") st) = "Token cleared"%string
  /\ LLMState.client (fst (configure_token (of_ascii "   ") st)) = Some (of_ascii "hf_abc").
Proof.
  intros st.
  assert (H : client_matches_token st) by (vm_compute; reflexivity).
  destruct (configure_token_spec (of_ascii "   ") st H) as [_ [_ [_ B]]].
  assert (N : nonblank (of_ascii "   ") = false) by reflexivity.
  destruct (B N) as [S [_ C]].
  split; [exact H|]. split; [exact S|]. rewrite C. reflexivity.
Defined.
